(** * COM sniffer: marker resolution, frame extraction, log rotation and the
      pending-display queue of [com_sniffer.py], as a shallow embedding.

    Python values are modelled as follows.
    - [bytes] is [list byte]; [len], [find], slicing and [split] follow the
      semantics of the built-in type.
    - [str] is a list of Unicode code points.  A marker text entered by the
      user is a Rocq [string] whose characters are read as the code points
      U+0000..U+00FF; case mapping, whitespace and digit classification are
      those of the Unicode database on that range (and on the few code points
      outside it that [upper] can produce).
    - Exceptions are an explicit [Raise] outcome.
    - Loops run on fuel; every top-level operation supplies enough fuel and
      this is proved ([OutOfFuel] is never the outcome). *)

From Stdlib Require Import ZArith NArith List String Ascii Strings.Byte Bool Lia.
Import ListNotations.

(** ** Outcomes *)

Inductive exn : Type :=
| ValueError
| IndexError.

Inductive result (A : Type) : Type :=
| Ok (a : A)
| Raise (e : exn)
| OutOfFuel.

Arguments Ok {A} a.
Arguments Raise {A} e.
Arguments OutOfFuel {A}.

Definition bytes := list byte.

(** ** Text: [str] as code points *)

Module Str.

Local Open Scope N_scope.

Definition codepoint := N.
Definition str := list codepoint.

Definition between (lo c hi : N) : bool := (lo <=? c) && (c <=? hi).

(** The characters of a marker text, as code points. *)
Definition code_points (s : string) : str :=
  map N_of_ascii (list_ascii_of_string s).

(** [Py_UNICODE_ISSPACE]: the characters removed by [str.strip()]. *)
Definition isspace (c : codepoint) : bool :=
  between 9 c 13 || between 28 c 32 || (c =? 133) || (c =? 160)
  || (c =? 5760) || between 8192 c 8202 || (c =? 8232) || (c =? 8233)
  || (c =? 8239) || (c =? 8287) || (c =? 12288).

Fixpoint lstrip (s : str) : str :=
  match s with
  | [] => []
  | c :: t => if isspace c then lstrip t else s
  end.

Fixpoint rstrip (s : str) : str :=
  match s with
  | [] => []
  | c :: t =>
      match rstrip t with
      | [] => if isspace c then [] else [c]
      | t' => c :: t'
      end
  end.

(** [s.strip()] *)
Definition strip (s : str) : str := rstrip (lstrip s).

(** Full upper-case mapping of one code point of U+0000..U+00FF:
    a-z, the Latin-1 letters U+00E0..U+00FE (not the division sign U+00F7),
    the micro sign (to U+039C), sharp s (to "SS") and y-diaeresis (to
    U+0178). *)
Definition upper_cp (c : codepoint) : str :=
  if between 97 c 122 then [c - 32]
  else if c =? 181 then [924]
  else if c =? 223 then [83; 83]
  else if between 224 c 254 && negb (c =? 247) then [c - 32]
  else if c =? 255 then [376]
  else [c].

(** [s.upper()] *)
Definition upper (s : str) : str := flat_map upper_cp s.

(** Lower-case mapping on the code points [upper] can produce. *)
Definition lower_cp (c : codepoint) : codepoint :=
  if between 65 c 90 then c + 32
  else if between 192 c 222 && negb (c =? 215) then c + 32
  else if c =? 376 then 255
  else if c =? 924 then 956
  else c.

(** [s.lower()] *)
Definition lower (s : str) : str := map lower_cp s.

Fixpoint startswith (s p : str) {struct p} : bool :=
  match p, s with
  | [], _ => true
  | a :: p', b :: s' => (a =? b) && startswith s' p'
  | _ :: _, [] => false
  end.

Definition eqb (a b : str) : bool :=
  (List.length a =? List.length b)%nat && startswith a b.

(** [str.isdigit] on one character: the ASCII digits and the superscript
    digits U+00B2, U+00B3, U+00B9 (Numeric_Type=Digit). *)
Definition isdigit_cp (c : codepoint) : bool :=
  between 48 c 57 || (c =? 178) || (c =? 179) || (c =? 185).

(** [s.isdigit()]: false on the empty string. *)
Definition isdigit (s : str) : bool :=
  match s with
  | [] => false
  | _ => forallb isdigit_cp s
  end.

(** *** [int(s, base)]

    The grammar of [PyLong_FromString]: optional surrounding white space,
    an optional sign, for base 16 an optional [0x]/[0X] prefix (which may be
    followed by one underscore), then digits with single underscores between
    them.  Characters that are neither ASCII nor decimal digits nor spaces
    make the literal invalid.  Unless the base is a power of two, a literal
    of more than [sys.int_info.default_max_str_digits] digits is refused as
    well: the program leaves the interpreter's limit at its default. *)

Definition digit_value (c : codepoint) : option N :=
  if between 48 c 57 then Some (c - 48)
  else if between 97 c 122 then Some (c - 87)
  else if between 65 c 90 then Some (c - 55)
  else None.

Definition digit (base : N) (c : codepoint) : option N :=
  match digit_value c with
  | Some v => if v <? base then Some v else None
  | None => None
  end.

(** White space skipped by [int] around the literal. *)
Definition int_space (c : codepoint) : bool :=
  between 9 c 13 || (c =? 32) || ((128 <=? c) && isspace c).

Fixpoint lstrip_with (sp : codepoint -> bool) (s : str) : str :=
  match s with
  | [] => []
  | c :: t => if sp c then lstrip_with sp t else s
  end.

(** Scan the rest of a digit run; [s] starts right after a digit. *)
Fixpoint scan_digits (base acc : N) (s : str) : option (N * str) :=
  match s with
  | [] => Some (acc, [])
  | c :: t =>
      if c =? 95 then
        match t with
        | d :: t' =>
            match digit base d with
            | Some v => scan_digits base (acc * base + v) t'
            | None => None
            end
        | [] => None
        end
      else
        match digit base c with
        | Some v => scan_digits base (acc * base + v) t
        | None => Some (acc, s)
        end
  end.

(** The digits of the run at the head of [s]; underscores are not
    counted, leading zeros are. *)
Fixpoint count_digits (base : N) (s : str) : N :=
  match s with
  | [] => 0
  | c :: t =>
      if c =? 95 then count_digits base t
      else match digit base c with
           | Some _ => N.succ (count_digits base t)
           | None => 0
           end
  end.

(** [sys.int_info.default_max_str_digits] *)
Definition max_str_digits : N := 4300.

(** Bases converted in linear time, which the limit does not concern. *)
Definition binary_base (base : N) : bool :=
  (base =? 2) || (base =? 4) || (base =? 8) || (base =? 16) || (base =? 32).

Definition skip_sign (s : str) : bool * str :=
  match s with
  | c :: t =>
      if c =? 43 then (false, t)
      else if c =? 45 then (true, t)
      else (false, s)
  | [] => (false, s)
  end.

Definition skip_prefix (base : N) (s : str) : str :=
  if base =? 16 then
    match s with
    | z :: x :: t =>
        if (z =? 48) && ((x =? 120) || (x =? 88))
        then match t with
             | u :: t' => if u =? 95 then t' else t
             | [] => t
             end
        else s
    | _ => s
    end
  else s.

(** [int(s, base)]; [None] stands for [ValueError]. *)
Definition int (s : str) (base : N) : option Z :=
  let (neg, s1) := skip_sign (lstrip_with int_space s) in
  match skip_prefix base s1 with
  | d :: t =>
      match digit base d with
      | Some v =>
          match scan_digits base v t with
          | Some (n, rest) =>
              if forallb int_space rest
              then if binary_base base
                      || (count_digits base (d :: t) <=? max_str_digits)
                   then Some (if neg then (- Z.of_N n)%Z else Z.of_N n)
                   else None
              else None
          | None => None
          end
      | None => None
      end
  | [] => None
  end.

End Str.

(** ** [bytes] operations *)

Module Bytes.

Local Open Scope Z_scope.

Definition len (b : bytes) : Z := Z.of_nat (List.length b).

Fixpoint startswith (b sub : bytes) {struct sub} : bool :=
  match sub, b with
  | [], _ => true
  | x :: sub', y :: b' => Byte.eqb x y && startswith b' sub'
  | _ :: _, [] => false
  end.

(** Lowest offset at which [sub] occurs in [b], counted from [i]. *)
Fixpoint find_nat (b sub : bytes) (i : nat) : option nat :=
  if startswith b sub then Some i
  else match b with
       | [] => None
       | _ :: t => find_nat t sub (S i)
       end.

(** A slice bound: negative indices count from the end, and the result is
    clipped to [0 .. len b]. *)
Definition clip (i : Z) (b : bytes) : nat :=
  Z.to_nat (if i <? 0 then Z.max 0 (i + len b) else Z.min i (len b)).

(** [b[i:]] *)
Definition slice_from (i : Z) (b : bytes) : bytes := skipn (clip i b) b.

(** [b[:i]] *)
Definition slice_to (i : Z) (b : bytes) : bytes := firstn (clip i b) b.

(** [b.find(sub, start)]: the lowest index [>= start] at which [sub] occurs,
    or [-1]. *)
Definition find (b sub : bytes) (start : Z) : Z :=
  let start := if start <? 0 then Z.max 0 (start + len b) else start in
  if len b <? start then -1
  else match find_nat (skipn (Z.to_nat start) b) sub (Z.to_nat start) with
       | Some i => Z.of_nat i
       | None => -1
       end.

(** [sub in b] *)
Definition contains (b sub : bytes) : bool := negb (find b sub 0 =? -1).

(** [b.split(sep, 1)]: at most one split, at the first occurrence. *)
Definition split1 (b sep : bytes) : result (list bytes) :=
  match sep with
  | [] => Raise ValueError
  | _ =>
      let i := find b sep 0 in
      if i =? -1 then Ok [b]
      else Ok [slice_to i b; slice_from (i + len sep) b]
  end.

Definition byte_of_N (n : N) : byte :=
  match Byte.of_N n with
  | Some b => b
  | None => x00
  end.

(** [bytes([v])]: [ValueError] unless [0 <= v < 256]. *)
Definition of_int (v : Z) : result bytes :=
  if (0 <=? v) && (v <? 256) then Ok [byte_of_N (Z.to_N v)]
  else Raise ValueError.

(** UTF-8 encoding of a code point below U+0800. *)
Definition utf8_cp (c : N) : bytes :=
  if (c <? 128)%N then [byte_of_N c]
  else [byte_of_N (192 + c / 64); byte_of_N (128 + c mod 64)].

(** [s.encode('utf-8')] *)
Definition encode_utf8 (s : string) : bytes :=
  flat_map utf8_cp (Str.code_points s).

End Bytes.

(** ** Rendering *)

Definition hex_digit (d : N) : ascii :=
  ascii_of_N (if (d <? 10)%N then 48 + d else 55 + d).

(** [f'{b:02X}'] *)
Definition hex2 (b : byte) : string :=
  let n := Byte.to_N b in
  String (hex_digit (n / 16)) (String (hex_digit (n mod 16)) EmptyString).

(** [' '.join(f'{b:02X}' for b in packet)] *)
Definition hex_join (packet : bytes) : string :=
  String.concat " " (map hex2 packet).

Definition format_packet_display (hex_data : string) (packet_bytes : bytes)
  : string := hex_data.

Definition newline : string := String (ascii_of_N 10) EmptyString.

(** How an f-string shows [self.last_timestamp]. *)
Definition show_timestamp (ts : option string) : string :=
  match ts with
  | Some t => t
  | None => "None"
  end.

(** [f"[{timestamp}] {source_label} {formatted_display}\n"] *)
Definition render_message (ts : option string) (label shown : string)
  : string :=
  ("[" ++ show_timestamp ts ++ "] " ++ label ++ " " ++ shown ++ newline)%string.

(** [len(message.encode('utf-8'))] *)
Definition encoded_size (message : string) : Z :=
  Bytes.len (Bytes.encode_utf8 message).

(** ** Marker resolver: [SerialReaderThread._parse_marker] *)

Definition _parse_marker (marker_str : string) : result bytes :=
  match marker_str with
  | EmptyString => Ok []
  | _ =>
      let marker_upper := Str.upper (Str.strip (Str.code_points marker_str)) in
      if Str.eqb marker_upper (Str.code_points "STX") then Ok [x02]
      else if Str.eqb marker_upper (Str.code_points "ETX") then Ok [x03]
      else if Str.startswith (Str.lower marker_upper) (Str.code_points "0x")
      then
        match Str.int marker_upper 16 with
        | Some v =>
            match Bytes.of_int v with
            | Raise ValueError => Ok (Bytes.encode_utf8 marker_str)
            | r => r
            end
        | None => Ok (Bytes.encode_utf8 marker_str)
        end
      else if Str.isdigit marker_upper then
        match Str.int marker_upper 10 with
        | Some v => Bytes.of_int v
        | None => Raise ValueError
        end
      else Ok (Bytes.encode_utf8 marker_str)
  end.

Arguments _parse_marker : simpl never.

(** ** A state-and-exception monad for the stateful methods *)

Section Monad.

Variable S : Type.

Definition M (A : Type) : Type := S -> S * result A.

Definition ret {A} (a : A) : M A := fun s => (s, Ok a).

Definition bind {A B} (m : M A) (f : A -> M B) : M B :=
  fun s =>
    match m s with
    | (s', Ok a) => f a s'
    | (s', Raise e) => (s', Raise e)
    | (s', OutOfFuel) => (s', OutOfFuel)
    end.

Definition get : M S := fun s => (s, Ok s).

Definition modify (f : S -> S) : M unit := fun s => (f s, Ok tt).

Definition raise {A} (e : exn) : M A := fun s => (s, Raise e).

Definition lift {A} (r : result A) : M A := fun s => (s, r).

Definition out_of_fuel {A} : M A := fun s => (s, OutOfFuel).

End Monad.

Arguments ret {S A} a.
Arguments bind {S A B} m f.
Arguments get {S}.
Arguments modify {S} f.
Arguments raise {S A} e.
Arguments lift {S A} r.
Arguments out_of_fuel {S A}.

Declare Scope monad_scope.
Delimit Scope monad_scope with monad.
Notation "x <- c1 ;; c2" := (bind c1 (fun x => c2))
  (at level 61, c1 at next level, right associativity) : monad_scope.
Notation "c1 ;; c2" := (bind c1 (fun _ => c2))
  (at level 61, right associativity) : monad_scope.

(** ** The per-port reader: [SerialReaderThread] *)

(** A file object.  A closed file is still referenced by [self.log_file]
    and is still truthy. *)
Record log_handle : Type := { fid : nat; closed : bool }.

(** What is written to a log file.  The clock readings inside the header
    and footer lines are not modelled. *)
Inductive log_record : Type :=
| LogBanner                                   (* "=== COM Sniffer Log ===" *)
| LogStart                                    (* start time line *)
| LogSource (label : string)
| LogPort (port : string) (baud : Z)
| LogDataBits (bits : Z)
| LogRule                                     (* "=" * 50 *)
| LogLine (message : string)                  (* one rendered packet *)
| LogFooter.                                  (* end time line *)

(** File-system operations, in the order they are performed. *)
Inductive fs_event : Type :=
| FsMakedirs (dir : string)
| FsOpen (f : nat)
| FsWrite (f : nat) (r : log_record)
| FsFlush (f : nat)
| FsClose (f : nat).

(** Constructor arguments, never reassigned.  Parity, stop bits and the
    read timeout only parameterise the transport and are left out. *)
Record config : Type := {
  port : string;
  baudrate : Z;
  bytesize : Z;
  log_dir : option string;
  source_label : string;
  buffer_enabled : bool;
  end_marker : string;
  start_marker : string;
  max_log_size : Z;
  max_buffer_size : Z
}.

Record reader : Type := {
  cfg : config;
  is_running : bool;
  log_file : option log_handle;
  log_file_size : Z;
  buffer : bytes;
  last_timestamp : option string;
  (* effects *)
  data_received : list (string * string);    (* emitted signals, oldest first *)
  fs : list fs_event;                        (* file operations, oldest first *)
  next_fid : nat                             (* files created so far *)
}.

Definition with_is_running (v : bool) (st : reader) : reader :=
  {| cfg := cfg st; is_running := v; log_file := log_file st;
     log_file_size := log_file_size st; buffer := buffer st;
     last_timestamp := last_timestamp st; data_received := data_received st;
     fs := fs st; next_fid := next_fid st |}.

Definition with_log_file (v : option log_handle) (st : reader) : reader :=
  {| cfg := cfg st; is_running := is_running st; log_file := v;
     log_file_size := log_file_size st; buffer := buffer st;
     last_timestamp := last_timestamp st; data_received := data_received st;
     fs := fs st; next_fid := next_fid st |}.

Definition with_log_file_size (v : Z) (st : reader) : reader :=
  {| cfg := cfg st; is_running := is_running st; log_file := log_file st;
     log_file_size := v; buffer := buffer st;
     last_timestamp := last_timestamp st; data_received := data_received st;
     fs := fs st; next_fid := next_fid st |}.

Definition with_buffer (v : bytes) (st : reader) : reader :=
  {| cfg := cfg st; is_running := is_running st; log_file := log_file st;
     log_file_size := log_file_size st; buffer := v;
     last_timestamp := last_timestamp st; data_received := data_received st;
     fs := fs st; next_fid := next_fid st |}.

Definition with_last_timestamp (v : option string) (st : reader) : reader :=
  {| cfg := cfg st; is_running := is_running st; log_file := log_file st;
     log_file_size := log_file_size st; buffer := buffer st;
     last_timestamp := v; data_received := data_received st;
     fs := fs st; next_fid := next_fid st |}.

(** [self.data_received.emit(label, message)] *)
Definition emit (label message : string) (st : reader) : reader :=
  {| cfg := cfg st; is_running := is_running st; log_file := log_file st;
     log_file_size := log_file_size st; buffer := buffer st;
     last_timestamp := last_timestamp st;
     data_received := data_received st ++ [(label, message)];
     fs := fs st; next_fid := next_fid st |}.

Definition fs_do (e : fs_event) (st : reader) : reader :=
  {| cfg := cfg st; is_running := is_running st; log_file := log_file st;
     log_file_size := log_file_size st; buffer := buffer st;
     last_timestamp := last_timestamp st; data_received := data_received st;
     fs := fs st ++ [e]; next_fid := next_fid st |}.

Definition with_next_fid (v : nat) (st : reader) : reader :=
  {| cfg := cfg st; is_running := is_running st; log_file := log_file st;
     log_file_size := log_file_size st; buffer := buffer st;
     last_timestamp := last_timestamp st; data_received := data_received st;
     fs := fs st; next_fid := v |}.

Definition __init__ (port : string) (baudrate bytesize : Z)
  (log_dir : option string) (source_label : string) (buffer_enabled : bool)
  (end_marker start_marker : string) : reader :=
  {| cfg := {| port := port; baudrate := baudrate; bytesize := bytesize;
               log_dir := log_dir; source_label := source_label;
               buffer_enabled := buffer_enabled; end_marker := end_marker;
               start_marker := start_marker;
               max_log_size := 20 * 1024 * 1024;
               max_buffer_size := 1024 * 1024 |};
     is_running := true; log_file := None; log_file_size := 0;
     buffer := []; last_timestamp := None;
     data_received := []; fs := []; next_fid := 0 |}.

(** Truth value of a [str] and of [bytes]. *)
Definition str_truthy (s : string) : bool :=
  match s with EmptyString => false | _ => true end.

Definition bytes_truthy (b : bytes) : bool :=
  match b with [] => false | _ => true end.

Local Open Scope monad_scope.
Local Open Scope Z_scope.

(** *** File objects: [write], [flush] and [close].
    Writing to or flushing a closed file raises [ValueError]; closing a
    closed file does nothing.  The storage itself is assumed not to fail. *)

Definition file_write (h : log_handle) (r : log_record) : M reader unit :=
  if closed h then raise ValueError
  else modify (fs_do (FsWrite (fid h) r)).

Definition file_flush (h : log_handle) : M reader unit :=
  if closed h then raise ValueError
  else modify (fs_do (FsFlush (fid h))).

Definition file_close (h : log_handle) : M reader unit :=
  if closed h then ret tt
  else modify (fun st =>
         with_log_file (Some {| fid := fid h; closed := true |})
                       (fs_do (FsClose (fid h)) st)).

(** [SerialReaderThread.open_new_log_file] *)
Definition open_new_log_file : M reader unit :=
  st <- get ;;
  match log_dir (cfg st) with
  | Some dir =>
      if negb (str_truthy dir) then ret tt
      else
        match log_file st with
        | Some h => file_write h LogFooter ;; file_close h
        | None => ret tt
        end ;;
        modify (fs_do (FsMakedirs dir)) ;;
        st <- get ;;
        let h := {| fid := next_fid st; closed := false |} in
        modify (fun st => with_log_file (Some h)
                            (with_next_fid (Datatypes.S (next_fid st))
                               (fs_do (FsOpen (fid h)) st))) ;;
        modify (with_log_file_size 0) ;;
        file_write h LogBanner ;;
        file_write h LogStart ;;
        file_write h (LogSource (source_label (cfg st))) ;;
        file_write h (LogPort (port (cfg st)) (baudrate (cfg st))) ;;
        file_write h (LogDataBits (bytesize (cfg st))) ;;
        file_write h LogRule ;;
        file_flush h
  | None => ret tt
  end.

(** [SerialReaderThread.rotate_log_file] *)
Definition rotate_log_file : M reader unit := open_new_log_file.

(** The logging block that follows every emission in [run]:
    write, flush, count the encoded bytes, rotate at the limit. *)
Definition log_message (message : string) : M reader unit :=
  st <- get ;;
  match log_file st with
  | Some h =>
      file_write h (LogLine message) ;;
      file_flush h ;;
      modify (fun st =>
        with_log_file_size (log_file_size st + encoded_size message) st) ;;
      st <- get ;;
      if log_file_size st >=? max_log_size (cfg st)
      then rotate_log_file
      else ret tt
  | None => ret tt
  end.

(** Render one packet, emit it and log it. *)
Definition publish (ts : option string) (packet : bytes) : M reader unit :=
  st <- get ;;
  let hex_data := hex_join packet in
  let formatted_display := format_packet_display hex_data packet in
  let message :=
    render_message ts (source_label (cfg st)) formatted_display in
  modify (emit (source_label (cfg st)) message) ;;
  log_message message.

(** The [while True] loop of the start/end framing mode. *)
Fixpoint start_end_loop (fuel : nat) (start_byte end_byte : bytes)
  : M reader unit :=
  match fuel with
  | O => out_of_fuel
  | Datatypes.S fuel' =>
      st <- get ;;
      let start_index := Bytes.find (buffer st) start_byte 0 in
      if start_index =? -1 then modify (with_buffer [])
      else
        (if start_index >? 0
         then modify (with_buffer (Bytes.slice_from start_index (buffer st)))
         else ret tt) ;;
        st <- get ;;
        let end_index :=
          Bytes.find (buffer st) end_byte (Bytes.len start_byte) in
        if end_index =? -1 then ret tt
        else
          let end_index := end_index + Bytes.len end_byte in
          let packet := Bytes.slice_to end_index (buffer st) in
          modify (with_buffer (Bytes.slice_from end_index (buffer st))) ;;
          publish (last_timestamp st) packet ;;
          start_end_loop fuel' start_byte end_byte
  end.

(** The [while end_byte in self.buffer] loop of the end-marker-only mode. *)
Fixpoint end_only_loop (fuel : nat) (end_byte : bytes) : M reader unit :=
  match fuel with
  | O => out_of_fuel
  | Datatypes.S fuel' =>
      st <- get ;;
      if Bytes.contains (buffer st) end_byte then
        parts <- lift (Bytes.split1 (buffer st) end_byte) ;;
        match parts with
        | [packet; rest] =>
            modify (with_buffer rest) ;;
            let packet := (packet ++ end_byte)%list in
            publish (last_timestamp st) packet ;;
            end_only_loop fuel' end_byte
        | _ => raise ValueError
        end
      else ret tt
  end.

(** The body of [if self.serial_conn.in_waiting:] in [run]: one chunk
    [data] read from the port at clock reading [timestamp]. *)
Definition ingest (data : bytes) (timestamp : string) : M reader unit :=
  modify (with_last_timestamp (Some timestamp)) ;;
  st <- get ;;
  if buffer_enabled (cfg st) && str_truthy (end_marker (cfg st)) then
    modify (with_buffer (buffer st ++ data)%list) ;;
    st <- get ;;
    (if Bytes.len (buffer st) >? max_buffer_size (cfg st)
     then modify (with_buffer
                    (Bytes.slice_from (- max_buffer_size (cfg st)) (buffer st)))
     else ret tt) ;;
    start_byte <- lift (_parse_marker (start_marker (cfg st))) ;;
    end_byte <- lift (_parse_marker (end_marker (cfg st))) ;;
    st <- get ;;
    let fuel := Datatypes.S (List.length (buffer st)) in
    if bytes_truthy start_byte
    then start_end_loop fuel start_byte end_byte
    else end_only_loop fuel end_byte
  else
    publish (Some timestamp) data.

(** One turn of the [while self.is_running] loop: [rx] is what the port
    holds ([in_waiting] is its length and [read] returns it). *)
Definition poll (rx : bytes) (timestamp : string) : M reader unit :=
  if Bytes.len rx =? 0 then ret tt else ingest rx timestamp.

(** The log part of the [finally] block of [run]. *)
Definition run_finally : M reader unit :=
  st <- get ;;
  match log_file st with
  | Some h => file_write h LogFooter ;; file_close h
  | None => ret tt
  end.

(** [SerialReaderThread.stop] (cancelling the pending read only concerns
    the transport). *)
Definition stop : M reader unit :=
  modify (with_is_running false) ;;
  st <- get ;;
  (if buffer_enabled (cfg st) && bytes_truthy (buffer st) then
     let hex_data := hex_join (buffer st) in
     let message :=
       render_message (last_timestamp st) (source_label (cfg st)) hex_data in
     modify (emit (source_label (cfg st)) message) ;;
     match log_file st with
     | Some h => file_write h (LogLine message) ;; file_flush h
     | None => ret tt
     end
   else ret tt) ;;
  st <- get ;;
  match log_file st with
  | Some h => file_close h
  | None => ret tt
  end.

(** ** The coordinator: [ComSniffer] (queues and the aggregate log) *)

Module ComSniffer.

(** Values fixed by [__init__] or read from the widgets. *)
Record settings : Type := {
  fsync_interval : Z;
  max_log_size : Z;
  max_display_lines : Z;
  max_pending_display : Z;
  max_pending_log_bytes : Z;
  log_dir : string;            (* [log_file_path] or the default directory *)
  rx1_port : string; rx1_baud : string;
  rx2_port : string; rx2_baud : string
}.

Inductive event : Type :=
| Makedirs (dir : string)
| Open (f : nat)
| WriteBanner (f : nat)
| WriteStart (f : nat)
| WriteChannel (f : nat) (label port baud : string)
| WriteRule (f : nat)
| WriteChunk (f : nat) (chunk : string)
| WriteFooter (f : nat)
| Flush (f : nat)
| Fsync (f : nat)
| Close (f : nat).

Record sniffer : Type := {
  conf : settings;
  log_file : option nat;                 (* the open aggregate log, if any *)
  log_file_size : Z;
  last_fsync_size : Z;
  pending_display : list string;         (* deque, left end first *)
  pending_log : list string;
  pending_log_bytes : Z;
  display_text : list string;            (* texts inserted, oldest first *)
  fs : list event;
  next_fid : nat
}.

Definition with_log_file (v : option nat) (st : sniffer) : sniffer :=
  {| conf := conf st; log_file := v; log_file_size := log_file_size st;
     last_fsync_size := last_fsync_size st;
     pending_display := pending_display st; pending_log := pending_log st;
     pending_log_bytes := pending_log_bytes st;
     display_text := display_text st; fs := fs st; next_fid := next_fid st |}.

Definition with_log_file_size (v : Z) (st : sniffer) : sniffer :=
  {| conf := conf st; log_file := log_file st; log_file_size := v;
     last_fsync_size := last_fsync_size st;
     pending_display := pending_display st; pending_log := pending_log st;
     pending_log_bytes := pending_log_bytes st;
     display_text := display_text st; fs := fs st; next_fid := next_fid st |}.

Definition with_last_fsync_size (v : Z) (st : sniffer) : sniffer :=
  {| conf := conf st; log_file := log_file st;
     log_file_size := log_file_size st; last_fsync_size := v;
     pending_display := pending_display st; pending_log := pending_log st;
     pending_log_bytes := pending_log_bytes st;
     display_text := display_text st; fs := fs st; next_fid := next_fid st |}.

Definition with_pending_display (v : list string) (st : sniffer) : sniffer :=
  {| conf := conf st; log_file := log_file st;
     log_file_size := log_file_size st;
     last_fsync_size := last_fsync_size st;
     pending_display := v; pending_log := pending_log st;
     pending_log_bytes := pending_log_bytes st;
     display_text := display_text st; fs := fs st; next_fid := next_fid st |}.

Definition with_pending_log (v : list string) (st : sniffer) : sniffer :=
  {| conf := conf st; log_file := log_file st;
     log_file_size := log_file_size st;
     last_fsync_size := last_fsync_size st;
     pending_display := pending_display st; pending_log := v;
     pending_log_bytes := pending_log_bytes st;
     display_text := display_text st; fs := fs st; next_fid := next_fid st |}.

Definition with_pending_log_bytes (v : Z) (st : sniffer) : sniffer :=
  {| conf := conf st; log_file := log_file st;
     log_file_size := log_file_size st;
     last_fsync_size := last_fsync_size st;
     pending_display := pending_display st; pending_log := pending_log st;
     pending_log_bytes := v;
     display_text := display_text st; fs := fs st; next_fid := next_fid st |}.

(** [display_text.insertPlainText(chunk)] at the end of the document. *)
Definition insert_text (chunk : string) (st : sniffer) : sniffer :=
  {| conf := conf st; log_file := log_file st;
     log_file_size := log_file_size st;
     last_fsync_size := last_fsync_size st;
     pending_display := pending_display st; pending_log := pending_log st;
     pending_log_bytes := pending_log_bytes st;
     display_text := display_text st ++ [chunk];
     fs := fs st; next_fid := next_fid st |}.

Definition fs_do (e : event) (st : sniffer) : sniffer :=
  {| conf := conf st; log_file := log_file st;
     log_file_size := log_file_size st;
     last_fsync_size := last_fsync_size st;
     pending_display := pending_display st; pending_log := pending_log st;
     pending_log_bytes := pending_log_bytes st;
     display_text := display_text st; fs := fs st ++ [e];
     next_fid := next_fid st |}.

Definition with_next_fid (v : nat) (st : sniffer) : sniffer :=
  {| conf := conf st; log_file := log_file st;
     log_file_size := log_file_size st;
     last_fsync_size := last_fsync_size st;
     pending_display := pending_display st; pending_log := pending_log st;
     pending_log_bytes := pending_log_bytes st;
     display_text := display_text st; fs := fs st; next_fid := v |}.

(** The part of [ComSniffer.__init__] that concerns the queues and the
    aggregate log. *)
Definition __init__ (log_dir rx1_port rx1_baud rx2_port rx2_baud : string)
  : sniffer :=
  {| conf := {| fsync_interval := 8 * 1024;
                max_log_size := 20 * 1024 * 1024;
                max_display_lines := 5000;
                max_pending_display := 20000;
                max_pending_log_bytes := 5 * 1024 * 1024;
                log_dir := log_dir;
                rx1_port := rx1_port; rx1_baud := rx1_baud;
                rx2_port := rx2_port; rx2_baud := rx2_baud |};
     log_file := None; log_file_size := 0; last_fsync_size := 0;
     pending_display := []; pending_log := []; pending_log_bytes := 0;
     display_text := []; fs := []; next_fid := 0 |}.

Definition qlen (q : list string) : Z := Z.of_nat (List.length q).

(** [ComSniffer.open_new_log_file] *)
Definition open_new_log_file (dir : string) : M sniffer unit :=
  st <- get ;;
  match log_file st with
  | Some f => modify (fs_do (WriteFooter f)) ;; modify (fs_do (Close f))
  | None => ret tt
  end ;;
  modify (fs_do (Makedirs dir)) ;;
  st <- get ;;
  let f := next_fid st in
  modify (fun st => with_log_file (Some f)
                      (with_next_fid (Datatypes.S f) (fs_do (Open f) st))) ;;
  modify (with_log_file_size 0) ;;
  modify (fs_do (WriteBanner f)) ;;
  modify (fs_do (WriteStart f)) ;;
  modify (fs_do (WriteChannel f "RX1" (rx1_port (conf st))
                   (rx1_baud (conf st)))) ;;
  modify (fs_do (WriteChannel f "RX2" (rx2_port (conf st))
                   (rx2_baud (conf st)))) ;;
  modify (fs_do (WriteRule f)) ;;
  modify (fs_do (Flush f)).

(** [ComSniffer.flush_pending] *)
Definition flush_pending : M sniffer unit :=
  st <- get ;;
  match pending_display st with
  | [] => ret tt
  | _ =>
      let chunk := String.concat EmptyString (pending_display st) in
      modify (with_pending_display []) ;;
      modify (insert_text chunk)
  end ;;
  st <- get ;;
  match log_file st, pending_log st with
  | Some f, _ :: _ =>
      let log_chunk := String.concat EmptyString (pending_log st) in
      modify (with_pending_log []) ;;
      modify (fs_do (WriteChunk f log_chunk)) ;;
      modify (fs_do (Flush f)) ;;
      modify (fun st =>
        with_log_file_size (log_file_size st + pending_log_bytes st) st) ;;
      modify (with_pending_log_bytes 0) ;;
      st <- get ;;
      (if log_file_size st - last_fsync_size st >=? fsync_interval (conf st)
       then modify (fs_do (Fsync f)) ;;
            modify (with_last_fsync_size (log_file_size st))
       else ret tt) ;;
      st <- get ;;
      if log_file_size st >=? max_log_size (conf st)
      then open_new_log_file (log_dir (conf st))
      else ret tt
  | _, _ => ret tt
  end.

(** [deque.popleft()] on the display queue. *)
Definition popleft : M sniffer unit :=
  st <- get ;;
  match pending_display st with
  | [] => raise IndexError
  | _ :: rest => modify (with_pending_display rest)
  end.

(** [while len(self.pending_display) > self.max_pending_display: popleft()] *)
Fixpoint drop_oldest (fuel : nat) : M sniffer unit :=
  match fuel with
  | O => out_of_fuel
  | Datatypes.S fuel' =>
      st <- get ;;
      if qlen (pending_display st) >? max_pending_display (conf st)
      then popleft ;; drop_oldest fuel'
      else ret tt
  end.

(** The aggregate-log part of [on_data_received] (its [if self.log_file]
    block). *)
Definition enqueue_log (data : string) : M sniffer unit :=
  st <- get ;;
  match log_file st with
  | Some _ =>
      modify (fun st => with_pending_log (pending_log st ++ [data]) st) ;;
      modify (fun st =>
        with_pending_log_bytes (pending_log_bytes st + encoded_size data) st) ;;
      st <- get ;;
      if pending_log_bytes st >? max_pending_log_bytes (conf st)
      then modify (with_pending_log []) ;; modify (with_pending_log_bytes 0)
      else ret tt
  | None => ret tt
  end.

(** [ComSniffer.on_data_received] *)
Definition on_data_received (label data : string) : M sniffer unit :=
  modify (fun st => with_pending_display (pending_display st ++ [data]) st) ;;
  st <- get ;;
  (if qlen (pending_display st) >? max_pending_display (conf st)
   then drop_oldest (Datatypes.S (List.length (pending_display st)))
   else ret tt) ;;
  enqueue_log data ;;
  st <- get ;;
  if qlen (pending_display st) >=? 1000 then flush_pending else ret tt.

End ComSniffer.

(** ** Specification-level notions

    The definitions of this section follow the wording of the design
    document, not the code; the theorems below relate the two. *)

Module Spec.

(** [sub] occurs in [b] at offset [i]. *)
Definition occurs_at (sub b : bytes) (i : nat) : Prop :=
  exists pre post, b = (pre ++ sub ++ post)%list /\ List.length pre = i.

(** [i] is the first offset, not below [k], at which [sub] occurs in [b]. *)
Definition first_from (sub b : bytes) (k i : nat) : Prop :=
  (k <= i)%nat /\ occurs_at sub b i /\
  forall j, (k <= j)%nat -> (j < i)%nat -> ~ occurs_at sub b j.

(** [sub] does not occur in [b] at any offset from [k] on. *)
Definition absent_from (sub b : bytes) (k : nat) : Prop :=
  forall j, (k <= j)%nat -> ~ occurs_at sub b j.

(** [r] is what remains of [s] once its oldest bytes are dropped. *)
Definition is_suffix (r s : bytes) : Prop :=
  exists dropped, s = (dropped ++ r)%list.

(** The most recent [n] bytes of [b]. *)
Definition keep_last (n : nat) (b : bytes) : bytes :=
  skipn (List.length b - n) b.

(** Start/end framing, section 4.2: locate the start marker; if absent,
    discard everything and stop; otherwise drop what precedes it and search
    the end marker after the start marker's bytes; if absent, stop and keep
    the buffer; otherwise the bytes from the start marker through the end of
    the end marker are one packet, and the loop goes on with the rest. *)
Inductive start_end_frames (sm em : bytes)
  : bytes -> list bytes -> bytes -> Prop :=
| se_discard b :
    absent_from sm b 0 ->
    start_end_frames sm em b [] []
| se_wait b i :
    first_from sm b 0 i ->
    absent_from em (skipn i b) (List.length sm) ->
    start_end_frames sm em b [] (skipn i b)
| se_frame b i j packets rest :
    first_from sm b 0 i ->
    first_from em (skipn i b) (List.length sm) j ->
    start_end_frames sm em
      (skipn (j + List.length em) (skipn i b)) packets rest ->
    start_end_frames sm em b
      (firstn (j + List.length em) (skipn i b) :: packets) rest.

(** End-marker-only framing, section 4.2: each time the end marker is
    found, everything up to and including it is one packet and scanning
    goes on with the remainder. *)
Inductive end_only_frames (em : bytes)
  : bytes -> list bytes -> bytes -> Prop :=
| eo_wait b :
    absent_from em b 0 ->
    end_only_frames em b [] b
| eo_frame b i packets rest :
    first_from em b 0 i ->
    end_only_frames em (skipn (i + List.length em) b) packets rest ->
    end_only_frames em b (firstn (i + List.length em) b :: packets) rest.

(** Rotations caused by writing the lines [msgs] to a file that already
    holds [size] bytes of packet lines: the running total is compared with
    the limit after each write and starts again from zero in a new file. *)
Fixpoint rotations (limit size : Z) (msgs : list string) : nat :=
  match msgs with
  | [] => 0
  | m :: rest =>
      if (size + encoded_size m >=? limit)%Z
      then Datatypes.S (rotations limit 0 rest)
      else rotations limit (size + encoded_size m)%Z rest
  end.

(** The value a text of ASCII decimal digits denotes. *)
Fixpoint decimal_digits (acc : N) (s : Str.str) : option N :=
  match s with
  | [] => Some acc
  | c :: t =>
      if Str.between 48 c 57 then decimal_digits (acc * 10 + (c - 48)) t
      else None
  end.

Definition decimal_value (s : Str.str) : option Z :=
  match s with
  | [] => None
  | _ => option_map Z.of_N (decimal_digits 0 s)
  end.

End Spec.

(** ** Notions used to state the properties *)

(** The log file, if there is one, has not been closed. *)
Definition log_ok (st : reader) : Prop :=
  match log_file st with
  | Some h => closed h = false
  | None => True
  end.

(** The signals emitted for [packets], all stamped [ts]. *)
Definition messages (c : config) (ts : option string) (packets : list bytes)
  : list (string * string) :=
  map (fun p => (source_label c,
                 render_message ts (source_label c) (hex_join p))) packets.

(** An operation that leaves the configuration, the buffer and the time
    stamp alone and does not run out of fuel. *)
Definition framed (st : reader) (out : reader * result unit) : Prop :=
  cfg (fst out) = cfg st /\ buffer (fst out) = buffer st /\
  last_timestamp (fst out) = last_timestamp st /\
  snd out <> OutOfFuel.

(** The buffer once a chunk is appended and the size cap applied
    (lines 201-204 of [run]). *)
Definition cap_buffer (limit : Z) (b : bytes) : bytes :=
  if (Bytes.len b >? limit)%Z then Bytes.slice_from (- limit)%Z b else b.

(** The reader is in a buffering mode. *)
Definition buffering (c : config) : Prop :=
  buffer_enabled c = true /\ end_marker c <> EmptyString.

(** Successive chunks handed to [ingest]; an exception ends the loop. *)
Fixpoint feed (chunks : list (bytes * string)) : M reader unit :=
  match chunks with
  | [] => ret tt
  | (data, timestamp) :: rest => (ingest data timestamp ;; feed rest)%monad
  end.

(** Successive lines handed to the logging block. *)
Fixpoint log_all (msgs : list string) : M reader unit :=
  match msgs with
  | [] => ret tt
  | m :: rest => (log_message m ;; log_all rest)%monad
  end.

(** The operations of one rotation: the footer closes file [f] before the
    header opens file [g]. *)
Definition rotation_events (c : config) (dir : string) (f g : nat)
  : list fs_event :=
  [FsWrite f LogFooter; FsClose f;
   FsMakedirs dir; FsOpen g;
   FsWrite g LogBanner; FsWrite g LogStart;
   FsWrite g (LogSource (source_label c));
   FsWrite g (LogPort (port c) (baudrate c));
   FsWrite g (LogDataBits (bytesize c)); FsWrite g LogRule; FsFlush g].

(** The file operations the design prescribes for the lines [msgs]: each
    line is written and flushed to the current file [f]; when the running
    total reaches the limit the file is rotated into a fresh file [g]. *)
Fixpoint sink_events (c : config) (dir : string) (size : Z) (f g : nat)
  (msgs : list string) : list fs_event :=
  match msgs with
  | [] => []
  | m :: rest =>
      [FsWrite f (LogLine m); FsFlush f] ++
      if (size + encoded_size m >=? max_log_size c)%Z
      then rotation_events c dir f g ++ sink_events c dir 0 g (S g) rest
      else sink_events c dir (size + encoded_size m) f g rest
  end.

(** The precondition of section 4.1 as worded there: a text made solely of
    decimal digits denotes a byte value. *)
Definition decimal_in_range (text : string) : Prop :=
  forall v, Spec.decimal_value (Str.code_points text) = Some v ->
            (0 <= v <= 255)%Z.

(** The precondition as the resolver needs it: whenever the text, trimmed
    and upper-cased, passes [isdigit], it is made of ASCII decimal digits,
    no more of them than [int] accepts, and denotes a byte value. *)
Definition digits_resolvable (text : string) : Prop :=
  let marker_upper := Str.upper (Str.strip (Str.code_points text)) in
  Str.isdigit marker_upper = true ->
  (N.of_nat (List.length marker_upper) <= Str.max_str_digits)%N /\
  exists v, Spec.decimal_value marker_upper = Some v /\ (0 <= v <= 255)%Z.

(** A buffer in which the framing loops find nothing to do: in start/end
    mode it is empty, or begins with the start marker and holds no end
    marker after it; in end-marker-only mode it holds no end marker. *)
Definition settled (sm em b : bytes) : Prop :=
  if bytes_truthy sm
  then b = [] \/
       (Bytes.find b sm 0 = 0 /\ Bytes.find b em (Bytes.len sm) = -1)%Z
  else Bytes.contains b em = false.

(** Successive lines handed to the coordinator. *)
Fixpoint enqueue_all (items : list (string * string))
  : M ComSniffer.sniffer unit :=
  match items with
  | [] => ret tt
  | (label, data) :: rest =>
      (ComSniffer.on_data_received label data ;; enqueue_all rest)%monad
  end.

(** The newest [n] entries of a queue. *)
Definition newest (n : nat) (q : list string) : list string :=
  skipn (List.length q - n) q.

(** ** Sample readers *)

(** Start/end framing with markers 0x02 and 0x03, no log file. *)
Definition example_reader : reader :=
  __init__ "COM1" 9600 8 None "RX1" true "0x03" "0x02".

(** End-marker-only framing with end marker ETX, no log file. *)
Definition example_end_only : reader :=
  __init__ "COM1" 9600 8 None "RX1" true "ETX" EmptyString.

(** A reader that logs to a directory, has opened its log file and holds
    the unterminated bytes 02 41. *)
Definition logging_reader : reader :=
  fst (ingest [x02; x41] "12:00:00.000"
         (fst (open_new_log_file
                 (__init__ "COM1" 9600 8 (Some "logs"%string) "RX1" true
                    "0x03" "0x02")))).

(** A reader whose open log file already holds one byte less than the
    limit. *)
Definition nearly_full_reader : reader :=
  with_log_file_size (20 * 1024 * 1024 - 1)
    (fst (open_new_log_file
            (__init__ "COM1" 9600 8 (Some "logs"%string) "RX1" false EmptyString EmptyString))).

(** The text made of [n] zeros followed by the digit 7. *)
Definition zeros_then_seven (n : nat) : string :=
  string_of_list_ascii (repeat "0"%char n ++ ["7"%char]).

(** ** Further code of the file *)

(** [calculate_lrc]: the bytes are folded with XOR and the result is
    negated modulo 256. *)
Definition calculate_lrc (data : bytes) : Z :=
  let lrc :=
    fold_left (fun lrc byte => Z.lxor lrc (Z.of_N (Byte.to_N byte))) data 0%Z
  in
  Z.land (Z.lxor lrc 255 + 1) 255.

(** The reader [start_monitoring] builds for an enabled port (lines
    743-760): no log directory is passed, and the marker texts are only
    taken from the widgets when buffering is checked. *)
Definition monitored_reader (label port : string) (baudrate databits : Z)
  (buffer_checked : bool) (marker_text start_marker_text : string) : reader :=
  let buffer_enabled := buffer_checked in
  let end_marker := if buffer_enabled then marker_text else EmptyString in
  let start_marker :=
    if buffer_enabled then start_marker_text else EmptyString in
  __init__ port baudrate databits None label buffer_enabled
           end_marker start_marker.

(** ** Further notions used to state properties *)

(** The XOR of all the bytes. *)
Definition xor_all (data : bytes) : Z :=
  fold_left (fun acc b => Z.lxor acc (Z.of_N (Byte.to_N b))) data 0%Z.

(** The packet lines written, in order, by a sequence of file operations. *)
Fixpoint packet_lines (trace : list fs_event) : list string :=
  match trace with
  | [] => []
  | FsWrite _ (LogLine m) :: rest => m :: packet_lines rest
  | _ :: rest => packet_lines rest
  end.

(** The number of encoded bytes of a list of lines. *)
Fixpoint total_size (lines : list string) : Z :=
  match lines with
  | [] => 0
  | l :: rest => encoded_size l + total_size rest
  end.

(** The text handed to the display so far, that is the arguments of
    [insertPlainText] in order, followed by the lines still waiting in the
    display queue.  The document of the widget keeps only its last
    [max_display_lines] blocks ([setMaximumBlockCount], line 459), so what
    stays visible is less; that is the widget's doing and is not
    modelled. *)
Definition handed_to_display (st : ComSniffer.sniffer) : string :=
  (String.concat EmptyString (ComSniffer.display_text st)
   ++ String.concat EmptyString (ComSniffer.pending_display st))%string.

(** The aggregate-log queue and its byte counter agree, within the limit. *)
Definition log_queue_ok (st : ComSniffer.sniffer) : Prop :=
  ComSniffer.pending_log_bytes st = total_size (ComSniffer.pending_log st) /\
  ComSniffer.pending_log_bytes st
    <= ComSniffer.max_pending_log_bytes (ComSniffer.conf st).

Ltac run_monad :=
  unfold bind, get, modify, ret, lift, raise, out_of_fuel; simpl.

(** * Properties *)

(** ** Facts about [bytes] *)

Section BytesFacts.

Import Spec.
Local Open Scope nat_scope.

Lemma startswith_iff (b sub : bytes) :
  Bytes.startswith b sub = true <-> exists post, b = (sub ++ post)%list.
Proof.
  revert b. induction sub as [|x sub IH]; intros b; simpl.
  - split; [intros _; now exists b | reflexivity].
  - destruct b as [|y b].
    + split; [discriminate | intros [post H]; discriminate].
    + rewrite andb_true_iff, IH. split.
      * intros [E [post ->]]. apply Byte.byte_dec_bl in E. subst.
        now exists post.
      * intros [post H]. injection H as -> ->. split.
        -- now apply Byte.byte_dec_lb.
        -- now exists post.
Qed.

Lemma occurs_at_0 (sub b : bytes) :
  occurs_at sub b 0 <-> Bytes.startswith b sub = true.
Proof.
  rewrite startswith_iff. split.
  - intros (pre & post & -> & H). destruct pre; [|discriminate].
    now exists post.
  - intros [post ->]. now exists [], post.
Qed.

Lemma occurs_at_cons (sub : bytes) (x : byte) (b : bytes) (j : nat) :
  occurs_at sub (x :: b) (S j) <-> occurs_at sub b j.
Proof.
  split.
  - intros (pre & post & E & H). destruct pre as [|y pre]; [discriminate|].
    simpl in E, H. injection E as -> ->. injection H as <-.
    now exists pre, post.
  - intros (pre & post & -> & <-). now exists (x :: pre), post.
Qed.

Lemma occurs_at_bound (sub b : bytes) (i : nat) :
  occurs_at sub b i -> i + List.length sub <= List.length b.
Proof.
  intros (pre & post & -> & <-). rewrite !length_app. lia.
Qed.

Lemma occurs_at_skipn (sub b : bytes) (k j : nat) :
  k <= List.length b ->
  (occurs_at sub (skipn k b) j <-> occurs_at sub b (k + j)).
Proof.
  revert b. induction k as [|k IH]; intros b Hk; simpl.
  - reflexivity.
  - destruct b as [|x b]; [simpl in Hk; lia|].
    simpl in Hk. rewrite occurs_at_cons. apply IH. lia.
Qed.

Lemma find_nat_some (b sub : bytes) (i k : nat) :
  Bytes.find_nat b sub i = Some k ->
  i <= k /\ occurs_at sub b (k - i) /\
  forall j, j < k - i -> ~ occurs_at sub b j.
Proof.
  revert i. induction b as [|x b IH]; intros i; simpl.
  - destruct (Bytes.startswith [] sub) eqn:E; [|discriminate].
    intros [= <-]. rewrite Nat.sub_diag. repeat split; try lia.
    now apply occurs_at_0.
  - destruct (Bytes.startswith (x :: b) sub) eqn:E.
    + intros [= <-]. rewrite Nat.sub_diag. repeat split; try lia.
      now apply occurs_at_0.
    + intros H. apply IH in H. destruct H as (Hle & Hocc & Hmin).
      replace (k - i) with (S (k - S i)) by lia.
      repeat split; try lia.
      * now apply occurs_at_cons.
      * intros [|j] Hj Hc.
        -- apply occurs_at_0 in Hc. congruence.
        -- apply occurs_at_cons in Hc. apply (Hmin j); [lia|assumption].
Qed.

Lemma find_nat_none (b sub : bytes) (i : nat) :
  Bytes.find_nat b sub i = None -> forall j, ~ occurs_at sub b j.
Proof.
  revert i. induction b as [|x b IH]; intros i; simpl.
  - destruct (Bytes.startswith [] sub) eqn:E; [discriminate|].
    intros _ j Hc. pose proof (occurs_at_bound _ _ _ Hc) as Hb. simpl in Hb.
    assert (j = 0) by lia. subst. apply occurs_at_0 in Hc. congruence.
  - destruct (Bytes.startswith (x :: b) sub) eqn:E; [discriminate|].
    intros H [|j] Hc.
    + apply occurs_at_0 in Hc. congruence.
    + apply occurs_at_cons in Hc. exact (IH _ H j Hc).
Qed.

(** [find] from a non-negative start, in terms of occurrences. *)
Lemma find_cases (b sub : bytes) (k : nat) :
  (Bytes.find b sub (Z.of_nat k) = (-1)%Z /\ absent_from sub b k) \/
  (exists i, Bytes.find b sub (Z.of_nat k) = Z.of_nat i /\
             first_from sub b k i).
Proof.
  unfold Bytes.find.
  destruct (Z.ltb_spec (Z.of_nat k) 0) as [Hneg|_]; [lia|].
  unfold Bytes.len.
  destruct (Z.ltb_spec (Z.of_nat (List.length b)) (Z.of_nat k)) as [Hlt|Hle].
  - left. split; [reflexivity|]. intros j Hj Hc.
    apply occurs_at_bound in Hc. lia.
  - rewrite Nat2Z.id.
    assert (Hk : k <= List.length b) by lia.
    destruct (Bytes.find_nat (skipn k b) sub k) as [i|] eqn:E.
    + right. exists i. split; [reflexivity|].
      apply find_nat_some in E. destruct E as (Hki & Hocc & Hmin).
      repeat split; [assumption| |].
      * apply (proj1 (occurs_at_skipn sub b k (i - k) Hk)) in Hocc.
        now replace (k + (i - k)) with i in Hocc by lia.
      * intros j Hkj Hji Hc.
        apply (Hmin (j - k)); [lia|].
        apply (occurs_at_skipn sub b k (j - k) Hk).
        now replace (k + (j - k)) with j by lia.
    + left. split; [reflexivity|]. intros j Hj Hc.
      apply (find_nat_none _ _ _ E (j - k)).
      apply (occurs_at_skipn sub b k (j - k) Hk).
      now replace (k + (j - k)) with j by lia.
Qed.

Lemma first_from_unique (sub b : bytes) (k i j : nat) :
  first_from sub b k i -> first_from sub b k j -> i = j.
Proof.
  intros (Hki & Hoi & Hmi) (Hkj & Hoj & Hmj).
  destruct (Nat.lt_trichotomy i j) as [H|[H|H]]; [|assumption|].
  - exfalso. exact (Hmj i Hki H Hoi).
  - exfalso. exact (Hmi j Hkj H Hoj).
Qed.

Lemma first_from_not_absent (sub b : bytes) (k i : nat) :
  first_from sub b k i -> absent_from sub b k -> False.
Proof. intros (Hki & Hoi & _) Habs. exact (Habs i Hki Hoi). Qed.

(** The frames of a buffer are determined by the buffer. *)
Lemma start_end_frames_functional (sm em b : bytes)
  (packets packets' : list bytes) (rest rest' : bytes) :
  start_end_frames sm em b packets rest ->
  start_end_frames sm em b packets' rest' ->
  packets = packets' /\ rest = rest'.
Proof.
  intros H. revert packets' rest'.
  induction H as [b Habs|b i Hi Habs|b i j ps r Hi Hj H IH];
    intros packets' rest' H'; inversion H'; subst;
    repeat match goal with
           | H1 : first_from ?s ?c ?k ?x, H2 : first_from ?s ?c ?k ?y |- _ =>
               assert (x = y) by exact (first_from_unique _ _ _ _ _ H1 H2);
               subst y; clear H2
           end;
    try match goal with
        | H1 : first_from ?s ?c ?k ?x, H2 : absent_from ?s ?c ?k |- _ =>
            exfalso; exact (first_from_not_absent _ _ _ _ H1 H2)
        end;
    auto.
  match goal with
  | H1 : start_end_frames sm em _ ?p ?q |- _ =>
      destruct (IH _ _ H1); subst
  end.
  auto.
Qed.

Lemma end_only_frames_functional (em b : bytes)
  (packets packets' : list bytes) (rest rest' : bytes) :
  end_only_frames em b packets rest ->
  end_only_frames em b packets' rest' ->
  packets = packets' /\ rest = rest'.
Proof.
  intros H. revert packets' rest'.
  induction H as [b Habs|b i ps r Hi H IH];
    intros packets' rest' H'; inversion H'; subst;
    repeat match goal with
           | H1 : first_from ?s ?c ?k ?x, H2 : first_from ?s ?c ?k ?y |- _ =>
               assert (x = y) by exact (first_from_unique _ _ _ _ _ H1 H2);
               subst y; clear H2
           end;
    try match goal with
        | H1 : first_from ?s ?c ?k ?x, H2 : absent_from ?s ?c ?k |- _ =>
            exfalso; exact (first_from_not_absent _ _ _ _ H1 H2)
        end;
    auto.
  match goal with
  | H1 : end_only_frames em _ ?p ?q |- _ =>
      destruct (IH _ _ H1); subst
  end.
  auto.
Qed.

End BytesFacts.

Section SliceFacts.

Import Spec.
Local Open Scope Z_scope.

Lemma slice_from_nat (n : nat) (b : bytes) :
  Bytes.slice_from (Z.of_nat n) b = skipn n b.
Proof.
  unfold Bytes.slice_from, Bytes.clip, Bytes.len.
  destruct (Z.ltb_spec (Z.of_nat n) 0); [lia|].
  destruct (Nat.le_gt_cases n (List.length b)) as [Hle|Hgt].
  - f_equal; lia.
  - rewrite (skipn_all2 (n := n)) by lia.
    apply skipn_all2; lia.
Qed.

Lemma slice_to_nat (n : nat) (b : bytes) :
  Bytes.slice_to (Z.of_nat n) b = firstn n b.
Proof.
  unfold Bytes.slice_to, Bytes.clip, Bytes.len.
  destruct (Z.ltb_spec (Z.of_nat n) 0); [lia|].
  destruct (Nat.le_gt_cases n (List.length b)) as [Hle|Hgt].
  - f_equal; lia.
  - rewrite (firstn_all2 (n := n)) by lia.
    apply firstn_all2; lia.
Qed.

(** [b[-m:]] for a positive [m] keeps the most recent [m] bytes. *)
Lemma slice_from_neg (m : Z) (b : bytes) :
  0 < m ->
  Bytes.slice_from (- m) b = keep_last (Z.to_nat m) b.
Proof.
  intros Hm. unfold Bytes.slice_from, Bytes.clip, Bytes.len, keep_last.
  destruct (Z.ltb_spec (- m) 0); [|lia].
  f_equal. lia.
Qed.

Lemma keep_last_suffix (n : nat) (b : bytes) : is_suffix (keep_last n b) b.
Proof.
  exists (firstn (List.length b - n) b). unfold keep_last.
  now rewrite firstn_skipn.
Qed.

Lemma keep_last_length (n : nat) (b : bytes) :
  List.length (keep_last n b) = Nat.min n (List.length b).
Proof. unfold keep_last. rewrite length_skipn. lia. Qed.

Lemma is_suffix_refl (b : bytes) : is_suffix b b.
Proof. now exists []. Qed.

Lemma is_suffix_trans (a b c : bytes) :
  is_suffix a b -> is_suffix b c -> is_suffix a c.
Proof.
  intros [d1 ->] [d2 ->]. exists (d2 ++ d1)%list. now rewrite app_assoc.
Qed.

Lemma is_suffix_skipn (n : nat) (b : bytes) : is_suffix (skipn n b) b.
Proof. exists (firstn n b). now rewrite firstn_skipn. Qed.

Lemma is_suffix_nil (b : bytes) : is_suffix [] b.
Proof. exists b. now rewrite app_nil_r. Qed.

Lemma is_suffix_length (a b : bytes) :
  is_suffix a b -> (List.length a <= List.length b)%nat.
Proof. intros [d ->]. rewrite length_app. lia. Qed.

End SliceFacts.

(** ** Facts about the reader *)

Section ReaderFacts.

Import Spec.
Local Open Scope Z_scope.

Lemma open_new_log_file_ok (st : reader) :
  log_ok st ->
  exists st', open_new_log_file st = (st', Ok tt) /\ log_ok st' /\
    cfg st' = cfg st /\ buffer st' = buffer st /\
    last_timestamp st' = last_timestamp st /\
    data_received st' = data_received st.
Proof.
  unfold log_ok, open_new_log_file. intros Hok. run_monad.
  destruct (log_dir (cfg st)) as [dir|].
  - destruct (str_truthy dir); simpl.
    + destruct (log_file st) as [[f c]|]; simpl in *.
      * subst c. unfold file_write, file_flush, file_close. run_monad.
        eexists. split; [reflexivity|]. simpl. repeat split; auto.
      * unfold file_write, file_flush, file_close. run_monad.
        eexists. split; [reflexivity|]. simpl. repeat split; auto.
    + eexists. split; [reflexivity|]. repeat split; auto.
  - eexists. split; [reflexivity|]. repeat split; auto.
Qed.

Lemma log_message_ok (message : string) (st : reader) :
  log_ok st ->
  exists st', log_message message st = (st', Ok tt) /\ log_ok st' /\
    cfg st' = cfg st /\ buffer st' = buffer st /\
    last_timestamp st' = last_timestamp st /\
    data_received st' = data_received st.
Proof.
  intros Hok. unfold log_message. run_monad.
  unfold log_ok in Hok.
  destruct (log_file st) as [[f c]|] eqn:Hlf; simpl in *.
  - subst c. unfold file_write, file_flush. run_monad.
    match goal with
    | |- context [if ?c then _ else _] => destruct c
    end.
    + match goal with
      | |- context [rotate_log_file ?s] =>
          destruct (open_new_log_file_ok s) as (st' & E & H1 & H2 & H3 & H4 & H5)
      end.
      { unfold log_ok. simpl. now rewrite Hlf. }
      unfold rotate_log_file. rewrite E. exists st'. simpl in *. repeat split; auto.
    + eexists. split; [reflexivity|]. unfold log_ok. simpl.
      rewrite Hlf. repeat split; auto.
  - eexists. split; [reflexivity|]. unfold log_ok. rewrite Hlf. repeat split; auto.
Qed.

Lemma publish_ok (ts : option string) (packet : bytes) (st : reader) :
  log_ok st ->
  exists st', publish ts packet st = (st', Ok tt) /\ log_ok st' /\
    cfg st' = cfg st /\ buffer st' = buffer st /\
    last_timestamp st' = last_timestamp st /\
    data_received st' = (data_received st ++ messages (cfg st) ts [packet])%list.
Proof.
  intros Hok. unfold publish. run_monad.
  match goal with
  | |- context [log_message ?m ?s] =>
      destruct (log_message_ok m s) as (st' & E & H1 & H2 & H3 & H4 & H5)
  end.
  { exact Hok. }
  rewrite E. exists st'. simpl in *. repeat split; auto.
Qed.

Lemma open_new_log_file_frame (st : reader) :
  framed st (open_new_log_file st).
Proof.
  unfold framed, open_new_log_file, file_write, file_flush, file_close.
  run_monad.
  destruct (log_dir (cfg st)) as [dir|]; simpl;
    [|repeat split; auto; discriminate].
  destruct (str_truthy dir); simpl; [|repeat split; auto; discriminate].
  destruct (log_file st) as [[f [|]]|]; simpl;
    repeat split; auto; discriminate.
Qed.

Lemma log_message_frame (message : string) (st : reader) :
  framed st (log_message message st).
Proof.
  unfold log_message, file_write, file_flush. run_monad.
  destruct (log_file st) as [[f [|]]|]; simpl;
    try (red; simpl; repeat split; auto; discriminate).
  match goal with
  | |- context [if ?c then _ else _] => destruct c
  end; [|red; simpl; repeat split; auto; discriminate].
  match goal with
  | |- context [rotate_log_file ?s] =>
      destruct (open_new_log_file_frame s) as (H1 & H2 & H3 & H4)
  end.
  unfold rotate_log_file. red. simpl in *. auto.
Qed.

Lemma publish_frame (ts : option string) (packet : bytes) (st : reader) :
  framed st (publish ts packet st).
Proof.
  unfold publish. run_monad.
  match goal with
  | |- context [log_message ?m ?s] =>
      destruct (log_message_frame m s) as (H1 & H2 & H3 & H4)
  end.
  red. simpl in *. auto.
Qed.

Lemma start_end_loop_S (fuel : nat) (sm em : bytes) (st : reader) :
  start_end_loop (S fuel) sm em st =
  let start_index := Bytes.find (buffer st) sm 0 in
  if start_index =? -1 then (with_buffer [] st, Ok tt)
  else
    let st1 := if start_index >? 0
               then with_buffer (Bytes.slice_from start_index (buffer st)) st
               else st in
    let end_index := Bytes.find (buffer st1) em (Bytes.len sm) in
    if end_index =? -1 then (st1, Ok tt)
    else
      let e := end_index + Bytes.len em in
      bind (publish (last_timestamp st1) (Bytes.slice_to e (buffer st1)))
           (fun _ => start_end_loop fuel sm em)
           (with_buffer (Bytes.slice_from e (buffer st1)) st1).
Proof.
  simpl. run_monad.
  destruct (Bytes.find (buffer st) sm 0 =? -1); [reflexivity|].
  destruct (Bytes.find (buffer st) sm 0 >? 0); simpl;
    match goal with
    | |- context [if ?c then _ else _] => destruct c
    end; reflexivity.
Qed.

Lemma end_only_loop_S (fuel : nat) (em : bytes) (st : reader) :
  end_only_loop (S fuel) em st =
  if Bytes.contains (buffer st) em then
    match Bytes.split1 (buffer st) em with
    | Ok [packet; rest] =>
        bind (publish (last_timestamp st) (packet ++ em)%list)
             (fun _ => end_only_loop fuel em)
             (with_buffer rest st)
    | Ok _ => (st, Raise ValueError)
    | Raise e => (st, Raise e)
    | OutOfFuel => (st, OutOfFuel)
    end
  else (st, Ok tt).
Proof.
  simpl. run_monad.
  destruct (Bytes.contains (buffer st) em); [|reflexivity].
  destruct (Bytes.split1 (buffer st) em) as [[|p [|r [|x l]]]| |];
    reflexivity.
Qed.

(** The start/end loop computes the frames of section 4.2. *)
Lemma start_end_loop_spec (fuel : nat) (sm em : bytes) :
  sm <> [] ->
  forall st,
  log_ok st ->
  (List.length (buffer st) < fuel)%nat ->
  exists packets st',
    start_end_loop fuel sm em st = (st', Ok tt) /\
    start_end_frames sm em (buffer st) packets (buffer st') /\
    log_ok st' /\ cfg st' = cfg st /\
    last_timestamp st' = last_timestamp st /\
    data_received st' =
      (data_received st
       ++ messages (cfg st) (last_timestamp st) packets)%list.
Proof.
  intros Hsm. induction fuel as [|fuel IH]; intros st Hok Hfuel; [lia|].
  rewrite start_end_loop_S. cbv zeta.
  destruct (find_cases (buffer st) sm 0) as [[E Habs]|(i & E & Hi)];
    simpl Z.of_nat in E; rewrite E.
  - (* no start marker: everything is discarded *)
    simpl. exists [], (with_buffer [] st). simpl.
    rewrite app_nil_r. repeat split; auto. now constructor.
  - destruct (Z.eqb_spec (Z.of_nat i) (-1)) as [|_]; [lia|].
    set (st1 := if Z.of_nat i >? 0
                then with_buffer (Bytes.slice_from (Z.of_nat i) (buffer st)) st
                else st).
    assert (Hb1 : buffer st1 = skipn i (buffer st)).
    { unfold st1. destruct (Z.gtb_spec (Z.of_nat i) 0).
      - simpl. apply slice_from_nat.
      - assert (i = 0%nat) by lia. now subst. }
    assert (H1 : log_ok st1 /\ cfg st1 = cfg st /\
                 last_timestamp st1 = last_timestamp st /\
                 data_received st1 = data_received st).
    { unfold st1. destruct (Z.of_nat i >? 0); auto. }
    destruct H1 as (Hok1 & Hc1 & Ht1 & Hd1).
    rewrite Hb1. unfold Bytes.len.
    destruct (find_cases (skipn i (buffer st)) em (List.length sm))
      as [[E2 Habs]|(j & E2 & Hj)]; rewrite E2.
    + (* no end marker yet: wait *)
      simpl. exists [], st1. rewrite Hb1, app_nil_r.
      repeat split; auto. now constructor.
    + destruct (Z.eqb_spec (Z.of_nat j) (-1)) as [|_]; [lia|].
      rewrite <- Nat2Z.inj_add.
      rewrite slice_to_nat, slice_from_nat.
      set (n := (j + List.length em)%nat).
      set (st2 := with_buffer (skipn n (skipn i (buffer st))) st1).
      destruct (publish_ok (last_timestamp st1)
                  (firstn n (skipn i (buffer st))) st2)
        as (st3 & Ep & Hok3 & Hc3 & Hb3 & Ht3 & Hd3).
      { exact Hok1. }
      unfold bind. rewrite Ep.
      assert (Hlen : (List.length (buffer st3) < fuel)%nat).
      { rewrite Hb3. unfold st2. simpl. rewrite !length_skipn.
        destruct Hj as (Hlj & _ & _).
        destruct sm; [congruence|]. simpl in Hlj.
        assert (List.length (buffer st) <> 0%nat).
        { destruct Hi as (_ & Ho & _). apply occurs_at_bound in Ho.
          simpl in Ho. lia. }
        unfold n. lia. }
      destruct (IH st3 Hok3 Hlen)
        as (packets & st' & El & Hfr & Hok' & Hc' & Ht' & Hd').
      exists (firstn n (skipn i (buffer st)) :: packets), st'.
      rewrite El. repeat split; auto.
      * rewrite Hb3 in Hfr. unfold st2 in Hfr. simpl in Hfr.
        now apply se_frame.
      * rewrite Hc', Hc3. unfold st2. simpl. exact Hc1.
      * rewrite Ht', Ht3. unfold st2. simpl. exact Ht1.
      * rewrite Hd', Hd3, Hc3, Ht3. unfold st2. simpl.
        rewrite Hc1, Ht1, Hd1. now rewrite <- app_assoc.
Qed.

Lemma occurs_at_firstn (sub b : bytes) (i : nat) :
  occurs_at sub b i ->
  firstn (i + List.length sub) b = (firstn i b ++ sub)%list.
Proof.
  intros (pre & post & -> & <-).
  replace (firstn (List.length pre) (pre ++ sub ++ post)) with pre.
  - rewrite app_assoc.
    replace (List.length pre + List.length sub)%nat
      with (List.length (pre ++ sub) + 0)%nat by (rewrite length_app; lia).
    rewrite firstn_app_2. simpl. now rewrite app_nil_r.
  - replace (List.length pre) with (List.length pre + 0)%nat at 1 by lia.
    rewrite firstn_app_2. simpl. now rewrite app_nil_r.
Qed.

Lemma contains_cases (b em : bytes) :
  (Bytes.contains b em = false /\ absent_from em b 0) \/
  (exists i, Bytes.contains b em = true /\
             Bytes.find b em 0 = Z.of_nat i /\ first_from em b 0 i).
Proof.
  unfold Bytes.contains.
  destruct (find_cases b em 0) as [[E H]|(i & E & H)];
    simpl Z.of_nat in E; rewrite E.
  - now left.
  - right. exists i. destruct (Z.eqb_spec (Z.of_nat i) (-1)); [lia|].
    auto.
Qed.

(** The end-marker-only loop computes the frames of section 4.2. *)
Lemma end_only_loop_spec (fuel : nat) (em : bytes) :
  em <> [] ->
  forall st,
  log_ok st ->
  (List.length (buffer st) < fuel)%nat ->
  exists packets st',
    end_only_loop fuel em st = (st', Ok tt) /\
    end_only_frames em (buffer st) packets (buffer st') /\
    log_ok st' /\ cfg st' = cfg st /\
    last_timestamp st' = last_timestamp st /\
    data_received st' =
      (data_received st
       ++ messages (cfg st) (last_timestamp st) packets)%list.
Proof.
  intros Hem. induction fuel as [|fuel IH]; intros st Hok Hfuel; [lia|].
  rewrite end_only_loop_S.
  destruct (contains_cases (buffer st) em) as [[E Habs]|(i & E & Ef & Hi)];
    rewrite E.
  - exists [], st. rewrite app_nil_r. repeat split; auto. now constructor.
  - unfold Bytes.split1. destruct em as [|x em']; [congruence|].
    set (em := x :: em') in *. rewrite Ef.
    destruct (Z.eqb_spec (Z.of_nat i) (-1)) as [|_]; [lia|].
    unfold Bytes.len. rewrite <- Nat2Z.inj_add.
    rewrite slice_to_nat, slice_from_nat.
    destruct Hi as (_ & Hocc & Hmin).
    rewrite <- (occurs_at_firstn em (buffer st) i Hocc).
    set (n := (i + List.length em)%nat).
    destruct (publish_ok (last_timestamp st) (firstn n (buffer st))
                (with_buffer (skipn n (buffer st)) st))
      as (st3 & Ep & Hok3 & Hc3 & Hb3 & Ht3 & Hd3).
    { exact Hok. }
    unfold bind. rewrite Ep.
    assert (Hlen : (List.length (buffer st3) < fuel)%nat).
    { rewrite Hb3. simpl. rewrite length_skipn.
      apply occurs_at_bound in Hocc. unfold n, em in *. simpl in *. lia. }
    destruct (IH st3 Hok3 Hlen)
      as (packets & st' & El & Hfr & Hok' & Hc' & Ht' & Hd').
    exists (firstn n (buffer st) :: packets), st'.
    rewrite El. repeat split; auto.
    + rewrite Hb3 in Hfr. simpl in Hfr. apply eo_frame with (i := i); auto.
      repeat split; auto. lia.
    + now rewrite Hc', Hc3.
    + now rewrite Ht', Ht3.
    + rewrite Hd', Hd3, Hc3, Ht3. simpl. now rewrite <- app_assoc.
Qed.

Lemma is_suffix_slice_from (z : Z) (b : bytes) :
  is_suffix (Bytes.slice_from z b) b.
Proof. unfold Bytes.slice_from. apply is_suffix_skipn. Qed.

(** Whatever happens while logging, the start/end loop only drops bytes
    from the front of the buffer, and it never runs out of fuel. *)
Lemma start_end_loop_inv (fuel : nat) (sm em : bytes) :
  sm <> [] ->
  forall st,
  (List.length (buffer st) < fuel)%nat ->
  cfg (fst (start_end_loop fuel sm em st)) = cfg st /\
  is_suffix (buffer (fst (start_end_loop fuel sm em st))) (buffer st) /\
  snd (start_end_loop fuel sm em st) <> OutOfFuel.
Proof.
  intros Hsm. induction fuel as [|fuel IH]; intros st Hfuel; [lia|].
  rewrite start_end_loop_S. cbv zeta.
  destruct (find_cases (buffer st) sm 0) as [[E Habs]|(i & E & Hi)];
    simpl Z.of_nat in E; rewrite E.
  - simpl. repeat split; auto using is_suffix_nil. discriminate.
  - destruct (Z.eqb_spec (Z.of_nat i) (-1)) as [|_]; [lia|].
    set (st1 := if Z.of_nat i >? 0
                then with_buffer (Bytes.slice_from (Z.of_nat i) (buffer st)) st
                else st).
    assert (Hb1 : buffer st1 = skipn i (buffer st)).
    { unfold st1. destruct (Z.gtb_spec (Z.of_nat i) 0).
      - simpl. apply slice_from_nat.
      - assert (i = 0%nat) by lia. now subst. }
    assert (Hc1 : cfg st1 = cfg st).
    { unfold st1. destruct (Z.of_nat i >? 0); auto. }
    rewrite Hb1. unfold Bytes.len.
    destruct (find_cases (skipn i (buffer st)) em (List.length sm))
      as [[E2 Habs]|(j & E2 & Hj)]; rewrite E2.
    + simpl. rewrite Hb1. repeat split; auto using is_suffix_skipn.
      discriminate.
    + destruct (Z.eqb_spec (Z.of_nat j) (-1)) as [|_]; [lia|].
      rewrite <- Nat2Z.inj_add. rewrite slice_to_nat, slice_from_nat.
      set (n := (j + List.length em)%nat).
      set (st2 := with_buffer (skipn n (skipn i (buffer st))) st1).
      destruct (publish_frame (last_timestamp st1)
                  (firstn n (skipn i (buffer st))) st2)
        as (Hc3 & Hb3 & _ & Hr3).
      unfold bind.
      destruct (publish (last_timestamp st1)
                  (firstn n (skipn i (buffer st))) st2) as [st3 r3].
      simpl in Hc3, Hb3, Hr3.
      assert (Hsuf : is_suffix (buffer st3) (buffer st)).
      { rewrite Hb3. unfold st2. simpl.
        eapply is_suffix_trans; apply is_suffix_skipn. }
      assert (Hcfg : cfg st3 = cfg st).
      { rewrite Hc3. unfold st2. simpl. exact Hc1. }
      destruct r3 as [[]|e|]; simpl;
      [|repeat split; auto; discriminate|congruence].
      assert (Hlen : (List.length (buffer st3) < fuel)%nat).
      { rewrite Hb3. unfold st2. simpl. rewrite !length_skipn.
        destruct Hj as (Hlj & _ & _).
        destruct sm; [congruence|]. simpl in Hlj.
        assert (List.length (buffer st) <> 0%nat).
        { destruct Hi as (_ & Ho & _). apply occurs_at_bound in Ho.
          simpl in Ho. lia. }
        unfold n. lia. }
      destruct (IH st3 Hlen) as (Hc' & Hs' & Hr').
      repeat split; auto.
      * now rewrite Hc'.
      * eapply is_suffix_trans; eauto.
Qed.

Lemma end_only_loop_inv (fuel : nat) (em : bytes) :
  forall st,
  (List.length (buffer st) < fuel)%nat ->
  cfg (fst (end_only_loop fuel em st)) = cfg st /\
  is_suffix (buffer (fst (end_only_loop fuel em st))) (buffer st) /\
  snd (end_only_loop fuel em st) <> OutOfFuel.
Proof.
  induction fuel as [|fuel IH]; intros st Hfuel; [lia|].
  rewrite end_only_loop_S.
  destruct (contains_cases (buffer st) em) as [[E Habs]|(i & E & Ef & Hi)];
    rewrite E.
  - simpl. repeat split; auto using is_suffix_refl. discriminate.
  - unfold Bytes.split1. destruct em as [|x em'].
    { simpl. repeat split; auto using is_suffix_refl. discriminate. }
    set (em := x :: em') in *. rewrite Ef.
    destruct (Z.eqb_spec (Z.of_nat i) (-1)) as [|_]; [lia|].
    unfold Bytes.len. rewrite <- Nat2Z.inj_add.
    rewrite slice_to_nat, slice_from_nat.
    destruct Hi as (_ & Hocc & Hmin).
    set (n := (i + List.length em)%nat).
    destruct (publish_frame (last_timestamp st) (firstn i (buffer st) ++ em)
                (with_buffer (skipn n (buffer st)) st))
      as (Hc3 & Hb3 & _ & Hr3).
    unfold bind.
    destruct (publish (last_timestamp st) (firstn i (buffer st) ++ em)
                (with_buffer (skipn n (buffer st)) st)) as [st3 r3].
    simpl in Hc3, Hb3, Hr3.
    assert (Hsuf : is_suffix (buffer st3) (buffer st)).
    { rewrite Hb3. apply is_suffix_skipn. }
    destruct r3 as [[]|e|]; simpl;
      [|repeat split; auto; discriminate|congruence].
    assert (Hlen : (List.length (buffer st3) < fuel)%nat).
    { rewrite Hb3. rewrite length_skipn.
      apply occurs_at_bound in Hocc. unfold n, em in *. simpl in *. lia. }
    destruct (IH st3 Hlen) as (Hc' & Hs' & Hr').
    repeat split; auto.
    + now rewrite Hc'.
    + eapply is_suffix_trans; eauto.
Qed.

End ReaderFacts.

(** ** The marker resolver *)

Section Resolver.

Import Spec.

Lemma of_int_cases (v : Z) :
  (exists b, Bytes.of_int v = Ok [b]) \/ Bytes.of_int v = Raise ValueError.
Proof.
  unfold Bytes.of_int.
  destruct ((0 <=? v)%Z && (v <? 256)%Z); [left; eauto | now right].
Qed.

Lemma utf8_cp_nonempty (c : N) : Bytes.utf8_cp c <> [].
Proof. unfold Bytes.utf8_cp. destruct (c <? 128)%N; discriminate. Qed.

Lemma encode_utf8_nonempty (a : ascii) (s : string) :
  Bytes.encode_utf8 (String a s) <> [].
Proof.
  unfold Bytes.encode_utf8. simpl.
  pose proof (utf8_cp_nonempty (N_of_ascii a)) as H.
  destruct (Bytes.utf8_cp (N_of_ascii a)); [congruence|discriminate].
Qed.

(** The resolver either returns bytes or raises [ValueError]; the bytes
    are those of the keyword, of the number, or the encoded text. *)
Lemma parse_marker_cases (a : ascii) (s : string) :
  let text := String a s in
  let marker_upper := Str.upper (Str.strip (Str.code_points text)) in
  _parse_marker text = Ok [x02] \/
  _parse_marker text = Ok [x03] \/
  _parse_marker text = Ok (Bytes.encode_utf8 text) \/
  (exists v b, (Str.int marker_upper 16 = Some v \/
                Str.int marker_upper 10 = Some v) /\
               Bytes.of_int v = Ok [b] /\ _parse_marker text = Ok [b]) \/
  (Str.isdigit marker_upper = true /\
   (forall v, Str.int marker_upper 10 = Some v ->
              Bytes.of_int v = Raise ValueError) /\
   _parse_marker text = Raise ValueError).
Proof.
  intros text marker_upper. unfold _parse_marker. fold text.
  unfold text at 1. fold marker_upper.
  destruct (Str.eqb marker_upper (Str.code_points "STX")); [now left|].
  destruct (Str.eqb marker_upper (Str.code_points "ETX")); [now right; left|].
  destruct (Str.startswith (Str.lower marker_upper) (Str.code_points "0x")).
  - destruct (Str.int marker_upper 16) as [v|] eqn:Ei; [|now right; right; left].
    destruct (of_int_cases v) as [[b E]|E]; rewrite E.
    + right; right; right; left. exists v, b. auto.
    + now right; right; left.
  - destruct (Str.isdigit marker_upper) eqn:Ed; [|now right; right; left].
    destruct (Str.int marker_upper 10) as [v|] eqn:Ei;
      [|right; right; right; right; repeat split; auto; discriminate].
    destruct (of_int_cases v) as [[b E]|E]; rewrite E.
    + right; right; right; left. exists v, b. auto.
    + right; right; right; right. repeat split; auto.
      intros v' [= <-]. exact E.
Qed.

(** A marker text that is not empty never resolves to the empty marker. *)
Lemma parse_marker_nonempty (text : string) (b : bytes) :
  text <> EmptyString -> _parse_marker text = Ok b -> b <> [].
Proof.
  destruct text as [|a s]; [congruence|]. intros _ H.
  destruct (parse_marker_cases a s) as [E|[E|[E|[(v & c & _ & _ & E)|(_ & _ & E)]]]];
    rewrite E in H; try discriminate; injection H as <-;
    try discriminate.
  apply encode_utf8_nonempty.
Qed.

Lemma rstrip_cons (c : N) (l : Str.str) :
  Str.isspace c = false -> Str.rstrip (c :: l) = c :: Str.rstrip l.
Proof. intros H. simpl. rewrite H. destruct (Str.rstrip l); reflexivity. Qed.

(** A text that begins with [0x] or [0X] still does once trimmed and
    upper-cased. *)
Lemma hex_text_upper (c : ascii) (rest : string) :
  c = "x"%char \/ c = "X"%char ->
  Str.upper (Str.strip (Str.code_points (String "0" (String c rest))))
  = (48 :: 88 :: Str.upper (Str.rstrip (Str.code_points rest)))%N.
Proof.
  intros [-> | ->]; unfold Str.strip, Str.code_points;
    simpl list_ascii_of_string; simpl map; simpl Str.lstrip;
    rewrite !rstrip_cons by reflexivity; reflexivity.
Qed.

Lemma parse_marker_hex (c : ascii) (rest : string) :
  c = "x"%char \/ c = "X"%char ->
  let text := String "0" (String c rest) in
  let marker_upper := Str.upper (Str.strip (Str.code_points text)) in
  _parse_marker text =
  match Str.int marker_upper 16 with
  | Some v =>
      match Bytes.of_int v with
      | Raise ValueError => Ok (Bytes.encode_utf8 text)
      | r => r
      end
  | None => Ok (Bytes.encode_utf8 text)
  end.
Proof.
  intros Hc text marker_upper. unfold _parse_marker. fold text.
  unfold text at 1. fold marker_upper.
  assert (E : marker_upper
              = (48 :: 88 :: Str.upper (Str.rstrip (Str.code_points rest)))%N)
    by (apply hex_text_upper; exact Hc).
  assert (E1 : Str.eqb marker_upper (Str.code_points "STX") = false).
  { rewrite E. unfold Str.eqb. simpl. apply andb_false_r. }
  assert (E2 : Str.eqb marker_upper (Str.code_points "ETX") = false).
  { rewrite E. unfold Str.eqb. simpl. apply andb_false_r. }
  assert (E3 : Str.startswith (Str.lower marker_upper) (Str.code_points "0x")
               = true).
  { rewrite E. reflexivity. }
  rewrite E1, E2, E3. reflexivity.
Qed.

(** C4. The reference cases of the marker resolver: the keywords in any
    case, a hex literal, a decimal literal, raw text, the empty text; and a
    text beginning with [0x] or [0X] that does not parse as a hexadecimal
    byte value resolves to its own encoded text instead of raising. *)
Theorem marker_reference_cases :
  _parse_marker "STX" = Ok [x02] /\
  _parse_marker "etx" = Ok [x03] /\
  _parse_marker "0x41" = Ok [x41] /\
  _parse_marker "65" = Ok [x41] /\
  _parse_marker "Q" = Ok [x51] /\
  _parse_marker EmptyString = Ok [] /\
  _parse_marker "0xZZ" = Ok [x30; x78; x5a; x5a] /\
  (forall (c : ascii) (rest : string),
     c = "x"%char \/ c = "X"%char ->
     let text := String "0" (String c rest) in
     (forall v,
        Str.int (Str.upper (Str.strip (Str.code_points text))) 16 = Some v ->
        (v < 0 \/ 255 < v)%Z) ->
     _parse_marker text = Ok (Bytes.encode_utf8 text)).
Proof.
  repeat (split; [reflexivity|]).
  intros c rest Hc text Hint.
  unfold text. rewrite (parse_marker_hex c rest Hc). fold text.
  destruct (Str.int (Str.upper (Str.strip (Str.code_points text))) 16)
    as [v|]; [|reflexivity].
  specialize (Hint v eq_refl). unfold Bytes.of_int.
  destruct (Z.leb_spec 0 v); destruct (Z.ltb_spec v 256);
    simpl; try reflexivity; lia.
Qed.

Lemma marker_reference_cases_witness :
  Str.int (Str.upper (Str.strip (Str.code_points "0X1__0"))) 16 = None /\
  Str.int (Str.upper (Str.strip (Str.code_points "0x100"))) 16
    = Some 256%Z /\
  _parse_marker "0X1__0" = Ok (Bytes.encode_utf8 "0X1__0") /\
  _parse_marker "0x100" = Ok (Bytes.encode_utf8 "0x100").
Proof.
  split; [reflexivity|]. split; [reflexivity|]. split.
  - apply (proj2 (proj2 (proj2 (proj2 (proj2 (proj2
             (proj2 marker_reference_cases)))))) "X"%char "1__0"%string).
    + now right.
    + intros v H. discriminate H.
  - apply (proj2 (proj2 (proj2 (proj2 (proj2 (proj2
             (proj2 marker_reference_cases)))))) "x"%char "100"%string).
    + now left.
    + intros v H. injection H as <-. right. reflexivity.
Defined.

Lemma scan_decimal (s : Str.str) :
  forall acc n,
  decimal_digits acc s = Some n ->
  Str.scan_digits 10 acc s = Some (n, []).
Proof.
  induction s as [|c t IH]; intros acc n H; simpl in *.
  - now injection H as ->.
  - destruct (Str.between 48 c 57) eqn:Eb; [|discriminate].
    unfold Str.between in Eb. apply andb_true_iff in Eb.
    destruct Eb as [H1 H2]. apply N.leb_le in H1, H2.
    destruct (N.eqb_spec c 95) as [|_]; [lia|].
    assert (Ed : Str.digit 10 c = Some (c - 48)%N).
    { unfold Str.digit, Str.digit_value, Str.between.
      destruct (N.leb_spec 48 c); [|lia].
      destruct (N.leb_spec c 57); [|lia]. simpl.
      destruct (N.ltb_spec (c - 48) 10); [reflexivity|lia]. }
    rewrite Ed. now apply IH.
Qed.

Lemma count_decimal (s : Str.str) :
  forall acc n,
  decimal_digits acc s = Some n ->
  Str.count_digits 10 s = N.of_nat (List.length s).
Proof.
  induction s as [|c t IH]; intros acc n H; [reflexivity|].
  cbn [decimal_digits] in H.
  destruct (Str.between 48 c 57) eqn:Eb; [|discriminate].
  unfold Str.between in Eb. apply andb_true_iff in Eb.
  destruct Eb as [H1 H2]. apply N.leb_le in H1, H2.
  cbn [Str.count_digits List.length].
  destruct (N.eqb_spec c 95) as [|_]; [lia|].
  assert (Ed : Str.digit 10 c = Some (c - 48)%N).
  { unfold Str.digit, Str.digit_value, Str.between.
    destruct (N.leb_spec 48 c); [|lia].
    destruct (N.leb_spec c 57); [|lia]. simpl.
    destruct (N.ltb_spec (c - 48) 10); [reflexivity|lia]. }
  rewrite Ed, (IH _ _ H). lia.
Qed.

(** On a text of ASCII decimal digits [int] returns the value denoted,
    unless the text has more digits than the interpreter accepts. *)
Lemma int_decimal (s : Str.str) (v : Z) :
  decimal_value s = Some v ->
  Str.int s 10 =
  if (N.of_nat (List.length s) <=? Str.max_str_digits)%N
  then Some v else None.
Proof.
  destruct s as [|c t]; [discriminate|]. unfold decimal_value.
  destruct (decimal_digits 0 (c :: t)) as [n|] eqn:E; [|discriminate].
  intros [= <-]. simpl in E.
  destruct (Str.between 48 c 57) eqn:Eb; [|discriminate].
  unfold Str.between in Eb. apply andb_true_iff in Eb.
  destruct Eb as [H1 H2]. apply N.leb_le in H1, H2.
  unfold Str.int.
  assert (Es : Str.int_space c = false).
  { unfold Str.int_space, Str.between.
    destruct (N.leb_spec c 13); [lia|].
    destruct (N.eqb_spec c 32); [lia|].
    destruct (N.leb_spec 128 c); [lia|].
    now rewrite andb_false_r. }
  simpl Str.lstrip_with. rewrite Es. unfold Str.skip_sign.
  destruct (N.eqb_spec c 43) as [|_]; [lia|].
  destruct (N.eqb_spec c 45) as [|_]; [lia|].
  unfold Str.skip_prefix. simpl (10 =? 16)%N. cbv iota.
  assert (Ed : Str.digit 10 c = Some (c - 48)%N).
  { unfold Str.digit, Str.digit_value, Str.between.
    destruct (N.leb_spec 48 c); [|lia].
    destruct (N.leb_spec c 57); [|lia]. simpl.
    destruct (N.ltb_spec (c - 48) 10); [reflexivity|lia]. }
  rewrite Ed. rewrite (scan_decimal t _ n E).
  assert (Ec : decimal_digits 0 (c :: t) = Some n).
  { cbn [decimal_digits]. unfold Str.between.
    destruct (N.leb_spec 48 c); [|lia].
    destruct (N.leb_spec c 57); [|lia]. exact E. }
  rewrite (count_decimal (c :: t) 0%N n Ec).
  cbn [forallb]. change (Str.binary_base 10) with false. cbn [orb].
  reflexivity.
Qed.

(** C8, as stated, fails.  The text " 256" is not made solely of decimal
    digits, so the stated precondition holds of it, yet the resolver trims
    it, reads 256 and raises [ValueError]; and the superscript two U+00B2
    passes [isdigit] but is rejected by [int]. *)
Lemma resolver_raises_under_precondition :
  decimal_in_range " 256" /\
  _parse_marker " 256" = Raise ValueError /\
  decimal_in_range (String (ascii_of_N 178) EmptyString) /\
  _parse_marker (String (ascii_of_N 178) EmptyString) = Raise ValueError.
Proof.
  split; [intros v H; discriminate H|]. split; [reflexivity|].
  split; [intros v H; discriminate H|reflexivity].
Qed.

(** The digit limit of [int] is a third way to fail: 4300 zeros followed
    by 7 are decimal digits that denote 7, and the resolver raises
    [ValueError] on them, while one zero less resolves to the byte 07. *)
Lemma resolver_digit_limit :
  decimal_in_range (zeros_then_seven 4300) /\
  decimal_value (Str.code_points (zeros_then_seven 4300)) = Some 7%Z /\
  _parse_marker (zeros_then_seven 4300) = Raise ValueError /\
  _parse_marker (zeros_then_seven 4299) = Ok [x07].
Proof.
  assert (E : decimal_value (Str.code_points (zeros_then_seven 4300))
              = Some 7%Z) by (vm_compute; reflexivity).
  split; [|split; [exact E|split; vm_compute; reflexivity]].
  intros v H. rewrite E in H. injection H as <-. lia.
Qed.

(** C8, amended.  The resolver is a total function: for every text such
    that, whenever its trimmed and upper-cased form passes [isdigit], that
    form is made of at most 4300 ASCII decimal digits denoting a value in
    0..255, it returns a byte sequence and does not raise; malformed hex
    degrades to the encoded text. *)
Theorem resolver_total :
  forall text : string,
    digits_resolvable text ->
    exists b, _parse_marker text = Ok b.
Proof.
  intros [|a s] Hpre; [now exists []|].
  destruct (parse_marker_cases a s)
    as [E|[E|[E|[(v & c & _ & _ & E)|(Hd & Hraise & E)]]]]; eauto.
  exfalso. destruct (Hpre Hd) as (Hlen & v & Hv & Hrange).
  apply int_decimal in Hv.
  destruct (N.leb_spec
              (N.of_nat (List.length
                 (Str.upper (Str.strip (Str.code_points (String a s))))))
              Str.max_str_digits) as [_|Hgt]; [|lia].
  apply Hraise in Hv.
  unfold Bytes.of_int in Hv.
  destruct (Z.leb_spec 0 v); [|lia].
  destruct (Z.ltb_spec v 256); [|lia]. discriminate Hv.
Qed.

Lemma resolver_total_witness :
  digits_resolvable " 255 " /\ exists b, _parse_marker " 255 " = Ok b.
Proof.
  assert (H : digits_resolvable " 255 ").
  { intros _. split; [vm_compute; discriminate|].
    exists 255%Z. split; [reflexivity|lia]. }
  split; [exact H|]. exact (resolver_total " 255 " H).
Defined.

End Resolver.

(** ** The frame extractor *)

Section Framing.

Import Spec.
Local Open Scope Z_scope.

Lemma ingest_buffering (st : reader) (data : bytes) (ts : string)
  (sm em : bytes) :
  buffering (cfg st) ->
  _parse_marker (start_marker (cfg st)) = Ok sm ->
  _parse_marker (end_marker (cfg st)) = Ok em ->
  let st1 :=
    with_buffer (cap_buffer (max_buffer_size (cfg st)) (buffer st ++ data))
                (with_last_timestamp (Some ts) st) in
  ingest data ts st =
  (if bytes_truthy sm
   then start_end_loop (S (List.length (buffer st1))) sm em
   else end_only_loop (S (List.length (buffer st1))) em) st1.
Proof.
  intros [Hen Hend] Hs He. unfold ingest. run_monad.
  assert (Ht : str_truthy (end_marker (cfg st)) = true).
  { destruct (end_marker (cfg st)); [congruence|reflexivity]. }
  rewrite Hen, Ht. simpl. unfold cap_buffer.
  destruct (Bytes.len (buffer st ++ data) >? max_buffer_size (cfg st));
    simpl; rewrite Hs; simpl; rewrite He; simpl;
    destruct (bytes_truthy sm); reflexivity.
Qed.

Lemma cap_buffer_within (limit : Z) (b : bytes) :
  Bytes.len b <= limit -> cap_buffer limit b = b.
Proof.
  intros H. unfold cap_buffer.
  destruct (Z.gtb_spec (Bytes.len b) limit); [lia|reflexivity].
Qed.

Lemma cap_buffer_suffix (limit : Z) (b : bytes) :
  is_suffix (cap_buffer limit b) b.
Proof.
  unfold cap_buffer. destruct (Bytes.len b >? limit).
  - apply is_suffix_slice_from.
  - apply is_suffix_refl.
Qed.

Lemma cap_buffer_keep_last (limit : Z) (b : bytes) :
  0 < limit -> cap_buffer limit b = keep_last (Z.to_nat limit) b.
Proof.
  intros H. unfold cap_buffer.
  destruct (Z.gtb_spec (Bytes.len b) limit).
  - now apply slice_from_neg.
  - unfold keep_last, Bytes.len in *.
    replace (List.length b - Z.to_nat limit)%nat with 0%nat by lia.
    reflexivity.
Qed.

Lemma cap_buffer_length (limit : Z) (b : bytes) :
  0 < limit -> Bytes.len (cap_buffer limit b) <= limit.
Proof.
  intros H. rewrite cap_buffer_keep_last by assumption.
  unfold Bytes.len. rewrite keep_last_length. lia.
Qed.

Lemma bytes_truthy_true (b : bytes) : b <> [] -> bytes_truthy b = true.
Proof. destruct b; [congruence|reflexivity]. Qed.

(** C1. In start/end framing mode [ingest] appends the chunk (the size cap
    then keeps the most recent bytes, and keeps everything when the buffer
    is within the cap), and the loop emits, in order, exactly the frames of
    section 4.2: no start marker, everything is discarded; bytes before the
    first start marker are dropped; the end marker is searched after the
    start marker's bytes; if absent the buffer is retained; otherwise the
    bytes from the start marker through the end marker are one packet and
    the loop repeats; the packets and the remaining buffer are determined
    by the buffer.  The chunk 02 41 42 03 02 43 03 with markers 0x02 and
    0x03 gives the packets 02 41 42 03 and 02 43 03, in that order, and an
    empty buffer. *)
Theorem start_end_framing :
  (forall (st : reader) (data : bytes) (ts : string) (sm em : bytes),
     buffer_enabled (cfg st) = true ->
     start_marker (cfg st) <> EmptyString ->
     end_marker (cfg st) <> EmptyString ->
     _parse_marker (start_marker (cfg st)) = Ok sm ->
     _parse_marker (end_marker (cfg st)) = Ok em ->
     log_ok st ->
     exists packets st',
       ingest data ts st = (st', Ok tt) /\
       start_end_frames sm em
         (cap_buffer (max_buffer_size (cfg st)) (buffer st ++ data))
         packets (buffer st') /\
       (Bytes.len (buffer st ++ data) <= max_buffer_size (cfg st) ->
        cap_buffer (max_buffer_size (cfg st)) (buffer st ++ data)
        = (buffer st ++ data)%list) /\
       data_received st' =
         (data_received st ++ messages (cfg st) (Some ts) packets)%list) /\
  (forall (port label ts : string) (baud bits : Z),
     exists st',
       ingest [x02; x41; x42; x03; x02; x43; x03] ts
         (__init__ port baud bits None label true "0x03" "0x02")
       = (st', Ok tt) /\
       data_received st' =
         [(label, render_message (Some ts) label "02 41 42 03");
          (label, render_message (Some ts) label "02 43 03")] /\
       buffer st' = []) /\
  (forall (sm em b : bytes) (packets packets' : list bytes)
          (rest rest' : bytes),
     start_end_frames sm em b packets rest ->
     start_end_frames sm em b packets' rest' ->
     packets = packets' /\ rest = rest').
Proof.
  split; [|split].
  - intros st data ts sm em Hen Hsm Hem Hs He Hok.
    pose proof (parse_marker_nonempty _ _ Hsm Hs) as Hne.
    rewrite (ingest_buffering st data ts sm em (conj Hen Hem) Hs He).
    cbv zeta. rewrite (bytes_truthy_true sm Hne).
    match goal with
    | |- context [start_end_loop ?f sm em ?s] =>
        destruct (start_end_loop_spec f sm em Hne s)
          as (packets & st' & E & Hfr & _ & _ & _ & Hd)
    end.
    { exact Hok. }
    { simpl. lia. }
    exists packets, st'. simpl in Hfr, Hd.
    repeat split; auto. apply cap_buffer_within.
  - intros port label ts baud bits. eexists.
    split; [vm_compute; reflexivity|]. split; reflexivity.
  - intros sm em b packets packets' rest rest'.
    apply start_end_frames_functional.
Qed.

Lemma start_end_framing_witness :
  buffer_enabled (cfg example_reader) = true /\
  start_marker (cfg example_reader) <> EmptyString /\
  end_marker (cfg example_reader) <> EmptyString /\
  _parse_marker (start_marker (cfg example_reader)) = Ok [x02] /\
  _parse_marker (end_marker (cfg example_reader)) = Ok [x03] /\
  log_ok example_reader /\
  exists packets st',
    ingest [xff; x02; x41; x03] "12:00:00.000" example_reader = (st', Ok tt) /\
    start_end_frames [x02] [x03]
      (cap_buffer (max_buffer_size (cfg example_reader))
         (buffer example_reader ++ [xff; x02; x41; x03]))
      packets (buffer st') /\
    (Bytes.len (buffer example_reader ++ [xff; x02; x41; x03])
       <= max_buffer_size (cfg example_reader) ->
     cap_buffer (max_buffer_size (cfg example_reader))
       (buffer example_reader ++ [xff; x02; x41; x03])
     = (buffer example_reader ++ [xff; x02; x41; x03])%list) /\
    data_received st' =
      (data_received example_reader
       ++ messages (cfg example_reader) (Some "12:00:00.000"%string) packets)%list.
Proof.
  repeat (split; [first [reflexivity | discriminate | exact I]|]).
  apply (proj1 start_end_framing);
    first [reflexivity | discriminate | exact I].
Defined.

(** C2, as stated, fails: after the frame is emitted the loop runs again on
    the remaining byte 99, finds no start marker in it and discards it, so
    the byte is not retained. *)
Lemma trailing_byte_not_retained :
  ~ (exists st',
       ingest [xff; x02; x11; x22; x03; x99] "12:00:00.000" example_reader
       = (st', Ok tt) /\
       data_received st' =
         [("RX1"%string,
           render_message (Some "12:00:00.000"%string) "RX1" "02 11 22 03")] /\
       buffer st' = [x99]).
Proof.
  intros (st' & E & _ & Hb). vm_compute in E. injection E as <-.
  discriminate Hb.
Qed.

(** C2, amended.  With start marker 0x02 and end marker 0x03, from an empty
    buffer, the chunk FF 02 11 22 03 99 emits exactly the packet
    02 11 22 03; the leading FF is discarded, and so is the trailing 99,
    which holds no start marker: the buffer is empty afterwards. *)
Theorem leading_and_trailing_bytes_dropped :
  forall (port label ts : string) (baud bits : Z),
  exists st',
    ingest [xff; x02; x11; x22; x03; x99] ts
      (__init__ port baud bits None label true "0x03" "0x02")
    = (st', Ok tt) /\
    data_received st' =
      [(label, render_message (Some ts) label "02 11 22 03")] /\
    buffer st' = [].
Proof.
  intros port label ts baud bits. eexists.
  split; [vm_compute; reflexivity|]. split; reflexivity.
Qed.

(** C5. In end-marker-only mode [ingest] appends the chunk (under the size
    cap) and splits the buffer at each occurrence of the end marker,
    emitting everything up to and including the marker as one packet, for
    as many packets as the buffer holds.  From an empty buffer with end
    marker 0x03, the chunks AA BB 03 and then CC 03 give the packets
    AA BB 03 and CC 03, in that order. *)
Theorem end_marker_only_framing :
  (forall (st : reader) (data : bytes) (ts : string) (em : bytes),
     buffer_enabled (cfg st) = true ->
     start_marker (cfg st) = EmptyString ->
     end_marker (cfg st) <> EmptyString ->
     _parse_marker (end_marker (cfg st)) = Ok em ->
     log_ok st ->
     exists packets st',
       ingest data ts st = (st', Ok tt) /\
       end_only_frames em
         (cap_buffer (max_buffer_size (cfg st)) (buffer st ++ data))
         packets (buffer st') /\
       (Bytes.len (buffer st ++ data) <= max_buffer_size (cfg st) ->
        cap_buffer (max_buffer_size (cfg st)) (buffer st ++ data)
        = (buffer st ++ data)%list) /\
       data_received st' =
         (data_received st ++ messages (cfg st) (Some ts) packets)%list) /\
  (forall (port label t1 t2 : string) (baud bits : Z),
     exists st1 st2,
       ingest [xaa; xbb; x03] t1
         (__init__ port baud bits None label true "0x03" EmptyString)
       = (st1, Ok tt) /\
       data_received st1 =
         [(label, render_message (Some t1) label "AA BB 03")] /\
       ingest [xcc; x03] t2 st1 = (st2, Ok tt) /\
       data_received st2 =
         [(label, render_message (Some t1) label "AA BB 03");
          (label, render_message (Some t2) label "CC 03")]) /\
  (forall (em b : bytes) (packets packets' : list bytes)
          (rest rest' : bytes),
     end_only_frames em b packets rest ->
     end_only_frames em b packets' rest' ->
     packets = packets' /\ rest = rest').
Proof.
  split; [|split].
  - intros st data ts em Hen Hsm Hem He Hok.
    pose proof (parse_marker_nonempty _ _ Hem He) as Hne.
    assert (Hs : _parse_marker (start_marker (cfg st)) = Ok []).
    { now rewrite Hsm. }
    rewrite (ingest_buffering st data ts [] em (conj Hen Hem) Hs He).
    cbv zeta. change (bytes_truthy []) with false. cbv iota.
    match goal with
    | |- context [end_only_loop ?f em ?s] =>
        destruct (end_only_loop_spec f em Hne s)
          as (packets & st' & E & Hfr & _ & _ & _ & Hd)
    end.
    { exact Hok. }
    { simpl. lia. }
    exists packets, st'. simpl in Hfr, Hd.
    repeat split; auto. apply cap_buffer_within.
  - intros port label t1 t2 baud bits. eexists. eexists.
    split; [vm_compute; reflexivity|]. split; [reflexivity|].
    split; [vm_compute; reflexivity|]. reflexivity.
  - intros em b packets packets' rest rest'.
    apply end_only_frames_functional.
Qed.

Lemma end_marker_only_framing_witness :
  buffer_enabled (cfg example_end_only) = true /\
  start_marker (cfg example_end_only) = EmptyString /\
  end_marker (cfg example_end_only) <> EmptyString /\
  _parse_marker (end_marker (cfg example_end_only)) = Ok [x03] /\
  log_ok example_end_only /\
  exists packets st',
    ingest [xaa; x03; xbb; x03; xcc] "12:00:00.000" example_end_only
    = (st', Ok tt) /\
    end_only_frames [x03]
      (cap_buffer (max_buffer_size (cfg example_end_only))
         (buffer example_end_only ++ [xaa; x03; xbb; x03; xcc]))
      packets (buffer st') /\
    (Bytes.len (buffer example_end_only ++ [xaa; x03; xbb; x03; xcc])
       <= max_buffer_size (cfg example_end_only) ->
     cap_buffer (max_buffer_size (cfg example_end_only))
       (buffer example_end_only ++ [xaa; x03; xbb; x03; xcc])
     = (buffer example_end_only ++ [xaa; x03; xbb; x03; xcc])%list) /\
    data_received st' =
      (data_received example_end_only
       ++ messages (cfg example_end_only) (Some "12:00:00.000"%string)
            packets)%list.
Proof.
  repeat (split; [first [reflexivity | discriminate | exact I]|]).
  apply (proj1 end_marker_only_framing);
    first [reflexivity | discriminate | exact I].
Defined.

Lemma parse_marker_fuel (text : string) : _parse_marker text <> OutOfFuel.
Proof.
  destruct text as [|a s]; [discriminate|].
  destruct (parse_marker_cases a s) as [E|[E|[E|[(v & c & _ & _ & E)|(_ & _ & E)]]]];
    rewrite E; discriminate.
Qed.

Lemma bytes_truthy_nonempty (b : bytes) : bytes_truthy b = true -> b <> [].
Proof. destruct b; [discriminate|discriminate]. Qed.

(** Whatever its outcome, an [ingest] in a buffering mode leaves a buffer
    that is a suffix of the capped buffer, and it never runs out of fuel. *)
Lemma ingest_inv (st : reader) (data : bytes) (ts : string) :
  buffering (cfg st) ->
  cfg (fst (ingest data ts st)) = cfg st /\
  is_suffix (buffer (fst (ingest data ts st)))
            (cap_buffer (max_buffer_size (cfg st)) (buffer st ++ data)) /\
  snd (ingest data ts st) <> OutOfFuel.
Proof.
  intros Hbuf.
  set (st1 := with_buffer
                (cap_buffer (max_buffer_size (cfg st)) (buffer st ++ data))
                (with_last_timestamp (Some ts) st)).
  destruct (_parse_marker (start_marker (cfg st))) as [sm|e|] eqn:Es.
  - destruct (_parse_marker (end_marker (cfg st))) as [em|e|] eqn:Ee.
    + rewrite (ingest_buffering st data ts sm em Hbuf Es Ee). cbv zeta.
      fold st1. destruct (bytes_truthy sm) eqn:Et.
      * apply bytes_truthy_nonempty in Et.
        destruct (start_end_loop_inv (S (List.length (buffer st1))) sm em
                    Et st1) as (H1 & H2 & H3); [lia|].
        repeat split; auto.
      * destruct (end_only_loop_inv (S (List.length (buffer st1))) em st1)
          as (H1 & H2 & H3); [lia|].
        repeat split; auto.
    + assert (E : ingest data ts st = (st1, Raise e)).
      { destruct Hbuf as [Hen Hend]. unfold ingest. run_monad.
        assert (Ht : str_truthy (end_marker (cfg st)) = true).
        { destruct (end_marker (cfg st)); [congruence|reflexivity]. }
        rewrite Hen, Ht. simpl. unfold st1, cap_buffer.
        destruct (Bytes.len (buffer st ++ data) >? max_buffer_size (cfg st));
          simpl; rewrite Es; simpl; rewrite Ee; reflexivity. }
      rewrite E. simpl. repeat split; auto using is_suffix_refl.
      discriminate.
    + now apply parse_marker_fuel in Ee.
  - assert (E : ingest data ts st = (st1, Raise e)).
    { destruct Hbuf as [Hen Hend]. unfold ingest. run_monad.
      assert (Ht : str_truthy (end_marker (cfg st)) = true).
      { destruct (end_marker (cfg st)); [congruence|reflexivity]. }
      rewrite Hen, Ht. simpl. unfold st1, cap_buffer.
      destruct (Bytes.len (buffer st ++ data) >? max_buffer_size (cfg st));
        simpl; rewrite Es; reflexivity. }
    rewrite E. simpl. repeat split; auto using is_suffix_refl.
    discriminate.
  - now apply parse_marker_fuel in Es.
Qed.

Lemma is_suffix_app (a b c : bytes) :
  is_suffix a b -> is_suffix (a ++ c) (b ++ c).
Proof. intros [d ->]. exists d. now rewrite app_assoc. Qed.

Lemma feed_cons (data : bytes) (ts : string) (rest : list (bytes * string))
  (st : reader) :
  feed ((data, ts) :: rest) st =
  match ingest data ts st with
  | (st', Ok _) => feed rest st'
  | (st', Raise e) => (st', Raise e)
  | (st', OutOfFuel) => (st', OutOfFuel)
  end.
Proof. reflexivity. Qed.

Lemma feed_inv (chunks : list (bytes * string)) :
  forall st,
  buffering (cfg st) ->
  0 < max_buffer_size (cfg st) ->
  Bytes.len (buffer st) <= max_buffer_size (cfg st) ->
  cfg (fst (feed chunks st)) = cfg st /\
  Bytes.len (buffer (fst (feed chunks st))) <= max_buffer_size (cfg st) /\
  snd (feed chunks st) <> OutOfFuel /\
  exists n, (n <= List.length chunks)%nat /\
    is_suffix (buffer (fst (feed chunks st)))
              (buffer st ++ List.concat (map fst (firstn n chunks))) /\
    (snd (feed chunks st) = Ok tt -> n = List.length chunks).
Proof.
  induction chunks as [|[data ts] rest IH]; intros st Hbuf Hmax Hlen.
  - simpl. repeat split; auto; try discriminate.
    exists 0%nat. simpl. rewrite app_nil_r.
    repeat split; auto using is_suffix_refl.
  - rewrite feed_cons.
    destruct (ingest_inv st data ts Hbuf) as (Hc & Hs & Hr).
    assert (Hl : Bytes.len (buffer (fst (ingest data ts st)))
                 <= max_buffer_size (cfg st)).
    { pose proof (is_suffix_length _ _ Hs).
      pose proof (cap_buffer_length _ (buffer st ++ data) Hmax).
      unfold Bytes.len in *. lia. }
    assert (Hs' : is_suffix (buffer (fst (ingest data ts st)))
                            (buffer st ++ data)).
    { eapply is_suffix_trans; [exact Hs|apply cap_buffer_suffix]. }
    destruct (ingest data ts st) as [st1 r1]. simpl in Hc, Hs, Hr, Hl, Hs'.
    destruct r1 as [[]|e|]; [| |congruence].
    + destruct (IH st1) as (Hc2 & Hl2 & Hr2 & n & Hn & Hs2 & Hk);
        try (rewrite Hc; assumption).
      rewrite Hc in *. repeat split; auto.
      exists (S n). simpl. repeat split; [lia| |auto].
      rewrite app_assoc.
      eapply is_suffix_trans; [exact Hs2|]. now apply is_suffix_app.
    + simpl. repeat split; auto; try discriminate.
      exists 1%nat. simpl. rewrite app_nil_r.
      repeat split; [lia|assumption|discriminate].
Qed.

End Framing.

(** ** Shutdown and the log sink *)

Section LogSink.

Import Spec.
Local Open Scope Z_scope.

(** What [stop] does when residual bytes are buffered: one final packet,
    also written to the log file when there is one, and the file closed. *)
Lemma stop_flushes_residual (st : reader) :
  buffer_enabled (cfg st) = true ->
  buffer st <> [] ->
  log_ok st ->
  exists st',
    stop st = (st', Ok tt) /\
    data_received st' =
      (data_received st
       ++ messages (cfg st) (last_timestamp st) [buffer st])%list /\
    fs st' =
      (fs st ++
       match log_file st with
       | Some h =>
           [FsWrite (fid h)
              (LogLine (render_message (last_timestamp st)
                          (source_label (cfg st)) (hex_join (buffer st))));
            FsFlush (fid h); FsClose (fid h)]
       | None => []
       end)%list.
Proof.
  intros Hen Hb Hok. unfold stop. run_monad. rewrite Hen.
  rewrite (bytes_truthy_true _ Hb). simpl. unfold log_ok in Hok.
  destruct (log_file st) as [[f c]|] eqn:Hlf; simpl in *.
  - subst c. unfold file_write, file_flush, file_close. run_monad.
    rewrite Hlf. simpl. eexists. split; [reflexivity|]. simpl.
    split; [reflexivity|]. now rewrite <- !app_assoc.
  - rewrite Hlf. eexists. split; [reflexivity|]. simpl.
    split; [reflexivity|]. now rewrite app_nil_r.
Qed.

(** C6.  On a reader with an open log file and the residual bytes 02 41,
    [stop] emits exactly one final packet holding those bytes and appends
    it to the log, but then closes the file without writing the footer
    line: the operations performed are write, flush, close.  The footer is
    only written by the [finally] block of [run], which, run after [stop],
    writes to the closed file and raises [ValueError]. *)
Theorem stop_closes_log_without_footer :
  buffer logging_reader = [x02; x41] /\
  log_file logging_reader = Some {| fid := 0; closed := false |} /\
  exists st',
    stop logging_reader = (st', Ok tt) /\
    data_received st' =
      (data_received logging_reader ++
       [("RX1"%string,
         render_message (Some "12:00:00.000"%string) "RX1" "02 41")])%list /\
    fs st' =
      (fs logging_reader ++
       [FsWrite 0 (LogLine (render_message (Some "12:00:00.000"%string)
                              "RX1" "02 41"));
        FsFlush 0; FsClose 0])%list /\
    ~ In (FsWrite 0 LogFooter) (fs st') /\
    log_file st' = Some {| fid := 0; closed := true |} /\
    snd (run_finally st') = Raise ValueError.
Proof.
  split; [reflexivity|]. split; [reflexivity|].
  eexists. split; [vm_compute; reflexivity|].
  split; [reflexivity|]. split; [reflexivity|].
  split; [|split; reflexivity].
  simpl. intros H.
  repeat (destruct H as [H|H]; [discriminate H|]). exact H.
Qed.

(** One write to an open log file: the line is written and flushed, the
    counter grows by its encoded size, and the file is rotated exactly when
    the counter has reached the limit. *)
Lemma log_message_open (m : string) (st : reader) (f : nat) (dir : string) :
  log_file st = Some {| fid := f; closed := false |} ->
  log_dir (cfg st) = Some dir ->
  dir <> EmptyString ->
  exists st',
    log_message m st = (st', Ok tt) /\ cfg st' = cfg st /\
    (log_file_size st + encoded_size m >= max_log_size (cfg st) ->
     fs st' = (fs st ++ [FsWrite f (LogLine m); FsFlush f]
               ++ rotation_events (cfg st) dir f (next_fid st))%list /\
     log_file st' = Some {| fid := next_fid st; closed := false |} /\
     log_file_size st' = 0 /\
     next_fid st' = S (next_fid st)) /\
    (log_file_size st + encoded_size m < max_log_size (cfg st) ->
     fs st' = (fs st ++ [FsWrite f (LogLine m); FsFlush f])%list /\
     log_file st' = Some {| fid := f; closed := false |} /\
     log_file_size st' = log_file_size st + encoded_size m /\
     next_fid st' = next_fid st).
Proof.
  intros Hlf Hdir Hne. unfold log_message. run_monad. rewrite Hlf.
  unfold file_write, file_flush. run_monad.
  destruct (Z.geb_spec (log_file_size st + encoded_size m)
              (max_log_size (cfg st))) as [Hge|Hlt].
  - unfold rotate_log_file, open_new_log_file, file_write, file_flush,
      file_close. run_monad. rewrite Hdir.
    assert (Ht : str_truthy dir = true)
      by (destruct dir; [congruence|reflexivity]).
    rewrite Ht. simpl. rewrite Hlf. simpl.
    eexists. split; [reflexivity|]. simpl. split; [reflexivity|].
    split; [|lia]. intros _. repeat split.
    unfold rotation_events. now rewrite <- !app_assoc.
  - eexists. split; [reflexivity|]. simpl. split; [reflexivity|].
    split; [lia|]. intros _. repeat split; auto.
    now rewrite <- !app_assoc.
Qed.

Lemma log_all_spec (msgs : list string) :
  forall (st : reader) (f : nat) (dir : string),
  log_file st = Some {| fid := f; closed := false |} ->
  log_dir (cfg st) = Some dir ->
  dir <> EmptyString ->
  exists st',
    log_all msgs st = (st', Ok tt) /\
    fs st' = (fs st ++ sink_events (cfg st) dir (log_file_size st) f
                         (next_fid st) msgs)%list /\
    next_fid st' =
      (next_fid st
       + rotations (max_log_size (cfg st)) (log_file_size st) msgs)%nat.
Proof.
  induction msgs as [|m rest IH]; intros st f dir Hlf Hdir Hne.
  - exists st. simpl. rewrite app_nil_r. repeat split; auto.
  - destruct (log_message_open m st f dir Hlf Hdir Hne)
      as (st1 & E & Hc & Hrot & Hno).
    simpl log_all. unfold bind. rewrite E.
    simpl sink_events. simpl rotations.
    destruct (Z.geb_spec (log_file_size st + encoded_size m)
                (max_log_size (cfg st))) as [Hge|Hlt].
    + destruct (Hrot ltac:(lia)) as (Hfs & Hlf1 & Hsz & Hnx).
      destruct (IH st1 (next_fid st) dir Hlf1) as (st' & E' & Hfs' & Hnx');
        [now rewrite Hc|assumption|].
      exists st'. rewrite E'. rewrite Hfs', Hnx', Hfs, Hc, Hsz, Hnx.
      split; [reflexivity|]. split; [|lia].
      now rewrite <- !app_assoc.
    + destruct (Hno Hlt) as (Hfs & Hlf1 & Hsz & Hnx).
      destruct (IH st1 f dir Hlf1) as (st' & E' & Hfs' & Hnx');
        [now rewrite Hc|assumption|].
      exists st'. rewrite E'. rewrite Hfs', Hnx', Hfs, Hc, Hsz, Hnx.
      split; [reflexivity|]. split; [|lia].
      now rewrite <- !app_assoc.
Qed.

(** C7.  For every sequence of packet lines written to an open log sink
    whose limit is 20 MiB: the lines are written and flushed in order; the
    byte counter of the current file ([log_file_size], the encoded bytes of
    the packet lines written to it) is checked after each write, and a
    rotation happens exactly when it has reached the limit, once per
    crossing; a rotation writes the footer of the file it closes before it
    opens the new file and writes its header. *)
Theorem rotation_on_crossing :
  (forall (st : reader) (msgs : list string) (f : nat) (dir : string),
     log_file st = Some {| fid := f; closed := false |} ->
     log_dir (cfg st) = Some dir ->
     dir <> EmptyString ->
     max_log_size (cfg st) = 20 * 1024 * 1024 ->
     exists st',
       log_all msgs st = (st', Ok tt) /\
       fs st' = (fs st ++ sink_events (cfg st) dir (log_file_size st) f
                            (next_fid st) msgs)%list /\
       next_fid st' =
         (next_fid st
          + rotations (20 * 1024 * 1024) (log_file_size st) msgs)%nat) /\
  (forall (st : reader) (m : string) (f : nat) (dir : string),
     log_file st = Some {| fid := f; closed := false |} ->
     log_dir (cfg st) = Some dir ->
     dir <> EmptyString ->
     max_log_size (cfg st) = 20 * 1024 * 1024 ->
     exists st',
       log_message m st = (st', Ok tt) /\
       (log_file_size st + encoded_size m >= 20 * 1024 * 1024 ->
        fs st' = (fs st ++ [FsWrite f (LogLine m); FsFlush f]
                  ++ rotation_events (cfg st) dir f (next_fid st))%list /\
        log_file_size st' = 0 /\
        next_fid st' = S (next_fid st)) /\
       (log_file_size st + encoded_size m < 20 * 1024 * 1024 ->
        fs st' = (fs st ++ [FsWrite f (LogLine m); FsFlush f])%list /\
        log_file_size st' = log_file_size st + encoded_size m /\
        next_fid st' = next_fid st)) /\
  (forall (c : config) (dir : string) (f g : nat),
     exists header,
       rotation_events c dir f g =
       FsWrite f LogFooter :: FsClose f :: FsMakedirs dir :: FsOpen g
       :: FsWrite g LogBanner :: header).
Proof.
  split; [|split].
  - intros st msgs f dir Hlf Hdir Hne Hmax.
    destruct (log_all_spec msgs st f dir Hlf Hdir Hne) as (st' & E & H1 & H2).
    exists st'. rewrite <- Hmax. auto.
  - intros st m f dir Hlf Hdir Hne Hmax.
    destruct (log_message_open m st f dir Hlf Hdir Hne)
      as (st' & E & _ & Hrot & Hno).
    exists st'. rewrite <- Hmax. split; [exact E|]. split.
    + intros H. destruct (Hrot H) as (H1 & _ & H3 & H4). auto.
    + intros H. destruct (Hno H) as (H1 & _ & H3 & H4). auto.
  - intros c dir f g. eexists. reflexivity.
Qed.

Lemma rotation_on_crossing_witness :
  log_file nearly_full_reader = Some {| fid := 0; closed := false |} /\
  log_dir (cfg nearly_full_reader) = Some "logs"%string /\
  max_log_size (cfg nearly_full_reader) = 20 * 1024 * 1024 /\
  exists st',
    log_all ["a"; "b"]%string nearly_full_reader = (st', Ok tt) /\
    fs st' = (fs nearly_full_reader
              ++ sink_events (cfg nearly_full_reader) "logs"
                   (log_file_size nearly_full_reader) 0
                   (next_fid nearly_full_reader) ["a"; "b"]%string)%list /\
    next_fid st' =
      (next_fid nearly_full_reader
       + rotations (20 * 1024 * 1024) (log_file_size nearly_full_reader)
           ["a"; "b"]%string)%nat.
Proof.
  repeat (split; [reflexivity|]).
  apply (proj1 rotation_on_crossing); first [reflexivity | discriminate].
Defined.

End LogSink.

(** ** Empty chunks *)

Section EmptyChunk.

Import Spec.
Local Open Scope Z_scope.

Lemma with_buffer_same (st : reader) (b : bytes) :
  buffer st = b -> with_buffer b st = st.
Proof. intros <-. destruct st; reflexivity. Qed.

Lemma find_at_start (b sub : bytes) :
  occurs_at sub b 0 -> Bytes.find b sub 0 = 0.
Proof.
  intros H. apply occurs_at_0 in H. unfold Bytes.find. simpl.
  unfold Bytes.len.
  destruct (Z.ltb_spec (Z.of_nat (List.length b)) 0); [lia|].
  destruct b; simpl; rewrite H; reflexivity.
Qed.

Lemma occurs_at_skipn_first (sub b : bytes) (i : nat) :
  occurs_at sub b i -> occurs_at sub (skipn i b) 0.
Proof.
  intros H. pose proof (occurs_at_bound _ _ _ H).
  apply (occurs_at_skipn sub b i 0); [lia|].
  now rewrite Nat.add_0_r.
Qed.

(** A start/end loop that ends normally leaves a settled buffer. *)
Lemma start_end_loop_settled (fuel : nat) (sm em : bytes) :
  sm <> [] ->
  forall st st',
  start_end_loop fuel sm em st = (st', Ok tt) ->
  settled sm em (buffer st').
Proof.
  intros Hsm. unfold settled. rewrite (bytes_truthy_true _ Hsm).
  induction fuel as [|fuel IH]; intros st st' H; [discriminate H|].
  rewrite start_end_loop_S in H. cbv zeta in H.
  destruct (find_cases (buffer st) sm 0) as [[E Habs]|(i & E & Hi)];
    simpl Z.of_nat in E; rewrite E in H.
  - simpl in H. injection H as <-. now left.
  - destruct (Z.eqb_spec (Z.of_nat i) (-1)) as [|_]; [lia|].
    set (st1 := if Z.of_nat i >? 0
                then with_buffer (Bytes.slice_from (Z.of_nat i) (buffer st)) st
                else st) in *.
    assert (Hb1 : buffer st1 = skipn i (buffer st)).
    { unfold st1. destruct (Z.gtb_spec (Z.of_nat i) 0).
      - simpl. apply slice_from_nat.
      - assert (i = 0%nat) by lia. now subst. }
    destruct (Bytes.find (buffer st1) em (Bytes.len sm) =? -1) eqn:E2.
    + injection H as <-. right. apply Z.eqb_eq in E2. split; [|exact E2].
      rewrite Hb1. apply find_at_start. apply occurs_at_skipn_first.
      apply Hi.
    + unfold bind in H.
      destruct (publish (last_timestamp st1)
                  (Bytes.slice_to
                     (Bytes.find (buffer st1) em (Bytes.len sm)
                      + Bytes.len em) (buffer st1))
                  (with_buffer
                     (Bytes.slice_from
                        (Bytes.find (buffer st1) em (Bytes.len sm)
                         + Bytes.len em) (buffer st1)) st1))
        as [st3 [[]|e|]]; try discriminate H.
      exact (IH _ _ H).
Qed.

Lemma end_only_loop_settled (fuel : nat) (em : bytes) :
  forall st st',
  end_only_loop fuel em st = (st', Ok tt) ->
  Bytes.contains (buffer st') em = false.
Proof.
  induction fuel as [|fuel IH]; intros st st' H; [discriminate H|].
  rewrite end_only_loop_S in H.
  destruct (Bytes.contains (buffer st) em) eqn:E.
  - destruct (Bytes.split1 (buffer st) em) as [[|p [|r [|x l]]]|e|];
      try discriminate H.
    unfold bind in H.
    destruct (publish (last_timestamp st) (p ++ em) (with_buffer r st))
      as [st3 [[]|e|]]; try discriminate H.
    exact (IH _ _ H).
  - injection H as <-. exact E.
Qed.

(** On a settled buffer within the cap, an empty chunk changes nothing but
    the time stamp. *)
Lemma ingest_empty_settled (st : reader) (ts : string) (sm em : bytes) :
  buffering (cfg st) ->
  _parse_marker (start_marker (cfg st)) = Ok sm ->
  _parse_marker (end_marker (cfg st)) = Ok em ->
  Bytes.len (buffer st) <= max_buffer_size (cfg st) ->
  settled sm em (buffer st) ->
  ingest [] ts st = (with_last_timestamp (Some ts) st, Ok tt).
Proof.
  intros Hbuf Hs He Hlen Hset.
  rewrite (ingest_buffering st [] ts sm em Hbuf Hs He). cbv zeta.
  rewrite app_nil_r. rewrite cap_buffer_within by assumption.
  set (st1 := with_buffer (buffer st) (with_last_timestamp (Some ts) st)).
  assert (E1 : st1 = with_last_timestamp (Some ts) st).
  { unfold st1. now apply with_buffer_same. }
  rewrite E1. clear st1 E1.
  unfold settled in Hset. destruct (bytes_truthy sm) eqn:Et.
  - rewrite start_end_loop_S. cbv zeta. simpl buffer.
    destruct Hset as [Hnil|[Hf1 Hf2]].
    + rewrite Hnil.
      assert (Ef : Bytes.find [] sm 0 = -1).
      { destruct sm; [discriminate Et|reflexivity]. }
      rewrite Ef. simpl. f_equal. apply with_buffer_same. exact Hnil.
    + rewrite Hf1. simpl. rewrite Hf2. reflexivity.
  - rewrite end_only_loop_S. simpl buffer. rewrite Hset. reflexivity.
Qed.

(** An [ingest] that ends normally leaves a settled buffer within the
    cap. *)
Lemma ingest_settles (st st1 : reader) (data : bytes) (ts : string) :
  buffering (cfg st) ->
  0 < max_buffer_size (cfg st) ->
  ingest data ts st = (st1, Ok tt) ->
  exists sm em,
    _parse_marker (start_marker (cfg st1)) = Ok sm /\
    _parse_marker (end_marker (cfg st1)) = Ok em /\
    buffering (cfg st1) /\
    Bytes.len (buffer st1) <= max_buffer_size (cfg st1) /\
    settled sm em (buffer st1).
Proof.
  intros Hbuf Hmax H.
  destruct (ingest_inv st data ts Hbuf) as (Hc & Hsuf & _).
  rewrite H in Hc, Hsuf. simpl in Hc, Hsuf.
  assert (Hlen : Bytes.len (buffer st1) <= max_buffer_size (cfg st)).
  { pose proof (is_suffix_length _ _ Hsuf).
    pose proof (cap_buffer_length _ (buffer st ++ data) Hmax).
    unfold Bytes.len in *. lia. }
  destruct (_parse_marker (start_marker (cfg st))) as [sm|e|] eqn:Es.
  - destruct (_parse_marker (end_marker (cfg st))) as [em|e|] eqn:Ee.
    + exists sm, em. rewrite Hc. repeat split; auto; try apply Hbuf.
      rewrite (ingest_buffering st data ts sm em Hbuf Es Ee) in H.
      cbv zeta in H. unfold settled.
      destruct (bytes_truthy sm) eqn:Et.
      * pose proof (start_end_loop_settled _ sm em
                      (bytes_truthy_nonempty _ Et) _ _ H) as Hs.
        unfold settled in Hs. now rewrite Et in Hs.
      * exact (end_only_loop_settled _ em _ _ H).
    + exfalso. destruct Hbuf as [Hen Hend]. unfold ingest in H.
      revert H. run_monad.
      assert (Ht : str_truthy (end_marker (cfg st)) = true).
      { destruct (end_marker (cfg st)); [congruence|reflexivity]. }
      rewrite Hen, Ht. simpl.
      destruct (Bytes.len (buffer st ++ data) >? max_buffer_size (cfg st));
        simpl; rewrite Es; simpl; rewrite Ee; discriminate.
    + now apply parse_marker_fuel in Ee.
  - exfalso. destruct Hbuf as [Hen Hend]. unfold ingest in H.
    revert H. run_monad.
    assert (Ht : str_truthy (end_marker (cfg st)) = true).
    { destruct (end_marker (cfg st)); [congruence|reflexivity]. }
    rewrite Hen, Ht. simpl.
    destruct (Bytes.len (buffer st ++ data) >? max_buffer_size (cfg st));
      simpl; rewrite Es; discriminate.
  - now apply parse_marker_fuel in Es.
Qed.

(** C10, as stated, fails.  In pass-through mode the empty chunk is
    emitted as one packet with an empty payload; and in start/end mode a
    buffer that holds no start marker is discarded. *)
Lemma empty_chunk_not_neutral :
  data_received
    (fst (ingest [] "12:00:00.000"
            (__init__ "COM1" 9600 8 None "RX1" false EmptyString EmptyString)))
  = [("RX1"%string, render_message (Some "12:00:00.000"%string) "RX1" EmptyString)] /\
  buffer (with_buffer [xff] example_reader) = [xff] /\
  buffer (fst (ingest [] "12:00:00.000" (with_buffer [xff] example_reader)))
  = [].
Proof. repeat split; reflexivity. Qed.

(** C10, amended.  In a buffering mode, on every state left by an [ingest]
    that ended normally, and on the initial empty buffer when the markers
    resolve, [ingest] with an empty chunk emits no packet, writes nothing
    and leaves the buffer unchanged.  The reader itself never hands an
    empty chunk to [ingest]: a poll that finds no waiting bytes does
    nothing at all, in every mode. *)
Theorem empty_chunk_after_ingest :
  (forall (st st1 : reader) (data : bytes) (ts ts' : string),
     buffer_enabled (cfg st) = true ->
     end_marker (cfg st) <> EmptyString ->
     0 < max_buffer_size (cfg st) ->
     ingest data ts st = (st1, Ok tt) ->
     exists st2,
       ingest [] ts' st1 = (st2, Ok tt) /\
       buffer st2 = buffer st1 /\
       data_received st2 = data_received st1 /\
       fs st2 = fs st1) /\
  (forall (st : reader) (ts : string) (sm em : bytes),
     buffer_enabled (cfg st) = true ->
     end_marker (cfg st) <> EmptyString ->
     _parse_marker (start_marker (cfg st)) = Ok sm ->
     _parse_marker (end_marker (cfg st)) = Ok em ->
     0 <= max_buffer_size (cfg st) ->
     buffer st = [] ->
     exists st2,
       ingest [] ts st = (st2, Ok tt) /\
       buffer st2 = [] /\
       data_received st2 = data_received st /\
       fs st2 = fs st) /\
  (forall (st : reader) (ts : string), poll [] ts st = (st, Ok tt)).
Proof.
  split; [|split].
  - intros st st1 data ts ts' Hen Hem Hmax H.
    destruct (ingest_settles st st1 data ts (conj Hen Hem) Hmax H)
      as (sm & em & Hs & He & Hbuf & Hlen & Hset).
    exists (with_last_timestamp (Some ts') st1).
    split; [|repeat split].
    exact (ingest_empty_settled st1 ts' sm em Hbuf Hs He Hlen Hset).
  - intros st ts sm em Hen Hem Hs He Hmax Hb.
    exists (with_last_timestamp (Some ts) st).
    split; [|repeat split; simpl; auto].
    apply (ingest_empty_settled st ts sm em); auto.
    + now split.
    + rewrite Hb. unfold Bytes.len. simpl. lia.
    + unfold settled. rewrite Hb. destruct (bytes_truthy sm); [now left|].
      pose proof (parse_marker_nonempty _ _ Hem He) as Hne.
      destruct em; [congruence|reflexivity].
  - intros st ts. reflexivity.
Qed.

Lemma empty_chunk_after_ingest_witness :
  buffer_enabled (cfg example_reader) = true /\
  end_marker (cfg example_reader) <> EmptyString /\
  0 < max_buffer_size (cfg example_reader) /\
  exists st2,
    ingest [] "12:00:00.001"
      (fst (ingest [x02; x41] "12:00:00.000" example_reader))
    = (st2, Ok tt) /\
    buffer st2
    = buffer (fst (ingest [x02; x41] "12:00:00.000" example_reader)) /\
    data_received st2
    = data_received (fst (ingest [x02; x41] "12:00:00.000" example_reader)) /\
    fs st2 = fs (fst (ingest [x02; x41] "12:00:00.000" example_reader)).
Proof.
  repeat (split; [first [reflexivity | discriminate]|]).
  apply (proj1 empty_chunk_after_ingest example_reader _ [x02; x41]
           "12:00:00.000"%string);
    first [reflexivity | discriminate].
Defined.

End EmptyChunk.

(** ** The pending-display queue *)

Section Coordinator.

Local Open Scope Z_scope.
Local Opaque String.concat.

Lemma newest_length (n : nat) (q : list string) :
  List.length (newest n q) = Nat.min n (List.length q).
Proof. unfold newest. rewrite length_skipn. lia. Qed.

Lemma newest_all (n : nat) (q : list string) :
  (List.length q <= n)%nat -> newest n q = q.
Proof.
  intros H. unfold newest.
  replace (List.length q - n)%nat with 0%nat by lia. reflexivity.
Qed.

Lemma newest_tail (n : nat) (x : string) (q : list string) :
  (n < List.length (x :: q))%nat -> newest n (x :: q) = newest n q.
Proof.
  intros H. unfold newest.
  change (List.length (x :: q)) with (S (List.length q)) in *.
  replace (S (List.length q) - n)%nat with (S (List.length q - n)) by lia.
  reflexivity.
Qed.

(** The [popleft] loop keeps the newest entries, up to the maximum. *)
Lemma drop_oldest_spec (fuel : nat) :
  forall st,
  0 <= ComSniffer.max_pending_display (ComSniffer.conf st) ->
  (List.length (ComSniffer.pending_display st) < fuel)%nat ->
  exists st',
    ComSniffer.drop_oldest fuel st = (st', Ok tt) /\
    ComSniffer.conf st' = ComSniffer.conf st /\
    ComSniffer.display_text st' = ComSniffer.display_text st /\
    ComSniffer.pending_display st' =
      newest (Z.to_nat (ComSniffer.max_pending_display (ComSniffer.conf st)))
             (ComSniffer.pending_display st).
Proof.
  induction fuel as [|fuel IH]; intros st Hmax Hfuel; [lia|].
  simpl. run_monad. unfold ComSniffer.qlen.
  destruct (Z.gtb_spec (Z.of_nat (List.length (ComSniffer.pending_display st)))
              (ComSniffer.max_pending_display (ComSniffer.conf st)))
    as [Hgt|Hle].
  - unfold ComSniffer.popleft. run_monad.
    destruct (ComSniffer.pending_display st) as [|x q] eqn:Eq;
      [simpl in Hgt; lia|].
    destruct (IH (ComSniffer.with_pending_display q st))
      as (st' & E & Hc & Hd & Hq); [exact Hmax|simpl in *; lia|].
    exists st'. rewrite E. simpl in *. repeat split; auto.
    rewrite Hq. symmetry. apply newest_tail. simpl. lia.
  - exists st. repeat split; auto. symmetry. apply newest_all. lia.
Qed.

Lemma enqueue_log_frame (data : string) (st : ComSniffer.sniffer) :
  exists st',
    ComSniffer.enqueue_log data st = (st', Ok tt) /\
    ComSniffer.conf st' = ComSniffer.conf st /\
    ComSniffer.display_text st' = ComSniffer.display_text st /\
    ComSniffer.pending_display st' = ComSniffer.pending_display st.
Proof.
  unfold ComSniffer.enqueue_log. run_monad.
  destruct (ComSniffer.log_file st); simpl.
  - match goal with
    | |- context [if ?c then _ else _] => destruct c
    end; eexists; (split; [reflexivity|]); simpl; auto.
  - eexists. split; [reflexivity|]. auto.
Qed.

(** [flush_pending] moves the whole display queue to the display. *)
Lemma flush_pending_spec (st : ComSniffer.sniffer) :
  exists st',
    ComSniffer.flush_pending st = (st', Ok tt) /\
    ComSniffer.conf st' = ComSniffer.conf st /\
    ComSniffer.pending_display st' = [] /\
    ComSniffer.display_text st' =
      match ComSniffer.pending_display st with
      | [] => ComSniffer.display_text st
      | q => (ComSniffer.display_text st ++ [String.concat EmptyString q])%list
      end.
Proof.
  unfold ComSniffer.flush_pending, ComSniffer.open_new_log_file. run_monad.
  destruct (ComSniffer.pending_display st) as [|x q] eqn:Ed; simpl;
    destruct (ComSniffer.log_file st) as [f|] eqn:El; simpl;
    destruct (ComSniffer.pending_log st) as [|y l]; simpl;
    try (eexists; (split; [reflexivity|]); simpl; rewrite ?Ed; now auto).
  - repeat match goal with
           | |- context [Z.geb ?a ?b] => destruct (Z.geb a b); simpl
           end;
      rewrite ?El; simpl; eexists; (split; [reflexivity|]); simpl;
      rewrite ?Ed; auto.
  - repeat match goal with
           | |- context [Z.geb ?a ?b] => destruct (Z.geb a b); simpl
           end;
      rewrite ?El; simpl; eexists; (split; [reflexivity|]); simpl;
      rewrite ?Ed; auto.
Qed.

Lemma on_data_received_spec (label data : string) (st : ComSniffer.sniffer) :
  0 <= ComSniffer.max_pending_display (ComSniffer.conf st) ->
  let kept :=
    newest (Z.to_nat (ComSniffer.max_pending_display (ComSniffer.conf st)))
           (ComSniffer.pending_display st ++ [data]) in
  exists st',
    ComSniffer.on_data_received label data st = (st', Ok tt) /\
    ComSniffer.conf st' = ComSniffer.conf st /\
    ((ComSniffer.pending_display st' = kept /\
      ComSniffer.display_text st' = ComSniffer.display_text st) \/
     (ComSniffer.pending_display st' = [] /\
      ComSniffer.display_text st' =
        (ComSniffer.display_text st ++ [String.concat EmptyString kept])%list)).
Proof.
  intros Hmax kept. unfold ComSniffer.on_data_received.
  unfold bind at 1. unfold modify at 1.
  set (st1 := ComSniffer.with_pending_display
                (ComSniffer.pending_display st ++ [data]) st).
  unfold bind at 1. unfold get at 1. unfold bind at 1.
  assert (H1 : exists st2,
             (if ComSniffer.qlen (ComSniffer.pending_display st1)
                 >? ComSniffer.max_pending_display (ComSniffer.conf st1)
              then ComSniffer.drop_oldest
                     (S (List.length (ComSniffer.pending_display st1)))
              else ret tt) st1 = (st2, Ok tt) /\
             ComSniffer.conf st2 = ComSniffer.conf st /\
             ComSniffer.display_text st2 = ComSniffer.display_text st /\
             ComSniffer.pending_display st2 = kept).
  { destruct (Z.gtb_spec (ComSniffer.qlen (ComSniffer.pending_display st1))
                (ComSniffer.max_pending_display (ComSniffer.conf st1)))
      as [Hgt|Hle].
    - destruct (drop_oldest_spec
                  (S (List.length (ComSniffer.pending_display st1))) st1)
        as (st2 & E & Hc & Hd & Hq); [exact Hmax|lia|].
      exists st2. repeat split; auto.
    - exists st1. repeat split; auto. unfold kept.
      unfold st1, ComSniffer.qlen in Hle. simpl in Hle.
      unfold st1. simpl. symmetry. apply newest_all. lia. }
  destruct H1 as (st2 & E2 & Hc2 & Hd2 & Hq2). rewrite E2.
  unfold bind at 1.
  destruct (enqueue_log_frame data st2) as (st3 & E3 & Hc3 & Hd3 & Hq3).
  rewrite E3. unfold bind at 1. unfold get at 1.
  destruct (ComSniffer.qlen (ComSniffer.pending_display st3) >=? 1000).
  - destruct (flush_pending_spec st3) as (st4 & E4 & Hc4 & Hq4 & Hd4).
    exists st4. split; [exact E4|]. split; [congruence|].
    rewrite Hq3, Hq2 in Hd4. destruct kept as [|x q] eqn:Ek.
    + left. split; [assumption|congruence].
    + right. split; [assumption|]. rewrite Hd4. congruence.
  - exists st3. split; [reflexivity|]. split; [congruence|].
    left. split; congruence.
Qed.

Lemma newest_suffix (n : nat) (q : list string) :
  exists dropped, q = (dropped ++ newest n q)%list.
Proof.
  exists (firstn (List.length q - n) q). unfold newest.
  now rewrite firstn_skipn.
Qed.

Lemma newest_keeps_last (n : nat) (q : list string) (x : string) :
  (1 <= n)%nat -> exists older, newest n (q ++ [x]) = (older ++ [x])%list.
Proof.
  intros Hn. unfold newest. rewrite length_app. simpl.
  rewrite skipn_app.
  replace (List.length q + 1 - n - List.length q)%nat with 0%nat by lia.
  simpl. eauto.
Qed.

(** C9.  Every enqueue on the pending-display queue ends normally and
    leaves at most the configured maximum of entries in the queue; what it
    keeps (in the queue, or handed to the display when the queue is
    flushed) is the newest entries of the queue with the new line appended,
    so only the oldest entries are dropped and the new line is retained.
    The bound holds after each enqueue of any sequence; the maximum set by
    the constructor is 20000. *)
Theorem display_queue_bounded :
  (forall (st : ComSniffer.sniffer) (label data : string),
     0 <= ComSniffer.max_pending_display (ComSniffer.conf st) ->
     let limit :=
       Z.to_nat (ComSniffer.max_pending_display (ComSniffer.conf st)) in
     let kept := newest limit (ComSniffer.pending_display st ++ [data]) in
     exists st',
       ComSniffer.on_data_received label data st = (st', Ok tt) /\
       ComSniffer.qlen (ComSniffer.pending_display st')
         <= ComSniffer.max_pending_display (ComSniffer.conf st) /\
       ((ComSniffer.pending_display st' = kept /\
         ComSniffer.display_text st' = ComSniffer.display_text st) \/
        (ComSniffer.pending_display st' = [] /\
         ComSniffer.display_text st' =
           (ComSniffer.display_text st ++ [String.concat EmptyString kept])%list)) /\
       (exists dropped,
          (ComSniffer.pending_display st ++ [data])%list
          = (dropped ++ kept)%list) /\
       (1 <= ComSniffer.max_pending_display (ComSniffer.conf st) ->
        exists older, kept = (older ++ [data])%list)) /\
  (forall (st : ComSniffer.sniffer) (items : list (string * string)),
     0 <= ComSniffer.max_pending_display (ComSniffer.conf st) ->
     ComSniffer.qlen (ComSniffer.pending_display st)
       <= ComSniffer.max_pending_display (ComSniffer.conf st) ->
     exists st',
       enqueue_all items st = (st', Ok tt) /\
       ComSniffer.qlen (ComSniffer.pending_display st')
         <= ComSniffer.max_pending_display (ComSniffer.conf st)) /\
  (forall d p1 b1 p2 b2,
     ComSniffer.max_pending_display
       (ComSniffer.conf (ComSniffer.__init__ d p1 b1 p2 b2)) = 20000).
Proof.
  assert (Hstep : forall (st : ComSniffer.sniffer) (label data : string),
     0 <= ComSniffer.max_pending_display (ComSniffer.conf st) ->
     exists st',
       ComSniffer.on_data_received label data st = (st', Ok tt) /\
       ComSniffer.conf st' = ComSniffer.conf st /\
       ComSniffer.qlen (ComSniffer.pending_display st')
         <= ComSniffer.max_pending_display (ComSniffer.conf st) /\
       ((ComSniffer.pending_display st' =
           newest (Z.to_nat (ComSniffer.max_pending_display
                               (ComSniffer.conf st)))
                  (ComSniffer.pending_display st ++ [data]) /\
         ComSniffer.display_text st' = ComSniffer.display_text st) \/
        (ComSniffer.pending_display st' = [] /\
         ComSniffer.display_text st' =
           (ComSniffer.display_text st ++
            [String.concat EmptyString
               (newest (Z.to_nat (ComSniffer.max_pending_display
                                    (ComSniffer.conf st)))
                       (ComSniffer.pending_display st ++ [data]))])%list))).
  { intros st label data Hmax.
    destruct (on_data_received_spec label data st Hmax)
      as (st' & E & Hc & Hk).
    exists st'. repeat split; auto.
    unfold ComSniffer.qlen. destruct Hk as [[Hq _]|[Hq _]]; rewrite Hq.
    - rewrite newest_length. lia.
    - simpl. lia. }
  split; [|split].
  - intros st label data Hmax limit kept.
    destruct (Hstep st label data Hmax) as (st' & E & _ & Hl & Hk).
    exists st'. repeat split; auto.
    + apply newest_suffix.
    + intros H1. apply newest_keeps_last. lia.
  - intros st items. revert st.
    induction items as [|[label data] rest IH]; intros st Hmax Hlen.
    + exists st. split; [reflexivity|assumption].
    + destruct (Hstep st label data Hmax) as (st1 & E & Hc & Hl & _).
      destruct (IH st1) as (st' & E' & Hl'); try (rewrite Hc; assumption).
      exists st'. simpl. unfold bind. rewrite E. rewrite Hc in Hl'.
      split; assumption.
  - reflexivity.
Qed.

Lemma display_queue_bounded_witness :
  0 <= ComSniffer.max_pending_display
         (ComSniffer.conf (ComSniffer.__init__ "logs" "COM1" "9600"
                             "COM2" "9600")) /\
  exists st',
    ComSniffer.on_data_received "RX1" "line"
      (ComSniffer.__init__ "logs" "COM1" "9600" "COM2" "9600")
    = (st', Ok tt) /\
    ComSniffer.qlen (ComSniffer.pending_display st') <= 20000.
Proof.
  split; [discriminate|].
  destruct (proj1 display_queue_bounded
              (ComSniffer.__init__ "logs" "COM1" "9600" "COM2" "9600")
              "RX1"%string "line"%string)
    as (st' & E & Hl & _); [discriminate|].
  exists st'. split; [exact E|exact Hl].
Defined.

End Coordinator.

(** * Further properties of the code *)

(** ** The checksum *)

Section Checksum.

Local Open Scope Z_scope.

(** A property checked on every value of a byte holds of every value in
    range. *)
Lemma byte_range_check (f : Z -> bool) :
  forallb f (map Z.of_nat (seq 0 256)) = true ->
  forall x, 0 <= x < 256 -> f x = true.
Proof.
  intros H x Hx. rewrite forallb_forall in H. apply H.
  rewrite <- (Z2Nat.id x) by lia. apply in_map. apply in_seq. lia.
Qed.

Lemma lxor_byte_range (a b : Z) :
  0 <= a < 256 -> 0 <= b < 256 -> 0 <= Z.lxor a b < 256.
Proof.
  intros Ha Hb.
  pose proof (byte_range_check
    (fun a => forallb (fun b => (0 <=? Z.lxor a b) && (Z.lxor a b <? 256))
                      (map Z.of_nat (seq 0 256)))) as H.
  assert (H1 : forallb (fun b => (0 <=? Z.lxor a b) && (Z.lxor a b <? 256))
                 (map Z.of_nat (seq 0 256)) = true).
  { apply H; [vm_compute; reflexivity|assumption]. }
  pose proof (byte_range_check _ H1 b Hb) as H2.
  apply andb_true_iff in H2. destruct H2 as [H2 H3].
  apply Z.leb_le in H2. apply Z.ltb_lt in H3. lia.
Qed.

Lemma byte_value_range (b : byte) : 0 <= Z.of_N (Byte.to_N b) < 256.
Proof. pose proof (Byte.to_N_bounded b). lia. Qed.

Lemma xor_fold_range (data : bytes) :
  forall acc, 0 <= acc < 256 ->
  0 <= fold_left (fun acc b => Z.lxor acc (Z.of_N (Byte.to_N b))) data acc
    < 256.
Proof.
  induction data as [|b data IH]; intros acc Hacc; simpl; [assumption|].
  apply IH. apply lxor_byte_range; [assumption|apply byte_value_range].
Qed.

(** X1. [calculate_lrc] returns a byte value which, added to the XOR of
    the data, gives 0 modulo 256; it is 0 exactly when the XOR is 0. *)
Theorem lrc_negates_xor (data : bytes) :
  0 <= calculate_lrc data < 256 /\
  (xor_all data + calculate_lrc data) mod 256 = 0 /\
  (calculate_lrc data = 0 <-> xor_all data = 0).
Proof.
  unfold calculate_lrc, xor_all.
  pose proof (xor_fold_range data 0 ltac:(lia)) as Hx.
  set (x := fold_left _ data 0) in *.
  pose proof (byte_range_check
    (fun x => let l := Z.land (Z.lxor x 255 + 1) 255 in
              (0 <=? l) && (l <? 256) && ((x + l) mod 256 =? 0)
              && Bool.eqb (l =? 0) (x =? 0))
    ltac:(vm_compute; reflexivity) x Hx) as H.
  cbv zeta in H. rewrite !andb_true_iff in H.
  destruct H as (((H1 & H2) & H3) & H4).
  apply Z.leb_le in H1. apply Z.ltb_lt in H2. apply Z.eqb_eq in H3.
  apply Bool.eqb_prop in H4.
  repeat split; try assumption.
  - intros E. apply Z.eqb_eq. rewrite <- H4. now apply Z.eqb_eq.
  - intros E. apply Z.eqb_eq. rewrite H4. now apply Z.eqb_eq.
Qed.

End Checksum.

(** ** More on the marker resolver *)

Section ResolverMore.

Import Spec.
Local Open Scope Z_scope.

Lemma decimal_digits_all (s : Str.str) :
  forall acc n,
  decimal_digits acc s = Some n ->
  forallb (fun c => Str.between 48 c 57) s = true.
Proof.
  induction s as [|c t IH]; intros acc n H; simpl in *; [reflexivity|].
  destruct (Str.between 48 c 57); [|discriminate]. simpl. eauto.
Qed.

Lemma between_digit (c : N) :
  Str.between 48 c 57 = true -> (48 <= c <= 57)%N.
Proof.
  unfold Str.between. intros H. apply andb_true_iff in H.
  destruct H as [H1 H2]. apply N.leb_le in H1, H2. lia.
Qed.

Lemma isdigit_cp_ascii (c : N) :
  Str.between 48 c 57 = true -> Str.isdigit_cp c = true.
Proof. intros H. unfold Str.isdigit_cp. now rewrite H. Qed.

Lemma lower_cp_digit (c : N) :
  Str.between 48 c 57 = true -> Str.lower_cp c = c.
Proof.
  intros H. apply between_digit in H. unfold Str.lower_cp, Str.between.
  destruct (N.leb_spec 65 c); [lia|]. simpl.
  destruct (N.leb_spec 192 c); [lia|]. simpl.
  destruct (N.eqb_spec c 376); [lia|].
  destruct (N.eqb_spec c 924); [lia|]. reflexivity.
Qed.

Lemma startswith_cons (a b : N) (p s : Str.str) :
  Str.startswith (b :: s) (a :: p) = ((a =? b)%N && Str.startswith s p).
Proof. reflexivity. Qed.

(** How a text of decimal digits resolves. *)
Lemma parse_marker_decimal (text : string) (v : Z) :
  decimal_value (Str.upper (Str.strip (Str.code_points text))) = Some v ->
  _parse_marker text =
  if (v <=? 255)
     && (N.of_nat (List.length
                     (Str.upper (Str.strip (Str.code_points text))))
         <=? Str.max_str_digits)%N
  then Ok [Bytes.byte_of_N (Z.to_N v)] else Raise ValueError.
Proof.
  intros H. destruct text as [|a s]; [discriminate H|].
  unfold _parse_marker.
  set (mu := Str.upper (Str.strip (Str.code_points (String a s)))) in *.
  pose proof (int_decimal mu v H) as Hint.
  destruct mu as [|c t]; [discriminate H|].
  unfold decimal_value in H.
  destruct (decimal_digits 0 (c :: t)) as [n|] eqn:En; [|discriminate H].
  injection H as <-.
  pose proof (decimal_digits_all _ _ _ En) as Hall. cbn [forallb] in Hall.
  apply andb_true_iff in Hall. destruct Hall as [Hc Ht].
  pose proof (between_digit c Hc) as Hcr.
  assert (E1 : Str.eqb (c :: t) (Str.code_points "STX") = false).
  { unfold Str.eqb. change (Str.code_points "STX") with [83; 84; 88]%N.
    rewrite startswith_cons. destruct (N.eqb_spec 83 c); [lia|].
    cbn [andb]. apply andb_false_r. }
  assert (E2 : Str.eqb (c :: t) (Str.code_points "ETX") = false).
  { unfold Str.eqb. change (Str.code_points "ETX") with [69; 84; 88]%N.
    rewrite startswith_cons. destruct (N.eqb_spec 69 c); [lia|].
    cbn [andb]. apply andb_false_r. }
  assert (E3 : Str.startswith (Str.lower (c :: t)) (Str.code_points "0x")
               = false).
  { change (Str.code_points "0x") with [48; 120]%N.
    unfold Str.lower. cbn [map]. rewrite startswith_cons.
    destruct t as [|d t']; cbn [map]; [apply andb_false_r|].
    rewrite startswith_cons.
    simpl in Ht. apply andb_true_iff in Ht. destruct Ht as [Hd _].
    rewrite (lower_cp_digit d Hd). apply between_digit in Hd.
    destruct (N.eqb_spec 120 d); [lia|]. cbn [andb]. apply andb_false_r. }
  assert (E4 : Str.isdigit (c :: t) = true).
  { unfold Str.isdigit. cbn [forallb]. rewrite (isdigit_cp_ascii c Hc).
    cbn [andb]. clear -Ht. induction t as [|d t IH]; [reflexivity|].
    cbn [forallb] in *. apply andb_true_iff in Ht. destruct Ht as [Hd Ht].
    now rewrite (isdigit_cp_ascii d Hd), IH. }
  rewrite E1, E2, E3, E4, Hint. unfold Bytes.of_int.
  destruct (N.of_nat (List.length (c :: t)) <=? Str.max_str_digits)%N;
    [|now rewrite andb_false_r].
  rewrite andb_true_r.
  destruct (Z.leb_spec 0 (Z.of_N n)); [|lia].
  destruct (Z.leb_spec (Z.of_N n) 255); destruct (Z.ltb_spec (Z.of_N n) 256);
    try lia; reflexivity.
Qed.

(** X2. A marker text that, once trimmed, is a decimal number of at most
    4300 digits resolves to the single byte of its value when the value is
    at most 255; it raises [ValueError], which is not caught, when the
    value is larger or when it has more than 4300 digits, whatever the
    value. *)
Theorem decimal_marker_byte_or_error (text : string) (v : Z) :
  let marker_upper := Str.upper (Str.strip (Str.code_points text)) in
  decimal_value marker_upper = Some v ->
  (v <= 255 ->
   (N.of_nat (List.length marker_upper) <= Str.max_str_digits)%N ->
   _parse_marker text = Ok [Bytes.byte_of_N (Z.to_N v)]) /\
  (255 < v \/
   (Str.max_str_digits < N.of_nat (List.length marker_upper))%N ->
   _parse_marker text = Raise ValueError).
Proof.
  intros marker_upper H. rewrite (parse_marker_decimal text v H).
  fold marker_upper.
  destruct (Z.leb_spec v 255);
    destruct (N.leb_spec (N.of_nat (List.length marker_upper))
                Str.max_str_digits);
    split; intros; try lia; try reflexivity.
Qed.

Lemma decimal_marker_byte_or_error_witness :
  (decimal_value (Str.upper (Str.strip (Str.code_points " 300 ")))
     = Some 300 /\
   _parse_marker " 300 " = Raise ValueError) /\
  (decimal_value (Str.upper (Str.strip (Str.code_points " 13 ")))
     = Some 13 /\
   _parse_marker " 13 " = Ok [x0d]) /\
  (decimal_value
     (Str.upper (Str.strip (Str.code_points (zeros_then_seven 4300))))
     = Some 7 /\
   _parse_marker (zeros_then_seven 4300) = Raise ValueError).
Proof.
  split; [|split].
  - split; [reflexivity|].
    apply (proj2 (decimal_marker_byte_or_error " 300 " 300 eq_refl)).
    left. reflexivity.
  - split; [reflexivity|].
    apply (proj1 (decimal_marker_byte_or_error " 13 " 13 eq_refl));
      vm_compute; discriminate.
  - assert (E : decimal_value
                  (Str.upper (Str.strip
                     (Str.code_points (zeros_then_seven 4300))))
                = Some 7) by (vm_compute; reflexivity).
    split; [exact E|].
    apply (proj2 (decimal_marker_byte_or_error (zeros_then_seven 4300) 7 E)).
    right. vm_compute. reflexivity.
Defined.

(** X3. A marker text that is not empty resolves, when it resolves, to a
    marker that is not empty: either a single byte (keyword or number) or
    the encoded text itself. *)
Theorem marker_single_byte_or_text (text : string) (b : bytes) :
  text <> EmptyString ->
  _parse_marker text = Ok b ->
  b <> [] /\ (List.length b = 1%nat \/ b = Bytes.encode_utf8 text).
Proof.
  intros Hne H. split; [exact (parse_marker_nonempty text b Hne H)|].
  destruct text as [|a s]; [congruence|].
  destruct (parse_marker_cases a s)
    as [E|[E|[E|[(v & c & _ & _ & E)|(_ & _ & E)]]]];
    rewrite E in H; try discriminate H; injection H as <-; auto.
Qed.

Lemma marker_single_byte_or_text_witness :
  "0x7E"%string <> EmptyString /\
  _parse_marker "0x7E" = Ok [x7e] /\
  [x7e] <> [] /\
  (List.length [x7e] = 1%nat \/ [x7e] = Bytes.encode_utf8 "0x7E").
Proof.
  split; [discriminate|]. split; [reflexivity|].
  apply (marker_single_byte_or_text "0x7E" [x7e]);
    [discriminate|reflexivity].
Defined.

End ResolverMore.

(** ** More on the frame extractor *)

Section FramingMore.

Import Spec.
Local Open Scope Z_scope.

(** X4. When buffering is disabled, or enabled with an empty end-marker
    text, [ingest] is a pass-through: it emits the chunk as exactly one
    packet and leaves the buffer untouched. *)
Theorem pass_through_emits_chunk (st : reader) (data : bytes) (ts : string) :
  buffer_enabled (cfg st) = false \/ end_marker (cfg st) = EmptyString ->
  log_ok st ->
  exists st',
    ingest data ts st = (st', Ok tt) /\
    buffer st' = buffer st /\
    data_received st' =
      (data_received st ++ messages (cfg st) (Some ts) [data])%list.
Proof.
  intros Hmode Hok. unfold ingest. run_monad.
  assert (E : buffer_enabled (cfg st) && str_truthy (end_marker (cfg st))
              = false).
  { destruct Hmode as [-> | ->]; [reflexivity|apply andb_false_r]. }
  rewrite E.
  destruct (publish_ok (Some ts) data (with_last_timestamp (Some ts) st))
    as (st' & Ep & _ & Hc & Hb & _ & Hd); [exact Hok|].
  exists st'. repeat split; assumption.
Qed.

Lemma pass_through_emits_chunk_witness :
  end_marker (cfg (monitored_reader "RX1" "COM1" 9600 8 true
                     EmptyString "STX")) = EmptyString /\
  exists st',
    ingest [x41; x03] "12:00:00.000"
      (monitored_reader "RX1" "COM1" 9600 8 true EmptyString "STX")
    = (st', Ok tt) /\
    buffer st' = [] /\
    data_received st' =
      [("RX1"%string,
        render_message (Some "12:00:00.000"%string) "RX1" "41 03")].
Proof.
  split; [reflexivity|].
  apply (pass_through_emits_chunk
           (monitored_reader "RX1" "COM1" 9600 8 true EmptyString "STX")
           [x41; x03] "12:00:00.000").
  - right. reflexivity.
  - exact I.
Defined.

(** X5. In a buffering mode, when a marker text does not resolve, every
    [ingest] raises the resolver's exception: nothing is emitted or
    written, while the chunk is still appended to the buffer under the
    cap.  This is the case of an end-marker text that is a decimal number
    above 255. *)
Theorem unresolvable_marker_raises :
  (forall (st : reader) (data : bytes) (ts : string) (e : exn),
     buffer_enabled (cfg st) = true ->
     end_marker (cfg st) <> EmptyString ->
     (_parse_marker (start_marker (cfg st)) = Raise e \/
      (exists sm, _parse_marker (start_marker (cfg st)) = Ok sm /\
                  _parse_marker (end_marker (cfg st)) = Raise e)) ->
     exists st',
       ingest data ts st = (st', Raise e) /\
       buffer st' =
         cap_buffer (max_buffer_size (cfg st)) (buffer st ++ data) /\
       data_received st' = data_received st /\
       fs st' = fs st) /\
  (forall (st : reader) (data : bytes) (ts : string) (v : Z),
     buffer_enabled (cfg st) = true ->
     decimal_value
       (Str.upper (Str.strip (Str.code_points (end_marker (cfg st)))))
       = Some v ->
     255 < v ->
     start_marker (cfg st) = EmptyString ->
     snd (ingest data ts st) = Raise ValueError /\
     data_received (fst (ingest data ts st)) = data_received st).
Proof.
  assert (Hgen : forall (st : reader) (data : bytes) (ts : string) (e : exn),
     buffer_enabled (cfg st) = true ->
     end_marker (cfg st) <> EmptyString ->
     (_parse_marker (start_marker (cfg st)) = Raise e \/
      (exists sm, _parse_marker (start_marker (cfg st)) = Ok sm /\
                  _parse_marker (end_marker (cfg st)) = Raise e)) ->
     ingest data ts st =
     (with_buffer (cap_buffer (max_buffer_size (cfg st)) (buffer st ++ data))
        (with_last_timestamp (Some ts) st), Raise e)).
  { intros st data ts e Hen Hend Hp. unfold ingest. run_monad.
    assert (Ht : str_truthy (end_marker (cfg st)) = true).
    { destruct (end_marker (cfg st)); [congruence|reflexivity]. }
    rewrite Hen, Ht. simpl. unfold cap_buffer.
    destruct Hp as [Es|(sm & Es & Ee)];
      destruct (Bytes.len (buffer st ++ data) >? max_buffer_size (cfg st));
      simpl; rewrite Es; simpl; try rewrite Ee; reflexivity. }
  split.
  - intros st data ts e Hen Hend Hp.
    rewrite (Hgen st data ts e Hen Hend Hp).
    eexists. split; [reflexivity|]. repeat split.
  - intros st data ts v Hen Hv Hgt Hsm.
    assert (Hend : end_marker (cfg st) <> EmptyString).
    { intros E. rewrite E in Hv. discriminate Hv. }
    rewrite (Hgen st data ts ValueError Hen Hend).
    + split; reflexivity.
    + right. exists []. split; [now rewrite Hsm|].
      rewrite (parse_marker_decimal _ v Hv).
      destruct (Z.leb_spec v 255); [lia|reflexivity].
Qed.

Lemma unresolvable_marker_raises_witness :
  buffer_enabled
    (cfg (monitored_reader "RX1" "COM1" 9600 8 true "256" EmptyString))
    = true /\
  snd (ingest [x41] "12:00:00.000"
         (monitored_reader "RX1" "COM1" 9600 8 true "256" EmptyString))
    = Raise ValueError /\
  data_received
    (fst (ingest [x41] "12:00:00.000"
            (monitored_reader "RX1" "COM1" 9600 8 true "256" EmptyString)))
    = [].
Proof.
  split; [reflexivity|].
  apply (proj2 unresolvable_marker_raises
           (monitored_reader "RX1" "COM1" 9600 8 true "256" EmptyString)
           [x41] "12:00:00.000"%string 256);
    first [reflexivity | lia].
Defined.

Lemma occurs_at_iff (sub b : bytes) (j : nat) :
  occurs_at sub b j <->
  (j + List.length sub <= List.length b)%nat /\
  firstn (List.length sub) (skipn j b) = sub.
Proof.
  split.
  - intros H. split; [now apply occurs_at_bound|].
    destruct H as (pre & post & -> & <-).
    rewrite skipn_app, Nat.sub_diag, skipn_all. simpl.
    replace (List.length sub) with (List.length sub + 0)%nat at 1 by lia.
    rewrite firstn_app_2. simpl. apply app_nil_r.
  - intros [Hb Hf]. exists (firstn j b), (skipn (List.length sub) (skipn j b)).
    split.
    + rewrite <- Hf at 1. rewrite firstn_skipn. now rewrite firstn_skipn.
    + rewrite length_firstn. lia.
Qed.

Lemma occurs_at_app (sub b d : bytes) (j : nat) :
  occurs_at sub b j -> occurs_at sub (b ++ d) j.
Proof.
  intros (pre & post & -> & <-). exists pre, (post ++ d)%list.
  split; [now rewrite <- !app_assoc|reflexivity].
Qed.

Lemma occurs_at_app_inv (sub b d : bytes) (j : nat) :
  occurs_at sub (b ++ d) j ->
  (j + List.length sub <= List.length b)%nat ->
  occurs_at sub b j.
Proof.
  intros H Hb. apply occurs_at_iff in H. destruct H as [_ Hf].
  apply occurs_at_iff. split; [assumption|].
  rewrite skipn_app in Hf.
  replace (j - List.length b)%nat with 0%nat in Hf by lia. simpl in Hf.
  rewrite firstn_app in Hf.
  replace (List.length sub - List.length (skipn j b))%nat with 0%nat in Hf
    by (rewrite length_skipn; lia).
  simpl in Hf. now rewrite app_nil_r in Hf.
Qed.

Lemma first_from_app (sub b d : bytes) (i : nat) :
  first_from sub b 0 i -> first_from sub (b ++ d) 0 i.
Proof.
  intros (Hk & Ho & Hmin). repeat split; [assumption| |].
  - now apply occurs_at_app.
  - intros j Hj Hji Hc. apply (Hmin j Hj Hji).
    apply (occurs_at_app_inv sub b d j Hc).
    apply occurs_at_bound in Ho. lia.
Qed.

(** What the end-marker-only frames are made of. *)
Lemma end_only_frames_parts (em b : bytes) (packets : list bytes)
  (rest : bytes) :
  end_only_frames em b packets rest ->
  (List.concat packets ++ rest)%list = b /\
  Forall (fun p => exists body,
            p = (body ++ em)%list /\
            forall j, (j < List.length body)%nat -> ~ occurs_at em p j)
         packets /\
  absent_from em rest 0.
Proof.
  induction 1 as [b Habs|b i ps r Hi H IH].
  - repeat split; auto.
  - destruct IH as (Hcat & Hall & Habs).
    destruct Hi as (_ & Ho & Hmin).
    repeat split; auto.
    + simpl. rewrite <- app_assoc, Hcat. apply firstn_skipn.
    + constructor; [|assumption].
      exists (firstn i b). split; [now apply occurs_at_firstn|].
      intros j Hj Hc. rewrite length_firstn in Hj.
      apply (Hmin j); [lia|lia|].
      rewrite <- (firstn_skipn (i + List.length em) b).
      now apply occurs_at_app.
Qed.

(** Splitting the input of the end-marker-only loop in two does not
    change its frames. *)
Lemma end_only_frames_app (em b : bytes) (packets : list bytes)
  (rest : bytes) :
  end_only_frames em b packets rest ->
  forall (d : bytes) (packets' : list bytes) (rest' : bytes),
  end_only_frames em (rest ++ d) packets' rest' ->
  end_only_frames em (b ++ d) (packets ++ packets') rest'.
Proof.
  induction 1 as [b Habs|b i ps r Hi H IH]; intros d ps' r' H'.
  - exact H'.
  - pose proof (occurs_at_bound _ _ _ (proj1 (proj2 Hi))) as Hb.
    simpl.
    replace (firstn (i + List.length em) b)
      with (firstn (i + List.length em) (b ++ d)).
    + apply eo_frame with (i := i); [now apply first_from_app|].
      rewrite skipn_app.
      replace (i + List.length em - List.length b)%nat with 0%nat by lia.
      simpl. now apply IH.
    + rewrite firstn_app.
      replace (i + List.length em - List.length b)%nat with 0%nat by lia.
      simpl. apply app_nil_r.
Qed.

(** What the start/end frames are made of. *)
Lemma start_end_frames_parts (sm em b : bytes) (packets : list bytes)
  (rest : bytes) :
  start_end_frames sm em b packets rest ->
  Forall (fun p => exists body, p = (sm ++ body ++ em)%list) packets /\
  (rest = [] \/
   ((exists tail, rest = (sm ++ tail)%list) /\
    absent_from em rest (List.length sm))) /\
  (List.length (List.concat packets) + List.length rest
   <= List.length b)%nat.
Proof.
  induction 1 as [b Habs|b i Hi Habs|b i j ps r Hi Hj H IH].
  - repeat split; auto. simpl. lia.
  - repeat split; auto.
    + right. split; [|assumption].
      destruct Hi as (_ & Ho & _).
      pose proof (occurs_at_bound _ _ _ Ho) as Hb.
      apply occurs_at_skipn_first in Ho.
      destruct Ho as (pre & post & E & Hl).
      destruct pre; [|discriminate]. exists post. exact E.
    + simpl. rewrite length_skipn. lia.
  - destruct IH as (Hall & Hrest & Hlen).
    destruct Hi as (_ & Hoi & _). destruct Hj as (Hlj & Hoj & _).
    pose proof (occurs_at_bound _ _ _ Hoi) as Hbi.
    pose proof (occurs_at_bound _ _ _ Hoj) as Hbj.
    repeat split; auto.
    + constructor; [|assumption].
      rewrite (occurs_at_firstn em (skipn i b) j Hoj).
      apply occurs_at_skipn_first in Hoi.
      destruct Hoi as (pre & post & E & Hl).
      destruct pre; [|discriminate]. simpl in E. rewrite E.
      exists (firstn (j - List.length sm) post).
      rewrite firstn_app.
      rewrite (firstn_all2 (n := j)) by lia.
      now rewrite <- app_assoc.
    + simpl. rewrite length_app, length_firstn.
      rewrite !length_skipn in *. lia.
Qed.

Lemma ingest_end_only_spec (st : reader) (data : bytes) (ts : string)
  (em : bytes) :
  buffer_enabled (cfg st) = true ->
  start_marker (cfg st) = EmptyString ->
  end_marker (cfg st) <> EmptyString ->
  _parse_marker (end_marker (cfg st)) = Ok em ->
  log_ok st ->
  exists packets st',
    ingest data ts st = (st', Ok tt) /\
    end_only_frames em
      (cap_buffer (max_buffer_size (cfg st)) (buffer st ++ data))
      packets (buffer st') /\
    log_ok st' /\ cfg st' = cfg st /\
    data_received st' =
      (data_received st ++ messages (cfg st) (Some ts) packets)%list.
Proof.
  intros Hen Hsm Hem He Hok.
  pose proof (parse_marker_nonempty _ _ Hem He) as Hne.
  assert (Hs : _parse_marker (start_marker (cfg st)) = Ok []).
  { now rewrite Hsm. }
  rewrite (ingest_buffering st data ts [] em (conj Hen Hem) Hs He).
  cbv zeta. change (bytes_truthy []) with false. cbv iota.
  match goal with
  | |- context [end_only_loop ?f em ?s] =>
      destruct (end_only_loop_spec f em Hne s)
        as (packets & st' & E & Hfr & Hok' & Hc & _ & Hd)
  end.
  { exact Hok. }
  { simpl. lia. }
  exists packets, st'. simpl in Hfr, Hd, Hc. repeat split; auto.
Qed.

Lemma ingest_start_end_spec (st : reader) (data : bytes) (ts : string)
  (sm em : bytes) :
  buffer_enabled (cfg st) = true ->
  start_marker (cfg st) <> EmptyString ->
  end_marker (cfg st) <> EmptyString ->
  _parse_marker (start_marker (cfg st)) = Ok sm ->
  _parse_marker (end_marker (cfg st)) = Ok em ->
  log_ok st ->
  exists packets st',
    ingest data ts st = (st', Ok tt) /\
    start_end_frames sm em
      (cap_buffer (max_buffer_size (cfg st)) (buffer st ++ data))
      packets (buffer st') /\
    log_ok st' /\ cfg st' = cfg st /\
    data_received st' =
      (data_received st ++ messages (cfg st) (Some ts) packets)%list.
Proof.
  intros Hen Hsm Hem Hs He Hok.
  pose proof (parse_marker_nonempty _ _ Hsm Hs) as Hne.
  rewrite (ingest_buffering st data ts sm em (conj Hen Hem) Hs He).
  cbv zeta. rewrite (bytes_truthy_true sm Hne).
  match goal with
  | |- context [start_end_loop ?f sm em ?s] =>
      destruct (start_end_loop_spec f sm em Hne s)
        as (packets & st' & E & Hfr & Hok' & Hc & _ & Hd)
  end.
  { exact Hok. }
  { simpl. lia. }
  exists packets, st'. simpl in Hfr, Hd, Hc. repeat split; auto.
Qed.

(** X6. In end-marker-only mode no byte is lost or invented by the loop:
    the packets emitted by an [ingest], followed by the buffer it leaves,
    are exactly the capped buffer; every packet ends with the end marker
    and holds no earlier occurrence of it; and the buffer left holds no end
    marker. *)
Theorem end_only_conserves_bytes (st : reader) (data : bytes) (ts : string)
  (em : bytes) :
  buffer_enabled (cfg st) = true ->
  start_marker (cfg st) = EmptyString ->
  end_marker (cfg st) <> EmptyString ->
  _parse_marker (end_marker (cfg st)) = Ok em ->
  log_ok st ->
  exists packets st',
    ingest data ts st = (st', Ok tt) /\
    data_received st' =
      (data_received st ++ messages (cfg st) (Some ts) packets)%list /\
    (List.concat packets ++ buffer st')%list =
      cap_buffer (max_buffer_size (cfg st)) (buffer st ++ data) /\
    Forall (fun p => exists body,
              p = (body ++ em)%list /\
              forall j, (j < List.length body)%nat -> ~ occurs_at em p j)
           packets /\
    absent_from em (buffer st') 0.
Proof.
  intros Hen Hsm Hem He Hok.
  destruct (ingest_end_only_spec st data ts em Hen Hsm Hem He Hok)
    as (packets & st' & E & Hfr & _ & _ & Hd).
  destruct (end_only_frames_parts _ _ _ _ Hfr) as (H1 & H2 & H3).
  exists packets, st'. repeat split; assumption.
Qed.

Lemma end_only_conserves_bytes_witness :
  exists packets st',
    ingest [xaa; x03; xbb; x03; xcc] "12:00:00.000" example_end_only
    = (st', Ok tt) /\
    data_received st' =
      (data_received example_end_only
       ++ messages (cfg example_end_only) (Some "12:00:00.000"%string)
            packets)%list /\
    (List.concat packets ++ buffer st')%list =
      cap_buffer (max_buffer_size (cfg example_end_only))
        (buffer example_end_only ++ [xaa; x03; xbb; x03; xcc]) /\
    Forall (fun p => exists body,
              p = (body ++ [x03])%list /\
              forall j, (j < List.length body)%nat -> ~ occurs_at [x03] p j)
           packets /\
    absent_from [x03] (buffer st') 0.
Proof.
  apply (end_only_conserves_bytes example_end_only);
    first [reflexivity | discriminate | exact I].
Defined.

(** X7. In start/end mode every packet emitted by an [ingest] is the start
    marker, a body, and the end marker; the buffer left is empty or begins
    with the start marker and holds no end marker after it; and packets and
    buffer together are no longer than the capped buffer. *)
Theorem start_end_packets_delimited (st : reader) (data : bytes)
  (ts : string) (sm em : bytes) :
  buffer_enabled (cfg st) = true ->
  start_marker (cfg st) <> EmptyString ->
  end_marker (cfg st) <> EmptyString ->
  _parse_marker (start_marker (cfg st)) = Ok sm ->
  _parse_marker (end_marker (cfg st)) = Ok em ->
  log_ok st ->
  exists packets st',
    ingest data ts st = (st', Ok tt) /\
    data_received st' =
      (data_received st ++ messages (cfg st) (Some ts) packets)%list /\
    Forall (fun p => exists body, p = (sm ++ body ++ em)%list) packets /\
    (buffer st' = [] \/
     ((exists tail, buffer st' = (sm ++ tail)%list) /\
      absent_from em (buffer st') (List.length sm))) /\
    (List.length (List.concat packets) + List.length (buffer st')
     <= List.length
          (cap_buffer (max_buffer_size (cfg st)) (buffer st ++ data)))%nat.
Proof.
  intros Hen Hsm Hem Hs He Hok.
  destruct (ingest_start_end_spec st data ts sm em Hen Hsm Hem Hs He Hok)
    as (packets & st' & E & Hfr & _ & _ & Hd).
  destruct (start_end_frames_parts _ _ _ _ _ Hfr) as (H1 & H2 & H3).
  exists packets, st'. repeat split; assumption.
Qed.

Lemma start_end_packets_delimited_witness :
  exists packets st',
    ingest [xff; x02; x41; x03; x02; x42] "12:00:00.000" example_reader
    = (st', Ok tt) /\
    data_received st' =
      (data_received example_reader
       ++ messages (cfg example_reader) (Some "12:00:00.000"%string)
            packets)%list /\
    Forall (fun p => exists body, p = ([x02] ++ body ++ [x03])%list)
           packets /\
    (buffer st' = [] \/
     ((exists tail, buffer st' = ([x02] ++ tail)%list) /\
      absent_from [x03] (buffer st') (List.length [x02]))) /\
    (List.length (List.concat packets) + List.length (buffer st')
     <= List.length
          (cap_buffer (max_buffer_size (cfg example_reader))
             (buffer example_reader
              ++ [xff; x02; x41; x03; x02; x42])))%nat.
Proof.
  apply (start_end_packets_delimited example_reader);
    first [reflexivity | discriminate | exact I].
Defined.

(** X8. In end-marker-only mode framing does not depend on how the stream
    is cut into chunks: as long as the buffer stays within the cap,
    ingesting two chunks one after the other emits the same packets, in
    the same order, and leaves the same buffer as ingesting them as one
    chunk. *)
Theorem end_only_chunking_invariant (st : reader) (d1 d2 : bytes)
  (t1 t2 t : string) (em : bytes) :
  buffer_enabled (cfg st) = true ->
  start_marker (cfg st) = EmptyString ->
  end_marker (cfg st) <> EmptyString ->
  _parse_marker (end_marker (cfg st)) = Ok em ->
  log_ok st ->
  Bytes.len (buffer st ++ d1 ++ d2) <= max_buffer_size (cfg st) ->
  exists ps1 ps2 sa sb sc,
    ingest d1 t1 st = (sa, Ok tt) /\
    ingest d2 t2 sa = (sb, Ok tt) /\
    ingest (d1 ++ d2) t st = (sc, Ok tt) /\
    data_received sa =
      (data_received st ++ messages (cfg st) (Some t1) ps1)%list /\
    data_received sb =
      (data_received sa ++ messages (cfg st) (Some t2) ps2)%list /\
    data_received sc =
      (data_received st ++ messages (cfg st) (Some t) (ps1 ++ ps2))%list /\
    buffer sb = buffer sc.
Proof.
  intros Hen Hsm Hem He Hok Hlen.
  destruct (ingest_end_only_spec st d1 t1 em Hen Hsm Hem He Hok)
    as (ps1 & sa & Ea & Hfa & Hoka & Hca & Hda).
  assert (Hl1 : Bytes.len (buffer st ++ d1) <= max_buffer_size (cfg st)).
  { unfold Bytes.len in *. rewrite !length_app in *. lia. }
  rewrite cap_buffer_within in Hfa by assumption.
  destruct (end_only_frames_parts _ _ _ _ Hfa) as (Hcat & _ & _).
  assert (Hla : Bytes.len (buffer sa ++ d2) <= max_buffer_size (cfg sa)).
  { rewrite Hca. unfold Bytes.len in *.
    apply (f_equal (@List.length byte)) in Hcat.
    rewrite !length_app in *. lia. }
  destruct (ingest_end_only_spec sa d2 t2 em)
    as (ps2 & sb & Eb & Hfb & _ & _ & Hdb);
    try (rewrite Hca; assumption); try assumption.
  rewrite cap_buffer_within in Hfb by assumption.
  destruct (ingest_end_only_spec st (d1 ++ d2) t em Hen Hsm Hem He Hok)
    as (ps & sc & Ec & Hfc & _ & _ & Hdc).
  rewrite cap_buffer_within in Hfc by assumption.
  pose proof (end_only_frames_app _ _ _ _ Hfa d2 ps2 (buffer sb) Hfb) as Hf.
  rewrite <- app_assoc in Hf.
  destruct (end_only_frames_functional _ _ _ _ _ _ Hfc Hf) as [-> Hb].
  exists ps1, ps2, sa, sb, sc. rewrite Hca in Hdb.
  repeat split; auto.
Qed.

Lemma end_only_chunking_invariant_witness :
  Bytes.len (buffer example_end_only ++ [xaa] ++ [x03; xbb])
    <= max_buffer_size (cfg example_end_only) /\
  exists ps1 ps2 sa sb sc,
    ingest [xaa] "t1" example_end_only = (sa, Ok tt) /\
    ingest [x03; xbb] "t2" sa = (sb, Ok tt) /\
    ingest ([xaa] ++ [x03; xbb]) "t" example_end_only = (sc, Ok tt) /\
    data_received sa =
      (data_received example_end_only
       ++ messages (cfg example_end_only) (Some "t1"%string) ps1)%list /\
    data_received sb =
      (data_received sa
       ++ messages (cfg example_end_only) (Some "t2"%string) ps2)%list /\
    data_received sc =
      (data_received example_end_only
       ++ messages (cfg example_end_only) (Some "t"%string)
            (ps1 ++ ps2))%list /\
    buffer sb = buffer sc.
Proof.
  split; [vm_compute; discriminate|].
  apply (end_only_chunking_invariant example_end_only [xaa] [x03; xbb]
           "t1" "t2" "t" [x03]);
    first [reflexivity | discriminate | exact I | (vm_compute; discriminate)].
Defined.

End FramingMore.

(** ** The size cap of the frame buffer *)

Section BufferCap.

Import Spec.
Local Open Scope Z_scope.

(** C3, as stated, fails in start/end mode.  With start marker 0x02 the
    chunk 41 42, far below the cap, is ingested into an empty buffer:
    nothing is emitted, and the buffer is empty afterwards, so the newest
    bytes are missing although they were not emitted. *)
Lemma unframed_newest_bytes_dropped :
  buffering (cfg example_reader) /\
  Bytes.len (buffer example_reader ++ [x41; x42])
    <= max_buffer_size (cfg example_reader) /\
  exists st',
    ingest [x41; x42] "12:00:00.000" example_reader = (st', Ok tt) /\
    data_received st' = [] /\
    buffer st' = [] /\
    ~ is_suffix [x42] (buffer st').
Proof.
  split; [split; [reflexivity|discriminate]|].
  split; [vm_compute; discriminate|].
  eexists. split; [vm_compute; reflexivity|].
  split; [reflexivity|]. split; [reflexivity|].
  intros [d H]. simpl in H. destruct d; discriminate H.
Qed.

(** C3, amended.  Along every sequence of [ingest] calls in a buffering
    mode, the buffer stays within the 1 MiB cap after each call and is a
    suffix of the bytes injected so far; trimming drops the oldest bytes:
    each call leaves a suffix of the last 1 MiB of buffer and chunk.  In
    end-marker-only mode the packets emitted by the call, followed by the
    buffer it leaves, are exactly those bytes, so the newest bytes are
    never missing, and with no end marker among them the buffer is exactly
    those bytes.  In start/end mode packets and buffer are those of the
    framing of section 4.2 applied to those bytes: the buffer left is
    empty or begins with the start marker, and when those bytes hold no
    start marker nothing is emitted and the buffer is emptied: bytes
    outside a frame are dropped, the newest included. *)
Theorem buffer_bounded_oldest_trimmed :
  (forall (st : reader) (chunks : list (bytes * string)),
     buffer_enabled (cfg st) = true ->
     end_marker (cfg st) <> EmptyString ->
     max_buffer_size (cfg st) = 1024 * 1024 ->
     buffer st = [] ->
     Bytes.len (buffer (fst (feed chunks st))) <= 1024 * 1024 /\
     snd (feed chunks st) <> OutOfFuel /\
     exists n, (n <= List.length chunks)%nat /\
       is_suffix (buffer (fst (feed chunks st)))
                 (List.concat (map fst (firstn n chunks))) /\
       (snd (feed chunks st) = Ok tt -> n = List.length chunks)) /\
  (forall (st : reader) (data : bytes) (ts : string),
     buffer_enabled (cfg st) = true ->
     end_marker (cfg st) <> EmptyString ->
     max_buffer_size (cfg st) = 1024 * 1024 ->
     Bytes.len (buffer (fst (ingest data ts st))) <= 1024 * 1024 /\
     is_suffix (buffer (fst (ingest data ts st)))
               (keep_last (Z.to_nat (1024 * 1024)) (buffer st ++ data))) /\
  (forall (st : reader) (data : bytes) (ts : string) (em : bytes),
     buffer_enabled (cfg st) = true ->
     end_marker (cfg st) <> EmptyString ->
     max_buffer_size (cfg st) = 1024 * 1024 ->
     start_marker (cfg st) = EmptyString ->
     _parse_marker (end_marker (cfg st)) = Ok em ->
     absent_from em
       (keep_last (Z.to_nat (1024 * 1024)) (buffer st ++ data)) 0 ->
     buffer (fst (ingest data ts st))
     = keep_last (Z.to_nat (1024 * 1024)) (buffer st ++ data)) /\
  (forall (st : reader) (data : bytes) (ts : string) (em : bytes),
     buffer_enabled (cfg st) = true ->
     end_marker (cfg st) <> EmptyString ->
     max_buffer_size (cfg st) = 1024 * 1024 ->
     start_marker (cfg st) = EmptyString ->
     _parse_marker (end_marker (cfg st)) = Ok em ->
     log_ok st ->
     exists packets st',
       ingest data ts st = (st', Ok tt) /\
       data_received st' =
         (data_received st ++ messages (cfg st) (Some ts) packets)%list /\
       (List.concat packets ++ buffer st')%list
       = keep_last (Z.to_nat (1024 * 1024)) (buffer st ++ data)) /\
  (forall (st : reader) (data : bytes) (ts : string) (sm em : bytes),
     buffer_enabled (cfg st) = true ->
     end_marker (cfg st) <> EmptyString ->
     max_buffer_size (cfg st) = 1024 * 1024 ->
     start_marker (cfg st) <> EmptyString ->
     _parse_marker (start_marker (cfg st)) = Ok sm ->
     _parse_marker (end_marker (cfg st)) = Ok em ->
     log_ok st ->
     exists packets st',
       ingest data ts st = (st', Ok tt) /\
       data_received st' =
         (data_received st ++ messages (cfg st) (Some ts) packets)%list /\
       start_end_frames sm em
         (keep_last (Z.to_nat (1024 * 1024)) (buffer st ++ data))
         packets (buffer st') /\
       (buffer st' = [] \/ exists tail, buffer st' = (sm ++ tail)%list) /\
       (absent_from sm
          (keep_last (Z.to_nat (1024 * 1024)) (buffer st ++ data)) 0 ->
        packets = [] /\ buffer st' = [])).
Proof.
  split; [|split; [|split; [|split]]].
  - intros st chunks Hen Hem Hmax Hb.
    destruct (feed_inv chunks st) as (_ & Hl & Hr & n & Hn & Hs & Hk).
    { now split. }
    { rewrite Hmax. lia. }
    { rewrite Hb, Hmax. unfold Bytes.len. simpl. lia. }
    rewrite Hmax, Hb in *. simpl in Hs. repeat split; auto.
    exists n. repeat split; auto.
  - intros st data ts Hen Hem Hmax.
    destruct (ingest_inv st data ts (conj Hen Hem)) as (_ & Hs & _).
    rewrite cap_buffer_keep_last in Hs by (rewrite Hmax; lia).
    rewrite Hmax in Hs. split; [|exact Hs].
    apply is_suffix_length in Hs. rewrite keep_last_length in Hs.
    unfold Bytes.len. lia.
  - intros st data ts em Hen Hem Hmax Hsm He Habs.
    assert (Hs : _parse_marker (start_marker (cfg st)) = Ok []).
    { now rewrite Hsm. }
    rewrite (ingest_buffering st data ts [] em (conj Hen Hem) Hs He).
    cbv zeta. change (bytes_truthy []) with false. cbv iota.
    rewrite end_only_loop_S. simpl buffer.
    rewrite cap_buffer_keep_last by (rewrite Hmax; lia). rewrite Hmax.
    destruct (contains_cases
                (keep_last (Z.to_nat (1024 * 1024)) (buffer st ++ data)) em)
      as [[E _]|(i & _ & _ & _ & Hocc & _)].
    + rewrite E. reflexivity.
    + exfalso. apply (Habs i); [lia|assumption].
  - intros st data ts em Hen Hem Hmax Hsm He Hok.
    destruct (ingest_end_only_spec st data ts em Hen Hsm Hem He Hok)
      as (packets & st' & E & Hfr & _ & _ & Hd).
    rewrite cap_buffer_keep_last in Hfr by (rewrite Hmax; lia).
    rewrite Hmax in Hfr.
    destruct (end_only_frames_parts _ _ _ _ Hfr) as (Hcat & _ & _).
    exists packets, st'. repeat split; assumption.
  - intros st data ts sm em Hen Hem Hmax Hsm Hs He Hok.
    destruct (ingest_start_end_spec st data ts sm em Hen Hsm Hem Hs He Hok)
      as (packets & st' & E & Hfr & _ & _ & Hd).
    rewrite cap_buffer_keep_last in Hfr by (rewrite Hmax; lia).
    rewrite Hmax in Hfr.
    destruct (start_end_frames_parts _ _ _ _ _ Hfr) as (_ & Hrest & _).
    exists packets, st'.
    split; [exact E|]. split; [exact Hd|]. split; [exact Hfr|]. split.
    + destruct Hrest as [H|[H _]]; [now left|now right].
    + intros Habs.
      exact (start_end_frames_functional _ _ _ _ _ _ _ Hfr
               (se_discard sm em _ Habs)).
Qed.

Lemma buffer_bounded_oldest_trimmed_witness :
  (buffer_enabled (cfg example_end_only) = true /\
   end_marker (cfg example_end_only) <> EmptyString /\
   max_buffer_size (cfg example_end_only) = 1024 * 1024 /\
   buffer example_end_only = [] /\
   Bytes.len (buffer (fst (feed [([xaa; xbb], "t1"%string);
                                 ([xcc], "t2"%string)] example_end_only)))
     <= 1024 * 1024) /\
  (start_marker (cfg example_end_only) = EmptyString /\
   _parse_marker (end_marker (cfg example_end_only)) = Ok [x03] /\
   log_ok example_end_only /\
   exists packets st',
     ingest [xaa; x03; xbb] "t1" example_end_only = (st', Ok tt) /\
     data_received st' =
       (data_received example_end_only
        ++ messages (cfg example_end_only) (Some "t1"%string) packets)%list /\
     (List.concat packets ++ buffer st')%list
     = keep_last (Z.to_nat (1024 * 1024))
         (buffer example_end_only ++ [xaa; x03; xbb])) /\
  (start_marker (cfg example_reader) <> EmptyString /\
   _parse_marker (start_marker (cfg example_reader)) = Ok [x02] /\
   _parse_marker (end_marker (cfg example_reader)) = Ok [x03] /\
   absent_from [x02]
     (keep_last (Z.to_nat (1024 * 1024))
        (buffer example_reader ++ [x41; x42])) 0 /\
   exists (packets : list bytes) st',
     ingest [x41; x42] "t1" example_reader = (st', Ok tt) /\
     packets = [] /\ buffer st' = []).
Proof.
  split; [|split].
  - repeat (split; [first [reflexivity | discriminate]|]).
    apply (proj1 buffer_bounded_oldest_trimmed);
      first [reflexivity | discriminate].
  - repeat (split; [first [reflexivity | discriminate | exact I]|]).
    apply (proj1 (proj2 (proj2 (proj2 buffer_bounded_oldest_trimmed)))
             example_end_only [xaa; x03; xbb] "t1"%string [x03]);
      first [reflexivity | discriminate | exact I].
  - assert (Habs : absent_from [x02]
                     (keep_last (Z.to_nat (1024 * 1024))
                        (buffer example_reader ++ [x41; x42])) 0).
    { rewrite <- cap_buffer_keep_last by lia.
      change (cap_buffer (1024 * 1024) (buffer example_reader ++ [x41; x42]))
        with [x41; x42].
      destruct (find_cases [x41; x42] [x02] 0) as [[_ H]|(i & E & _)];
        [exact H|].
      vm_compute in E. destruct i; discriminate E. }
    repeat (split; [first [reflexivity | discriminate | exact Habs]|]).
    destruct (proj2 (proj2 (proj2 (proj2 buffer_bounded_oldest_trimmed)))
                example_reader [x41; x42] "t1"%string [x02] [x03])
      as (packets & st' & E & _ & _ & _ & Hdrop);
      try first [reflexivity | discriminate | exact I].
    exists packets, st'. split; [exact E|]. exact (Hdrop Habs).
Defined.

End BufferCap.

(** ** Readers without a log directory *)

Section NoPortLog.

Local Open Scope Z_scope.
Local Arguments start_end_loop : simpl never.
Local Arguments end_only_loop : simpl never.

Lemma publish_no_log (ts : option string) (packet : bytes) (st : reader) :
  log_file st = None ->
  publish ts packet st =
  (emit (source_label (cfg st))
        (render_message ts (source_label (cfg st)) (hex_join packet)) st,
   Ok tt).
Proof.
  intros H. unfold publish, log_message. run_monad. now rewrite H.
Qed.

Lemma start_end_loop_no_log (fuel : nat) (sm em : bytes) :
  forall st,
  log_file st = None ->
  log_file (fst (start_end_loop fuel sm em st)) = None /\
  fs (fst (start_end_loop fuel sm em st)) = fs st.
Proof.
  induction fuel as [|fuel IH]; intros st H; [now split|].
  rewrite start_end_loop_S. cbv zeta.
  destruct (Bytes.find (buffer st) sm 0 =? -1); [now split|].
  set (st1 := if Bytes.find (buffer st) sm 0 >? 0
              then with_buffer
                     (Bytes.slice_from (Bytes.find (buffer st) sm 0)
                        (buffer st)) st
              else st).
  assert (H1 : log_file st1 = None /\ fs st1 = fs st).
  { unfold st1. destruct (Bytes.find (buffer st) sm 0 >? 0); now split. }
  destruct H1 as [Hl1 Hf1].
  destruct (Bytes.find (buffer st1) em (Bytes.len sm) =? -1);
    [now split|].
  unfold bind. rewrite publish_no_log by exact Hl1.
  match goal with
  | |- context [start_end_loop fuel sm em ?s] =>
      destruct (IH s) as [Ha Hb]; [exact Hl1|]
  end.
  split; [exact Ha|]. rewrite Hb. exact Hf1.
Qed.

Lemma end_only_loop_no_log (fuel : nat) (em : bytes) :
  forall st,
  log_file st = None ->
  log_file (fst (end_only_loop fuel em st)) = None /\
  fs (fst (end_only_loop fuel em st)) = fs st.
Proof.
  induction fuel as [|fuel IH]; intros st H; [now split|].
  rewrite end_only_loop_S.
  destruct (Bytes.contains (buffer st) em); [|now split].
  destruct (Bytes.split1 (buffer st) em) as [[|p [|r [|x l]]]|e|];
    try (now split).
  unfold bind. rewrite publish_no_log by exact H.
  match goal with
  | |- context [end_only_loop fuel em ?s] =>
      destruct (IH s) as [Ha Hb]; [exact H|]
  end.
  split; [exact Ha|]. rewrite Hb. reflexivity.
Qed.

Lemma ingest_no_log (data : bytes) (ts : string) (st : reader) :
  log_file st = None ->
  log_file (fst (ingest data ts st)) = None /\
  fs (fst (ingest data ts st)) = fs st.
Proof.
  intros H. unfold ingest. run_monad.
  destruct (buffer_enabled (cfg st) && str_truthy (end_marker (cfg st)));
    simpl.
  - destruct (Bytes.len (buffer st ++ data) >? max_buffer_size (cfg st));
      simpl;
      (destruct (_parse_marker (start_marker (cfg st))) as [sm|e|];
       simpl; [|split; [exact H|reflexivity]|split; [exact H|reflexivity]]);
      (destruct (_parse_marker (end_marker (cfg st))) as [em|e|];
       simpl; [|split; [exact H|reflexivity]|split; [exact H|reflexivity]]);
      destruct (bytes_truthy sm);
      match goal with
      | |- context [start_end_loop ?f ?a ?b ?s] =>
          destruct (start_end_loop_no_log f a b s H) as [Ha Hb];
          split; [exact Ha|exact Hb]
      | |- context [end_only_loop ?f ?b ?s] =>
          destruct (end_only_loop_no_log f b s H) as [Ha Hb];
          split; [exact Ha|exact Hb]
      end.
  - rewrite publish_no_log by exact H. split; [exact H|reflexivity].
Qed.

Lemma feed_no_log (chunks : list (bytes * string)) :
  forall st,
  log_file st = None ->
  log_file (fst (feed chunks st)) = None /\
  fs (fst (feed chunks st)) = fs st.
Proof.
  induction chunks as [|[data ts] rest IH]; intros st H; [now split|].
  rewrite feed_cons.
  destruct (ingest_no_log data ts st H) as [Ha Hb].
  destruct (ingest data ts st) as [st1 [[]|e|]]; simpl in *;
    try (now split).
  destruct (IH st1 Ha) as [Hc Hd]. split; [exact Hc|]. now rewrite Hd.
Qed.

(** X9. A reader as [start_monitoring] builds it has no log directory:
    whatever chunks it ingests, and when it is stopped afterwards, it never
    opens or writes a log file. *)
Theorem monitored_reader_never_logs
  (label port : string) (baudrate databits : Z) (buffer_checked : bool)
  (marker_text start_marker_text : string)
  (chunks : list (bytes * string)) :
  let st :=
    fst (feed chunks
           (monitored_reader label port baudrate databits buffer_checked
              marker_text start_marker_text)) in
  log_file st = None /\ fs st = [] /\
  log_file (fst (stop st)) = None /\ fs (fst (stop st)) = [].
Proof.
  intros st.
  destruct (feed_no_log chunks
              (monitored_reader label port baudrate databits buffer_checked
                 marker_text start_marker_text) eq_refl) as [Hl Hf].
  fold st in Hl, Hf. simpl in Hf.
  split; [exact Hl|]. split; [exact Hf|].
  unfold stop. run_monad. rewrite Hl.
  destruct (buffer_enabled (cfg st) && bytes_truthy (buffer st)); simpl;
    rewrite Hl; simpl; auto.
Qed.

End NoPortLog.

(** ** More on the log sink and on shutdown *)

Section SinkMore.

Local Open Scope Z_scope.

Lemma packet_lines_app (a b : list fs_event) :
  packet_lines (a ++ b) = (packet_lines a ++ packet_lines b)%list.
Proof.
  induction a as [|e a IH]; [reflexivity|].
  destruct e as [d|f|f r|f|f]; simpl; try exact IH.
  destruct r; simpl; try exact IH. now rewrite IH.
Qed.

Lemma packet_lines_sink (c : config) (dir : string) (msgs : list string) :
  forall size f g, packet_lines (sink_events c dir size f g msgs) = msgs.
Proof.
  induction msgs as [|m rest IH]; intros size f g; [reflexivity|].
  simpl. f_equal.
  destruct (size + encoded_size m >=? max_log_size c); [|apply IH].
  apply IH.
Qed.

(** X10. Rotation loses no packet line: whatever rotations happen, the
    packet lines written to the log files are, in order, exactly the lines
    handed to the logging block. *)
Theorem sink_writes_every_line (st : reader) (msgs : list string) (f : nat)
  (dir : string) :
  log_file st = Some {| fid := f; closed := false |} ->
  log_dir (cfg st) = Some dir ->
  dir <> EmptyString ->
  exists st',
    log_all msgs st = (st', Ok tt) /\
    packet_lines (fs st') = (packet_lines (fs st) ++ msgs)%list.
Proof.
  intros Hlf Hdir Hne.
  destruct (log_all_spec msgs st f dir Hlf Hdir Hne) as (st' & E & Hfs & _).
  exists st'. split; [exact E|].
  now rewrite Hfs, packet_lines_app, packet_lines_sink.
Qed.

Lemma sink_writes_every_line_witness :
  exists st',
    log_all ["a"; "b"; "c"]%string nearly_full_reader = (st', Ok tt) /\
    packet_lines (fs st') =
      (packet_lines (fs nearly_full_reader) ++ ["a"; "b"; "c"]%string)%list.
Proof.
  apply (sink_writes_every_line nearly_full_reader ["a"; "b"; "c"]%string
           0 "logs");
    first [reflexivity | discriminate].
Defined.

(** X11. Between writes the byte counter of the current log file is below
    the limit: a write that reaches the limit rotates the file and resets
    the counter, so no file receives a line once it holds the limit. *)
Theorem sink_counter_below_limit (msgs : list string) :
  forall (st : reader) (f : nat) (dir : string),
  log_file st = Some {| fid := f; closed := false |} ->
  log_dir (cfg st) = Some dir ->
  dir <> EmptyString ->
  0 <= log_file_size st < max_log_size (cfg st) ->
  exists st',
    log_all msgs st = (st', Ok tt) /\
    0 <= log_file_size st' < max_log_size (cfg st).
Proof.
  induction msgs as [|m rest IH]; intros st f dir Hlf Hdir Hne Hsz.
  - exists st. split; [reflexivity|assumption].
  - destruct (log_message_open m st f dir Hlf Hdir Hne)
      as (st1 & E & Hc & Hrot & Hno).
    assert (Hm : 0 <= encoded_size m).
    { unfold encoded_size, Bytes.len. lia. }
    simpl log_all. unfold bind. rewrite E.
    destruct (Z_lt_ge_dec (log_file_size st + encoded_size m)
                (max_log_size (cfg st))) as [Hlt|Hge].
    + destruct (Hno Hlt) as (_ & Hlf1 & Hs1 & _).
      destruct (IH st1 f dir Hlf1) as (st' & E' & Hb');
        [now rewrite Hc|assumption|rewrite Hc, Hs1; lia|].
      exists st'. rewrite Hc in Hb'. split; assumption.
    + destruct (Hrot Hge) as (_ & Hlf1 & Hs1 & _).
      destruct (IH st1 (next_fid st) dir Hlf1) as (st' & E' & Hb');
        [now rewrite Hc|assumption|rewrite Hc, Hs1; lia|].
      exists st'. rewrite Hc in Hb'. split; assumption.
Qed.

Lemma sink_counter_below_limit_witness :
  0 <= log_file_size nearly_full_reader
    < max_log_size (cfg nearly_full_reader) /\
  exists st',
    log_all ["a"; "b"]%string nearly_full_reader = (st', Ok tt) /\
    0 <= log_file_size st' < max_log_size (cfg nearly_full_reader).
Proof.
  split; [vm_compute; split; [discriminate|reflexivity]|].
  apply (sink_counter_below_limit ["a"; "b"]%string nearly_full_reader
           0 "logs");
    first [reflexivity | discriminate
          | (vm_compute; split; [discriminate|reflexivity])].
Defined.

Lemma stop_without_log (st : reader) :
  buffer_enabled (cfg st) = true ->
  buffer st <> [] ->
  log_file st = None ->
  stop st =
  (emit (source_label (cfg st))
        (render_message (last_timestamp st) (source_label (cfg st))
           (hex_join (buffer st)))
        (with_is_running false st), Ok tt).
Proof.
  intros Hen Hb Hlf. unfold stop. run_monad. rewrite Hen.
  rewrite (bytes_truthy_true _ Hb). simpl. rewrite Hlf. simpl.
  now rewrite Hlf.
Qed.

Lemma stop_with_open_log (st : reader) (f : nat) :
  buffer_enabled (cfg st) = true ->
  buffer st <> [] ->
  log_file st = Some {| fid := f; closed := false |} ->
  stop st =
  (with_log_file (Some {| fid := f; closed := true |})
     (fs_do (FsClose f)
        (fs_do (FsFlush f)
           (fs_do (FsWrite f
                     (LogLine (render_message (last_timestamp st)
                                 (source_label (cfg st))
                                 (hex_join (buffer st)))))
              (emit (source_label (cfg st))
                 (render_message (last_timestamp st) (source_label (cfg st))
                    (hex_join (buffer st)))
                 (with_is_running false st))))), Ok tt).
Proof.
  intros Hen Hb Hlf. unfold stop, file_write, file_flush, file_close.
  run_monad. rewrite Hen. rewrite (bytes_truthy_true _ Hb). simpl.
  rewrite Hlf. simpl. now rewrite Hlf.
Qed.

Lemma stop_with_closed_log (st : reader) (f : nat) :
  buffer_enabled (cfg st) = true ->
  buffer st <> [] ->
  log_file st = Some {| fid := f; closed := true |} ->
  stop st =
  (emit (source_label (cfg st))
        (render_message (last_timestamp st) (source_label (cfg st))
           (hex_join (buffer st)))
        (with_is_running false st), Raise ValueError).
Proof.
  intros Hen Hb Hlf. unfold stop, file_write, file_flush, file_close.
  run_monad. rewrite Hen. rewrite (bytes_truthy_true _ Hb). simpl.
  now rewrite Hlf.
Qed.

(** X12. [stop] does not clear the buffer.  On a reader without a log file
    a second [stop] emits the same residual packet again; on a reader with
    an open log file the second [stop] emits it again and then raises
    [ValueError], because the first one closed the file.  When there is no
    residual, or buffering is off, [stop] emits nothing and only closes the
    log file. *)
Theorem stop_keeps_residual :
  (forall st : reader,
     buffer_enabled (cfg st) = true ->
     buffer st <> [] ->
     log_file st = None ->
     exists s1 s2,
       stop st = (s1, Ok tt) /\ stop s1 = (s2, Ok tt) /\
       buffer s2 = buffer st /\
       data_received s2 =
         (data_received st
          ++ messages (cfg st) (last_timestamp st) [buffer st; buffer st])%list)
  /\
  (forall (st : reader) (f : nat),
     buffer_enabled (cfg st) = true ->
     buffer st <> [] ->
     log_file st = Some {| fid := f; closed := false |} ->
     exists s1,
       stop st = (s1, Ok tt) /\
       snd (stop s1) = Raise ValueError /\
       data_received (fst (stop s1)) =
         (data_received st
          ++ messages (cfg st) (last_timestamp st) [buffer st; buffer st])%list)
  /\
  (forall st : reader,
     buffer_enabled (cfg st) = false \/ buffer st = [] ->
     exists s1,
       stop st = (s1, Ok tt) /\
       data_received s1 = data_received st /\
       fs s1 =
         (fs st ++
          match log_file st with
          | Some h => if closed h then [] else [FsClose (fid h)]
          | None => []
          end)%list).
Proof.
  split; [|split].
  - intros st Hen Hb Hlf.
    rewrite (stop_without_log st Hen Hb Hlf).
    eexists. eexists. split; [reflexivity|].
    rewrite stop_without_log by assumption.
    split; [reflexivity|]. simpl. split; [reflexivity|].
    now rewrite <- app_assoc.
  - intros st f Hen Hb Hlf.
    rewrite (stop_with_open_log st f Hen Hb Hlf).
    eexists. split; [reflexivity|].
    rewrite (stop_with_closed_log _ f) by (simpl; assumption || reflexivity).
    simpl. split; [reflexivity|]. now rewrite <- app_assoc.
  - intros st Hmode. unfold stop, file_close. run_monad.
    assert (E : buffer_enabled (cfg st) && bytes_truthy (buffer st) = false).
    { destruct Hmode as [-> | ->]; [reflexivity|apply andb_false_r]. }
    rewrite E. simpl.
    destruct (log_file st) as [[f [|]]|]; simpl;
      eexists; (split; [reflexivity|]); simpl;
      rewrite ?app_nil_r; auto.
Qed.

Lemma stop_keeps_residual_witness :
  buffer_enabled (cfg logging_reader) = true /\
  buffer logging_reader <> [] /\
  exists s1,
    stop logging_reader = (s1, Ok tt) /\
    snd (stop s1) = Raise ValueError /\
    data_received (fst (stop s1)) =
      (data_received logging_reader
       ++ messages (cfg logging_reader) (last_timestamp logging_reader)
            [buffer logging_reader; buffer logging_reader])%list.
Proof.
  split; [reflexivity|]. split; [discriminate|].
  apply (proj1 (proj2 stop_keeps_residual) logging_reader 0%nat);
    first [reflexivity | discriminate].
Defined.

End SinkMore.

(** ** More on the coordinator's queues *)

Section CoordinatorMore.

Local Open Scope Z_scope.

Lemma append_empty_r (s : string) : (s ++ EmptyString)%string = s.
Proof. induction s as [|a s IH]; simpl; [reflexivity|now rewrite IH]. Qed.

Lemma append_assoc_string (a b c : string) :
  ((a ++ b) ++ c)%string = (a ++ (b ++ c))%string.
Proof. induction a as [|x a IH]; simpl; [reflexivity|now rewrite IH]. Qed.

(** [''.join] of a list with a first element. *)
Lemma join_cons (x : string) (l : list string) :
  String.concat EmptyString (x :: l)
  = (x ++ String.concat EmptyString l)%string.
Proof.
  destruct l as [|y l]; simpl; [now rewrite append_empty_r|reflexivity].
Qed.

Lemma join_app (l1 l2 : list string) :
  String.concat EmptyString (l1 ++ l2)
  = (String.concat EmptyString l1 ++ String.concat EmptyString l2)%string.
Proof.
  induction l1 as [|x l1 IH]; [reflexivity|].
  change ((x :: l1) ++ l2)%list with (x :: (l1 ++ l2))%list.
  rewrite !join_cons, IH. now rewrite append_assoc_string.
Qed.

Lemma join_snoc (l : list string) (x : string) :
  String.concat EmptyString (l ++ [x])
  = (String.concat EmptyString l ++ x)%string.
Proof. rewrite join_app. reflexivity. Qed.

Local Opaque String.concat.

(** An enqueue that does not overflow the display queue. *)
Lemma on_data_received_no_overflow (label data : string)
  (st : ComSniffer.sniffer) :
  ComSniffer.qlen (ComSniffer.pending_display st) + 1
    <= ComSniffer.max_pending_display (ComSniffer.conf st) ->
  exists st',
    ComSniffer.on_data_received label data st = (st', Ok tt) /\
    ComSniffer.conf st' = ComSniffer.conf st /\
    if ComSniffer.qlen (ComSniffer.pending_display st) + 1 >=? 1000
    then ComSniffer.pending_display st' = [] /\
         ComSniffer.display_text st' =
           (ComSniffer.display_text st ++
            [String.concat EmptyString
               (ComSniffer.pending_display st ++ [data])])%list
    else ComSniffer.pending_display st' =
           (ComSniffer.pending_display st ++ [data])%list /\
         ComSniffer.display_text st' = ComSniffer.display_text st.
Proof.
  intros Hmax. unfold ComSniffer.on_data_received.
  unfold bind at 1. unfold modify at 1.
  set (st1 := ComSniffer.with_pending_display
                (ComSniffer.pending_display st ++ [data]) st).
  unfold bind at 1. unfold get at 1. unfold bind at 1.
  assert (Hq1 : ComSniffer.qlen (ComSniffer.pending_display st1)
                = ComSniffer.qlen (ComSniffer.pending_display st) + 1).
  { unfold st1, ComSniffer.qlen. simpl. rewrite length_app. simpl. lia. }
  destruct (Z.gtb_spec (ComSniffer.qlen (ComSniffer.pending_display st1))
              (ComSniffer.max_pending_display (ComSniffer.conf st1)))
    as [Hgt|_].
  { change (ComSniffer.conf st1) with (ComSniffer.conf st) in Hgt. lia. }
  unfold ret at 1. unfold bind at 1.
  destruct (enqueue_log_frame data st1) as (st3 & E3 & Hc3 & Hd3 & Hq3).
  rewrite E3. unfold bind at 1. unfold get at 1.
  rewrite Hq3, Hq1.
  destruct (ComSniffer.qlen (ComSniffer.pending_display st) + 1 >=? 1000).
  - destruct (flush_pending_spec st3) as (st4 & E4 & Hc4 & Hq4 & Hd4).
    exists st4. split; [exact E4|]. split; [now rewrite Hc4, Hc3|].
    split; [exact Hq4|]. rewrite Hd4, Hq3, Hd3. unfold st1. simpl.
    destruct (ComSniffer.pending_display st ++ [data])%list eqn:E;
      [|reflexivity].
    destruct (ComSniffer.pending_display st); discriminate E.
  - exists st3. split; [reflexivity|]. split; [exact Hc3|].
    split; [now rewrite Hq3|now rewrite Hd3].
Qed.

(** X13. With a maximum of at least 1000 entries (the constructor sets
    20000) the display queue never overflows, because it is flushed at
    1000 entries: along every sequence of enqueues from a queue of fewer
    than 1000 entries, the queue drops no line: the text handed to the
    display widget or waiting in the queue is the previous such text
    followed by all the lines in order.  (The widget then keeps the last
    5000 blocks of what it is handed.) *)
Theorem display_queue_loses_no_line (items : list (string * string)) :
  forall st : ComSniffer.sniffer,
  1000 <= ComSniffer.max_pending_display (ComSniffer.conf st) ->
  ComSniffer.qlen (ComSniffer.pending_display st) < 1000 ->
  exists st',
    enqueue_all items st = (st', Ok tt) /\
    ComSniffer.qlen (ComSniffer.pending_display st') < 1000 /\
    handed_to_display st' =
      (handed_to_display st ++ String.concat EmptyString (map snd items))%string.
Proof.
  induction items as [|[label data] rest IH]; intros st Hmax Hq.
  - exists st. split; [reflexivity|]. split; [assumption|].
    simpl. unfold handed_to_display. now rewrite append_empty_r.
  - destruct (on_data_received_no_overflow label data st)
      as (st1 & E & Hc & Hcase); [lia|].
    assert (H1 : ComSniffer.qlen (ComSniffer.pending_display st1) < 1000 /\
                 handed_to_display st1 = (handed_to_display st ++ data)%string).
    { unfold handed_to_display.
      destruct (Z.geb_spec
                  (ComSniffer.qlen (ComSniffer.pending_display st) + 1) 1000)
        as [Hge|Hlt]; destruct Hcase as [Hp Hd]; rewrite Hp, Hd.
      - split; [unfold ComSniffer.qlen; simpl; lia|].
        rewrite join_snoc, join_snoc. simpl String.concat at 2.
        change (String.concat EmptyString []) with EmptyString.
        rewrite append_empty_r. now rewrite append_assoc_string.
      - split.
        + unfold ComSniffer.qlen in *. rewrite length_app. simpl. lia.
        + rewrite join_snoc. now rewrite append_assoc_string. }
    destruct H1 as [Hq1 Hs1].
    destruct (IH st1) as (st' & E' & Hq' & Hs'); [now rewrite Hc|assumption|].
    exists st'. simpl enqueue_all. unfold bind. rewrite E.
    split; [exact E'|]. split; [exact Hq'|].
    rewrite Hs', Hs1. simpl map. rewrite join_cons.
    now rewrite append_assoc_string.
Qed.

Lemma display_queue_loses_no_line_witness :
  exists st',
    enqueue_all [("RX1", "a"); ("RX2", "b")]%string
      (ComSniffer.__init__ "logs" "COM1" "9600" "COM2" "9600")
    = (st', Ok tt) /\
    ComSniffer.qlen (ComSniffer.pending_display st') < 1000 /\
    handed_to_display st' =
      (handed_to_display (ComSniffer.__init__ "logs" "COM1" "9600" "COM2" "9600")
       ++ String.concat EmptyString
            (map snd [("RX1", "a"); ("RX2", "b")]%string))%string.
Proof.
  apply (display_queue_loses_no_line [("RX1", "a"); ("RX2", "b")]%string
           (ComSniffer.__init__ "logs" "COM1" "9600" "COM2" "9600"));
    [discriminate|reflexivity].
Defined.

Lemma total_size_app (a b : list string) :
  total_size (a ++ b) = total_size a + total_size b.
Proof. induction a as [|x a IH]; simpl; [reflexivity|rewrite IH; lia]. Qed.

Lemma drop_oldest_log (fuel : nat) :
  forall st,
  ComSniffer.conf (fst (ComSniffer.drop_oldest fuel st)) = ComSniffer.conf st /\
  ComSniffer.log_file (fst (ComSniffer.drop_oldest fuel st))
    = ComSniffer.log_file st /\
  ComSniffer.pending_log (fst (ComSniffer.drop_oldest fuel st))
    = ComSniffer.pending_log st /\
  ComSniffer.pending_log_bytes (fst (ComSniffer.drop_oldest fuel st))
    = ComSniffer.pending_log_bytes st.
Proof.
  induction fuel as [|fuel IH]; intros st; [repeat split|].
  simpl. run_monad.
  destruct (ComSniffer.qlen (ComSniffer.pending_display st)
            >? ComSniffer.max_pending_display (ComSniffer.conf st));
    [|repeat split].
  unfold ComSniffer.popleft. run_monad.
  destruct (ComSniffer.pending_display st) as [|x q]; [repeat split|].
  simpl. apply (IH (ComSniffer.with_pending_display q st)).
Qed.

Lemma enqueue_log_keeps_ok (data : string) (st : ComSniffer.sniffer) :
  0 <= ComSniffer.max_pending_log_bytes (ComSniffer.conf st) ->
  log_queue_ok st ->
  exists st',
    ComSniffer.enqueue_log data st = (st', Ok tt) /\
    ComSniffer.conf st' = ComSniffer.conf st /\
    ComSniffer.pending_display st' = ComSniffer.pending_display st /\
    log_queue_ok st'.
Proof.
  intros Hmax [Hsum Hle]. unfold ComSniffer.enqueue_log. run_monad.
  destruct (ComSniffer.log_file st); simpl.
  - destruct (Z.gtb_spec
                (ComSniffer.pending_log_bytes st + encoded_size data)
                (ComSniffer.max_pending_log_bytes (ComSniffer.conf st)));
      eexists; (split; [reflexivity|]); simpl;
      (split; [reflexivity|]); (split; [reflexivity|]);
      unfold log_queue_ok; simpl.
    + split; [reflexivity|assumption].
    + rewrite total_size_app. simpl. split; lia.
  - exists st. repeat split; assumption.
Qed.

Lemma flush_pending_keeps_ok (st : ComSniffer.sniffer) :
  0 <= ComSniffer.max_pending_log_bytes (ComSniffer.conf st) ->
  log_queue_ok st ->
  exists st',
    ComSniffer.flush_pending st = (st', Ok tt) /\
    ComSniffer.conf st' = ComSniffer.conf st /\
    ComSniffer.pending_display st' = [] /\
    (ComSniffer.log_file st' = None \/ ComSniffer.pending_log st' = []) /\
    log_queue_ok st'.
Proof.
  intros Hmax [Hsum Hle].
  unfold ComSniffer.flush_pending, ComSniffer.open_new_log_file. run_monad.
  destruct (ComSniffer.pending_display st) as [|x q] eqn:Ed; simpl;
    destruct (ComSniffer.log_file st) as [f|] eqn:El; simpl;
    destruct (ComSniffer.pending_log st) as [|y l] eqn:Ep; simpl;
    repeat match goal with
           | |- context [Z.geb ?a ?b] => destruct (Z.geb a b); simpl
           end;
    rewrite ?El; simpl; eexists; (split; [reflexivity|]); simpl;
    rewrite ?Ed, ?El, ?Ep; unfold log_queue_ok; simpl;
    rewrite ?Ep; simpl; repeat split; auto; try lia;
    try (rewrite Hsum, Ep; reflexivity).
Qed.

(** X14. The byte counter of the aggregate-log queue always equals the
    encoded size of the lines waiting in it and never exceeds its limit:
    an enqueue that would exceed the limit empties the queue and resets
    the counter, and a flush either leaves both alone or empties both. *)
Theorem log_queue_counter_agrees :
  (forall (st : ComSniffer.sniffer) (label data : string),
     0 <= ComSniffer.max_pending_display (ComSniffer.conf st) ->
     0 <= ComSniffer.max_pending_log_bytes (ComSniffer.conf st) ->
     log_queue_ok st ->
     exists st',
       ComSniffer.on_data_received label data st = (st', Ok tt) /\
       log_queue_ok st') /\
  (forall st : ComSniffer.sniffer,
     0 <= ComSniffer.max_pending_log_bytes (ComSniffer.conf st) ->
     log_queue_ok st ->
     exists st',
       ComSniffer.flush_pending st = (st', Ok tt) /\ log_queue_ok st') /\
  (forall d p1 b1 p2 b2,
     log_queue_ok (ComSniffer.__init__ d p1 b1 p2 b2)).
Proof.
  split; [|split].
  - intros st label data Hmd Hml Hok.
    unfold ComSniffer.on_data_received.
    unfold bind at 1. unfold modify at 1.
    set (st1 := ComSniffer.with_pending_display
                  (ComSniffer.pending_display st ++ [data]) st).
    unfold bind at 1. unfold get at 1. unfold bind at 1.
    assert (H2 : exists st2,
               (if ComSniffer.qlen (ComSniffer.pending_display st1)
                   >? ComSniffer.max_pending_display (ComSniffer.conf st1)
                then ComSniffer.drop_oldest
                       (S (List.length (ComSniffer.pending_display st1)))
                else ret tt) st1 = (st2, Ok tt) /\
               ComSniffer.conf st2 = ComSniffer.conf st /\
               log_queue_ok st2).
    { destruct (ComSniffer.qlen (ComSniffer.pending_display st1)
                >? ComSniffer.max_pending_display (ComSniffer.conf st1)).
      - destruct (drop_oldest_spec
                    (S (List.length (ComSniffer.pending_display st1))) st1)
          as (st2 & E & Hc & _ & _); [exact Hmd|lia|].
        destruct (drop_oldest_log
                    (S (List.length (ComSniffer.pending_display st1))) st1)
          as (_ & _ & Hpl & Hpb).
        rewrite E in Hpl, Hpb. simpl in Hpl, Hpb.
        exists st2. split; [exact E|]. split; [exact Hc|].
        destruct Hok as [Hsum Hle]. unfold log_queue_ok.
        rewrite Hpl, Hpb, Hc. split; assumption.
      - exists st1. split; [reflexivity|]. split; [reflexivity|exact Hok]. }
    destruct H2 as (st2 & E2 & Hc2 & Hok2). rewrite E2.
    unfold bind at 1.
    destruct (enqueue_log_keeps_ok data st2) as (st3 & E3 & Hc3 & _ & Hok3);
      [now rewrite Hc2|exact Hok2|].
    rewrite E3. unfold bind at 1. unfold get at 1.
    destruct (ComSniffer.qlen (ComSniffer.pending_display st3) >=? 1000).
    + destruct (flush_pending_keeps_ok st3)
        as (st4 & E4 & _ & _ & _ & Hok4);
        [now rewrite Hc3, Hc2|exact Hok3|].
      exists st4. split; assumption.
    + exists st3. split; [reflexivity|exact Hok3].
  - intros st Hml Hok.
    destruct (flush_pending_keeps_ok st Hml Hok) as (st' & E & _ & _ & _ & H).
    exists st'. split; assumption.
  - intros d p1 b1 p2 b2. split; [reflexivity|]. simpl. lia.
Qed.

Lemma log_queue_counter_agrees_witness :
  log_queue_ok (ComSniffer.__init__ "logs" "COM1" "9600" "COM2" "9600") /\
  exists st',
    ComSniffer.on_data_received "RX1" "line"
      (ComSniffer.__init__ "logs" "COM1" "9600" "COM2" "9600")
    = (st', Ok tt) /\
    log_queue_ok st'.
Proof.
  assert (H : log_queue_ok
                (ComSniffer.__init__ "logs" "COM1" "9600" "COM2" "9600")).
  { split; [reflexivity|discriminate]. }
  split; [exact H|].
  apply (proj1 log_queue_counter_agrees); [discriminate|discriminate|exact H].
Defined.

Lemma flush_pending_settled (st : ComSniffer.sniffer) :
  ComSniffer.pending_display st = [] ->
  ComSniffer.log_file st = None \/ ComSniffer.pending_log st = [] ->
  ComSniffer.flush_pending st = (st, Ok tt).
Proof.
  intros Hd Hl. unfold ComSniffer.flush_pending. run_monad.
  rewrite Hd. simpl.
  destruct Hl as [Hl|Hl]; rewrite Hl; [reflexivity|].
  destruct (ComSniffer.log_file st); reflexivity.
Qed.

Lemma flush_pending_clears (st : ComSniffer.sniffer) :
  exists st',
    ComSniffer.flush_pending st = (st', Ok tt) /\
    ComSniffer.pending_display st' = [] /\
    (ComSniffer.log_file st' = None \/ ComSniffer.pending_log st' = []).
Proof.
  unfold ComSniffer.flush_pending, ComSniffer.open_new_log_file. run_monad.
  destruct (ComSniffer.pending_display st) as [|x q] eqn:Ed; simpl;
    destruct (ComSniffer.log_file st) as [f|] eqn:El; simpl;
    destruct (ComSniffer.pending_log st) as [|y l] eqn:Ep; simpl;
    repeat match goal with
           | |- context [Z.geb ?a ?b] => destruct (Z.geb a b); simpl
           end;
    rewrite ?El; simpl; eexists; (split; [reflexivity|]); simpl;
    rewrite ?Ed, ?El, ?Ep; auto.
Qed.

(** X15. [flush_pending] is idempotent: it always ends normally, and a
    second flush right after it changes nothing, whether or not the first
    one rotated the aggregate log. *)
Theorem flush_pending_idempotent (st : ComSniffer.sniffer) :
  exists st',
    ComSniffer.flush_pending st = (st', Ok tt) /\
    ComSniffer.flush_pending st' = (st', Ok tt).
Proof.
  destruct (flush_pending_clears st) as (st' & E & Hd & Hl).
  exists st'. split; [exact E|]. now apply flush_pending_settled.
Qed.

End CoordinatorMore.

(** ** The hex rendering *)

Section Rendering.

Local Open Scope N_scope.

Lemma hex_digit_inj (d e : N) :
  d < 16 -> e < 16 -> hex_digit d = hex_digit e -> d = e.
Proof.
  intros Hd He H. unfold hex_digit in H.
  apply (f_equal N_of_ascii) in H.
  destruct (N.ltb_spec d 10); destruct (N.ltb_spec e 10);
    rewrite !N_ascii_embedding in H by lia; lia.
Qed.

Lemma hex2_inj (b b' : byte) : hex2 b = hex2 b' -> b = b'.
Proof.
  unfold hex2. intros H. injection H as H1 H2.
  pose proof (Byte.to_N_bounded b) as Hb.
  pose proof (Byte.to_N_bounded b') as Hb'.
  assert (Hq : Byte.to_N b / 16 < 16)
    by (apply N.Div0.div_lt_upper_bound; lia).
  assert (Hq' : Byte.to_N b' / 16 < 16)
    by (apply N.Div0.div_lt_upper_bound; lia).
  assert (Hr : Byte.to_N b mod 16 < 16) by (apply N.mod_lt; lia).
  assert (Hr' : Byte.to_N b' mod 16 < 16) by (apply N.mod_lt; lia).
  apply hex_digit_inj in H1; [|assumption|assumption].
  apply hex_digit_inj in H2; [|assumption|assumption].
  assert (E : Byte.to_N b = Byte.to_N b').
  { rewrite (N.div_mod (Byte.to_N b) 16) by lia.
    rewrite (N.div_mod (Byte.to_N b') 16) by lia.
    now rewrite H1, H2. }
  apply (f_equal Byte.of_N) in E. rewrite !Byte.of_to_N in E.
  now injection E.
Qed.

Lemma hex_join_cons (b : byte) (p : bytes) :
  hex_join (b :: p) =
  (hex2 b ++ match p with
             | [] => EmptyString
             | _ :: _ => " " ++ hex_join p
             end)%string.
Proof.
  unfold hex_join. destruct p as [|c p]; simpl.
  - reflexivity.
  - reflexivity.
Qed.

Lemma length_append_string (a b : string) :
  String.length (a ++ b) = (String.length a + String.length b)%nat.
Proof. induction a as [|x a IH]; simpl; [reflexivity|now rewrite IH]. Qed.

Lemma hex_join_length (p : bytes) :
  p <> [] ->
  (String.length (hex_join p) + 1 = 3 * List.length p)%nat.
Proof.
  induction p as [|b p IH]; intros Hne; [congruence|].
  rewrite hex_join_cons, length_append_string.
  change (String.length (hex2 b)) with 2%nat.
  destruct p as [|c p].
  - reflexivity.
  - rewrite length_append_string.
    change (String.length " ") with 1%nat.
    assert (H : (c :: p) <> []) by discriminate.
    specialize (IH H). simpl List.length in *. lia.
Qed.

Lemma hex_join_inj (p : bytes) :
  forall q, hex_join p = hex_join q -> p = q.
Proof.
  induction p as [|b p IH]; intros [|b' q] H.
  - reflexivity.
  - rewrite hex_join_cons in H. discriminate H.
  - rewrite hex_join_cons in H. discriminate H.
  - rewrite !hex_join_cons in H.
    unfold hex2 at 1 2 in H. cbn [append] in H.
    injection H as H1 H2 H3.
    assert (E : b = b').
    { apply hex2_inj. unfold hex2. now rewrite H1, H2. }
    subst b'. f_equal.
    destruct p as [|c p]; destruct q as [|c' q]; try discriminate H3.
    + reflexivity.
    + cbn [append] in H3. injection H3 as H3. now apply IH.
Qed.

Lemma append_cancel_l (a x y : string) :
  (a ++ x)%string = (a ++ y)%string -> x = y.
Proof.
  induction a as [|c a IH]; simpl; intros H; [assumption|].
  injection H as H. now apply IH.
Qed.

Lemma append_cancel_char_r (x : string) :
  forall (y : string) (c : ascii),
  (x ++ String c EmptyString)%string = (y ++ String c EmptyString)%string ->
  x = y.
Proof.
  induction x as [|a x IH]; intros [|b y] c H; simpl in H.
  - reflexivity.
  - injection H as _ H. destruct y; discriminate H.
  - injection H as _ H. destruct x; discriminate H.
  - injection H as -> H. f_equal. now apply (IH y c).
Qed.

(** X16. The rendering of a packet determines the packet: bytes are shown
    as two hex digits each, separated by one space ([3n - 1] characters
    for [n] bytes), two packets with the same rendering are equal, and so
    two rendered lines with the same time stamp and label carry the same
    payload. *)
Theorem rendering_determines_packet :
  (forall p : bytes,
     p <> [] ->
     (String.length (hex_join p) + 1 = 3 * List.length p)%nat) /\
  (forall p q : bytes, hex_join p = hex_join q -> p = q) /\
  (forall (ts : option string) (label : string) (p q : bytes),
     render_message ts label (format_packet_display (hex_join p) p)
     = render_message ts label (format_packet_display (hex_join q) q) ->
     p = q).
Proof.
  split; [exact hex_join_length|]. split; [exact hex_join_inj|].
  intros ts label p q H. unfold render_message, format_packet_display in H.
  apply append_cancel_l in H. apply append_cancel_l in H.
  apply append_cancel_l in H. apply append_cancel_l in H.
  apply append_cancel_l in H.
  unfold newline in H. apply append_cancel_char_r in H.
  now apply hex_join_inj.
Qed.

Lemma rendering_determines_packet_witness :
  [x02; xab] <> [] /\
  (String.length (hex_join [x02; xab]) + 1
   = 3 * List.length [x02; xab])%nat.
Proof.
  split; [discriminate|].
  apply (proj1 rendering_determines_packet); discriminate.
Defined.

End Rendering.
